(** * TrucoMaster: the match engine of a Truco (Paulista) server

    A shallow embedding of the rank model ([shared/gameRules]), the deck
    helpers ([cardUtils]), the pure match transitions ([gameUtils]) and the
    [TrucoGame] class with its disconnect / reconnect handling, followed by
    the properties of the specification that concern them.

    Conventions of the embedding:
    - a JavaScript [number] is a [Z]; array indices returned by [findIndex]
      are [Z] too, with [-1] for "not found";
    - [T | null] and optional fields are [option T];
    - a function that can raise a [TypeError] returns [option], [None]
      standing for the exception;
    - [Date.now()], [uuidv4()] and the shuffled deck are inputs. *)

From Stdlib Require Import ZArith Lia Permutation.
From stdpp Require Import base option list strings gmap.

Local Open Scope Z_scope.

(** ** [shared/types] *)

Inductive Suit := HEARTS | SPADES | DIAMONDS | CLUBS.

Inductive CardValue :=
  ACE | TWO | THREE | FOUR | FIVE | SIX | SEVEN | QUEEN | JACK | KING.

Inductive Team := A | B.

Inductive RoundState :=
  WAITING_FOR_PLAYERS | DEALING | PLAYING | ROUND_OVER | GAME_OVER.

Inductive GameMode := ONE_VS_ONE | TWO_VS_TWO.

#[export] Instance Suit_eq_dec : EqDecision Suit.
Proof. solve_decision. Defined.
#[export] Instance CardValue_eq_dec : EqDecision CardValue.
Proof. solve_decision. Defined.
#[export] Instance Team_eq_dec : EqDecision Team.
Proof. solve_decision. Defined.
#[export] Instance RoundState_eq_dec : EqDecision RoundState.
Proof. solve_decision. Defined.
#[export] Instance GameMode_eq_dec : EqDecision GameMode.
Proof. solve_decision. Defined.

Module Card.
(** [rank] and [isManilha] are the optional fields filled in by
    [updateManilhas] when a hand is dealt. *)
Record t := mk {
    suit : Suit;
    value : CardValue;
    id : string;
    rank : option Z;
    isManilha : option bool
}.
End Card.
Abbreviation Card := Card.t.

#[export] Instance Card_eq_dec : EqDecision Card.
Proof. solve_decision. Defined.

Module PlayedCard.
Record t := mk {
    playerId : string;
    card : Card;
    timestamp : Z
}.
End PlayedCard.
Abbreviation PlayedCard := PlayedCard.t.

Module Player.
(** [isDisconnected] is not declared by the interface; [TrucoGame] adds it
    to the object on a transport drop, so it is absent ([None]) until then. *)
Record t := mk {
    id : string;
    username : string;
    hand : list Card;
    isDealer : bool;
    team : Team;
    isReady : bool;
    isYourTurn : bool;
    isDisconnected : option bool
}.
(** Field updates, for the object spreads [{ ...x, field: v }]. *)
Definition with_id v (x : t) : t :=
  mk v (username x) (hand x) (isDealer x) (team x) (isReady x) (isYourTurn x) (isDisconnected x).
Definition with_hand v (x : t) : t :=
  mk (id x) (username x) v (isDealer x) (team x) (isReady x) (isYourTurn x) (isDisconnected x).
Definition with_isDealer v (x : t) : t :=
  mk (id x) (username x) (hand x) v (team x) (isReady x) (isYourTurn x) (isDisconnected x).
Definition with_team v (x : t) : t :=
  mk (id x) (username x) (hand x) (isDealer x) v (isReady x) (isYourTurn x) (isDisconnected x).
Definition with_isReady v (x : t) : t :=
  mk (id x) (username x) (hand x) (isDealer x) (team x) v (isYourTurn x) (isDisconnected x).
Definition with_isYourTurn v (x : t) : t :=
  mk (id x) (username x) (hand x) (isDealer x) (team x) (isReady x) v (isDisconnected x).
Definition with_isDisconnected v (x : t) : t :=
  mk (id x) (username x) (hand x) (isDealer x) (team x) (isReady x) (isYourTurn x) v.
End Player.
Abbreviation Player := Player.t.

Module GameState.
Record t := mk {
    id : string;
    mode : GameMode;
    roundState : RoundState;
    players : list Player;
    currentTrick : list PlayedCard;
    tricks : list (list PlayedCard);
    vira : option Card;
    teamAScore : Z;
    teamBScore : Z;
    roundValue : Z;
    dealer : string;
    currentPlayer : string;
    winner : option Team;
    trucoRequested : bool;
    trucoRequestedBy : option string;
    roundWinner : option Team
}.
(** Field updates, for the object spreads [{ ...x, field: v }]. *)
Definition with_roundState v (x : t) : t :=
  mk (id x) (mode x) v (players x) (currentTrick x) (tricks x) (vira x) (teamAScore x) (teamBScore x) (roundValue x) (dealer x) (currentPlayer x) (winner x) (trucoRequested x) (trucoRequestedBy x) (roundWinner x).
Definition with_players v (x : t) : t :=
  mk (id x) (mode x) (roundState x) v (currentTrick x) (tricks x) (vira x) (teamAScore x) (teamBScore x) (roundValue x) (dealer x) (currentPlayer x) (winner x) (trucoRequested x) (trucoRequestedBy x) (roundWinner x).
Definition with_currentTrick v (x : t) : t :=
  mk (id x) (mode x) (roundState x) (players x) v (tricks x) (vira x) (teamAScore x) (teamBScore x) (roundValue x) (dealer x) (currentPlayer x) (winner x) (trucoRequested x) (trucoRequestedBy x) (roundWinner x).
Definition with_tricks v (x : t) : t :=
  mk (id x) (mode x) (roundState x) (players x) (currentTrick x) v (vira x) (teamAScore x) (teamBScore x) (roundValue x) (dealer x) (currentPlayer x) (winner x) (trucoRequested x) (trucoRequestedBy x) (roundWinner x).
Definition with_vira v (x : t) : t :=
  mk (id x) (mode x) (roundState x) (players x) (currentTrick x) (tricks x) v (teamAScore x) (teamBScore x) (roundValue x) (dealer x) (currentPlayer x) (winner x) (trucoRequested x) (trucoRequestedBy x) (roundWinner x).
Definition with_teamAScore v (x : t) : t :=
  mk (id x) (mode x) (roundState x) (players x) (currentTrick x) (tricks x) (vira x) v (teamBScore x) (roundValue x) (dealer x) (currentPlayer x) (winner x) (trucoRequested x) (trucoRequestedBy x) (roundWinner x).
Definition with_teamBScore v (x : t) : t :=
  mk (id x) (mode x) (roundState x) (players x) (currentTrick x) (tricks x) (vira x) (teamAScore x) v (roundValue x) (dealer x) (currentPlayer x) (winner x) (trucoRequested x) (trucoRequestedBy x) (roundWinner x).
Definition with_roundValue v (x : t) : t :=
  mk (id x) (mode x) (roundState x) (players x) (currentTrick x) (tricks x) (vira x) (teamAScore x) (teamBScore x) v (dealer x) (currentPlayer x) (winner x) (trucoRequested x) (trucoRequestedBy x) (roundWinner x).
Definition with_dealer v (x : t) : t :=
  mk (id x) (mode x) (roundState x) (players x) (currentTrick x) (tricks x) (vira x) (teamAScore x) (teamBScore x) (roundValue x) v (currentPlayer x) (winner x) (trucoRequested x) (trucoRequestedBy x) (roundWinner x).
Definition with_currentPlayer v (x : t) : t :=
  mk (id x) (mode x) (roundState x) (players x) (currentTrick x) (tricks x) (vira x) (teamAScore x) (teamBScore x) (roundValue x) (dealer x) v (winner x) (trucoRequested x) (trucoRequestedBy x) (roundWinner x).
Definition with_winner v (x : t) : t :=
  mk (id x) (mode x) (roundState x) (players x) (currentTrick x) (tricks x) (vira x) (teamAScore x) (teamBScore x) (roundValue x) (dealer x) (currentPlayer x) v (trucoRequested x) (trucoRequestedBy x) (roundWinner x).
Definition with_trucoRequested v (x : t) : t :=
  mk (id x) (mode x) (roundState x) (players x) (currentTrick x) (tricks x) (vira x) (teamAScore x) (teamBScore x) (roundValue x) (dealer x) (currentPlayer x) (winner x) v (trucoRequestedBy x) (roundWinner x).
Definition with_trucoRequestedBy v (x : t) : t :=
  mk (id x) (mode x) (roundState x) (players x) (currentTrick x) (tricks x) (vira x) (teamAScore x) (teamBScore x) (roundValue x) (dealer x) (currentPlayer x) (winner x) (trucoRequested x) v (roundWinner x).
Definition with_roundWinner v (x : t) : t :=
  mk (id x) (mode x) (roundState x) (players x) (currentTrick x) (tricks x) (vira x) (teamAScore x) (teamBScore x) (roundValue x) (dealer x) (currentPlayer x) (winner x) (trucoRequested x) (trucoRequestedBy x) v.
End GameState.
Abbreviation GameState := GameState.t.

(** [x |> f |> g] applies the field updates of a spread from left to right. *)
Notation "x |> f" := (f x) (at level 45, left associativity, only parsing).

(** ** JavaScript helpers *)

(** [Array.prototype.findIndex]: index of the first match, [-1] if none. *)
Fixpoint findIndex {X} (f : X -> bool) (l : list X) : Z :=
  match l with
  | [] => -1
  | x :: r => if f x then 0 else
                let k := findIndex f r in if k <? 0 then -1 else k + 1
  end.

(** [arr[k]] for an integer [k]: [None] is [undefined]. *)
Definition at_index {X} (l : list X) (k : Z) : option X :=
  if k <? 0 then None else l !! Z.to_nat k.

(** [arr[a % arr.length]]: on the empty array the index is [NaN] and the
    element [undefined]. *)
Definition at_index_mod {X} (l : list X) (a : Z) : option X :=
  if Z.of_nat (length l) =? 0 then None
  else at_index l (Z.rem a (Z.of_nat (length l))).

(** Truthiness of a [string | null]: [null] and the empty string are falsy. *)
Definition truthy (s : option string) : bool :=
  match s with
  | None => false
  | Some x => negb (String.eqb x "")
  end.

(** [s || ''] for a [string | undefined]. *)
Definition or_empty (s : option string) : string :=
  if truthy s then default ""%string s else ""%string.

(** ** [shared/gameRules] *)

Definition CARD_STRENGTHS (v : CardValue) : Z :=
  match v with
  | THREE => 10
  | TWO => 9
  | ACE => 8
  | KING => 7
  | JACK => 6
  | QUEEN => 5
  | SEVEN => 4
  | SIX => 3
  | FIVE => 2
  | FOUR => 1
  end.

Definition MANILHA_SUIT_STRENGTH (s : Suit) : Z :=
  match s with
  | CLUBS => 4
  | HEARTS => 3
  | SPADES => 2
  | DIAMONDS => 1
  end.

Definition getManilhaValue (vira : option Card) : option CardValue :=
  match vira with
  | None => None
  | Some v =>
      match Card.value v with
      | ACE => Some TWO
      | TWO => Some THREE
      | THREE => Some FOUR
      | FOUR => Some FIVE
      | FIVE => Some SIX
      | SIX => Some SEVEN
      | SEVEN => Some QUEEN
      | QUEEN => Some JACK
      | JACK => Some KING
      | KING => Some ACE
      end
  end.

Definition isManilha (card : Card) (vira : option Card) : bool :=
  match vira with
  | None => false
  | Some _ => bool_decide (Some (Card.value card) = getManilhaValue vira)
  end.

Definition compareCards (card1 card2 : Card) (vira : option Card) : Z :=
  let card1IsManilha := isManilha card1 vira in
  let card2IsManilha := isManilha card2 vira in
  if card1IsManilha && card2IsManilha then
    MANILHA_SUIT_STRENGTH (Card.suit card1) - MANILHA_SUIT_STRENGTH (Card.suit card2)
  else if card1IsManilha then 1
  else if card2IsManilha then -1
  else CARD_STRENGTHS (Card.value card1) - CARD_STRENGTHS (Card.value card2).

(** One iteration of the loop of [determineTrickWinner]; the accumulator is
    the pair [(winningPlayerId, winningCard)]. *)
Definition trickStep (vira : option Card) (acc : string * Card) (pc : PlayedCard)
  : string * Card :=
  if compareCards (PlayedCard.card pc) (snd acc) vira >? 0
  then (PlayedCard.playerId pc, PlayedCard.card pc)
  else acc.

Definition determineTrickWinner (playedCards : list PlayedCard) (vira : option Card)
  : option string :=
  match playedCards with
  | [] => None
  | first :: rest =>
      Some (fst (fold_left (trickStep vira) rest
                   (PlayedCard.playerId first, PlayedCard.card first)))
  end.

Definition getRoundPoints (roundValue : Z) : Z :=
  if roundValue =? 1 then 1
  else if roundValue =? 3 then 3
  else if roundValue =? 6 then 6
  else if roundValue =? 9 then 9
  else if roundValue =? 12 then 12
  else 1.

Definition hasWinningScore (score : Z) : bool := score >=? 12.

Definition getNextRoundValue (currentValue : Z) : Z :=
  if currentValue =? 1 then 3
  else if currentValue =? 3 then 6
  else if currentValue =? 6 then 9
  else if currentValue =? 9 then 12
  else 3.

(** ** [cardUtils] *)

Definition suits : list Suit := [HEARTS; SPADES; DIAMONDS; CLUBS].
Definition values : list CardValue :=
  [ACE; TWO; THREE; FOUR; FIVE; SIX; SEVEN; QUEEN; JACK; KING].

(** [createDeck]: the nested loop over [Object.values(Suit)] and
    [Object.values(CardValue)]; [uuid k] is the identifier drawn for the
    [k]-th card pushed. *)
Definition createDeck (uuid : nat -> string) : list Card :=
  imap (fun k sv => Card.mk (fst sv) (snd sv) (uuid k) None None)
       (list_prod suits values).

(** [deck.splice(0, count)]: the removed prefix and what is left of the deck. *)
Definition dealCards (deck : list Card) (count : nat) : list Card * list Card :=
  (take count deck, drop count deck).

Definition updateManilhas (cards : list Card) (vira : option Card) : list Card :=
  match vira with
  | None => cards
  | Some _ =>
      let manilhaValue := getManilhaValue vira in
      map (fun card =>
             let isCardManilha := bool_decide (Some (Card.value card) = manilhaValue) in
             let rank := if isCardManilha then
                           match Card.suit card with
                           | CLUBS => 4
                           | HEARTS => 3
                           | SPADES => 2
                           | DIAMONDS => 1
                           end
                         else 0 in
             Card.mk (Card.suit card) (Card.value card) (Card.id card)
                     (Some (if isCardManilha then rank else 0)) (Some isCardManilha))
          cards
  end.

(** ** [gameUtils] *)

Definition initializeGameState (gameId : string) (mode : GameMode)
    (players : list Player) : GameState :=
  GameState.mk gameId mode WAITING_FOR_PLAYERS players [] [] None 0 0 1
    (or_empty (Player.id <$> players !! 0%nat)) "" None false None None.

(** [assignTeams] writes the team into the seat objects of the copied array;
    the embedding returns the seats so updated. *)
Definition assignTeams (players : list Player) (mode : GameMode) : list Player :=
  match mode with
  | ONE_VS_ONE =>
      imap (fun i p => match i with
                       | 0%nat => p |> Player.with_team A
                       | 1%nat => p |> Player.with_team B
                       | _ => p
                       end) players
  | TWO_VS_TWO =>
      imap (fun i p => p |> Player.with_team (if Nat.even i then A else B)) players
  end.

(** [deck.pop() || null] together with the deck it leaves behind. *)
Definition popCard (deck : list Card) : option Card * list Card :=
  (last deck, removelast deck).

(** The first [map] of [dealCardsToPlayers]: every call of [dealCards] takes
    its three cards off the front of the same, shrinking, deck. *)
Fixpoint dealHands (deck : list Card) (vira : option Card) (players : list Player)
  : list Player :=
  match players with
  | [] => []
  | player :: rest =>
      let '(hand, deck') := dealCards deck 3 in
      let updatedHand := updateManilhas hand vira in
      (player |> Player.with_hand updatedHand) :: dealHands deck' vira rest
  end.

(** [dealCardsToPlayers]; [shuffled] is the value of
    [shuffleDeck(createDeck())]. *)
Definition dealCardsToPlayers (shuffled : list Card) (gameState : GameState)
  : GameState :=
  let '(vira, deck) := popCard shuffled in
  let updatedPlayers := dealHands deck vira (GameState.players gameState) in
  let dealerIndex :=
    findIndex (fun p => String.eqb (Player.id p) (GameState.dealer gameState))
              (GameState.players gameState) in
  let firstPlayerId :=
    or_empty (Player.id <$> at_index_mod (GameState.players gameState) (dealerIndex + 1)) in
  let playersWithTurn :=
    map (fun player =>
           player |> Player.with_isYourTurn (String.eqb (Player.id player) firstPlayerId))
        updatedPlayers in
  gameState
    |> GameState.with_players playersWithTurn
    |> GameState.with_vira vira
    |> GameState.with_roundState PLAYING
    |> GameState.with_currentPlayer firstPlayerId
    |> GameState.with_currentTrick [].

(** [players.find(p => p.id === id)] for an [id] that may be [null]. *)
Definition findPlayer (players : list Player) (pid : option string) : option Player :=
  match pid with
  | None => None
  | Some i => List.find (fun p => String.eqb (Player.id p) i) players
  end.

(** The filter predicate of the trick tallies: the team of the seat that won
    [trick], [None] when that seat cannot be found. *)
Definition trickTeam (gameState : GameState) (trick : list PlayedCard) : option Team :=
  let winnerId := determineTrickWinner trick (GameState.vira gameState) in
  Player.team <$> findPlayer (GameState.players gameState) winnerId.

Definition countTricks (gameState : GameState) (tm : Team)
    (tricks : list (list PlayedCard)) : Z :=
  Z.of_nat (length (List.filter
    (fun trick => bool_decide (trickTeam gameState trick = Some tm)) tricks)).

(** [finishRound]. [None] is the [TypeError] raised by
    [players[nextDealerIndex].id] when no seat is found at that index. *)
Definition finishRound (gameState : GameState) (tricks : list (list PlayedCard))
  : option GameState :=
  let teamATricks := countTricks gameState A tricks in
  let teamBTricks := countTricks gameState B tricks in
  let roundWinner :=
    if teamATricks >? teamBTricks then Some A
    else if teamBTricks >? teamATricks then Some B
    else Player.team <$> findPlayer (GameState.players gameState)
                                    (Some (GameState.dealer gameState)) in
  let '(teamAScore, teamBScore) :=
    if bool_decide (roundWinner = Some A) then
      (GameState.teamAScore gameState + getRoundPoints (GameState.roundValue gameState),
       GameState.teamBScore gameState)
    else if bool_decide (roundWinner = Some B) then
      (GameState.teamAScore gameState,
       GameState.teamBScore gameState + getRoundPoints (GameState.roundValue gameState))
    else (GameState.teamAScore gameState, GameState.teamBScore gameState) in
  let winner :=
    if hasWinningScore teamAScore then Some A
    else if hasWinningScore teamBScore then Some B
    else None in
  let dealerIndex :=
    findIndex (fun p => String.eqb (Player.id p) (GameState.dealer gameState))
              (GameState.players gameState) in
  nextDealer ← at_index_mod (GameState.players gameState) (dealerIndex + 1);
  let nextDealerId := Player.id nextDealer in
  let updatedPlayers :=
    map (fun p => p |> Player.with_isDealer (String.eqb (Player.id p) nextDealerId)
                    |> Player.with_isYourTurn false
                    |> Player.with_hand [])
        (GameState.players gameState) in
  Some (gameState
    |> GameState.with_players updatedPlayers
    |> GameState.with_teamAScore teamAScore
    |> GameState.with_teamBScore teamBScore
    |> GameState.with_roundState (match winner with Some _ => GAME_OVER | None => ROUND_OVER end)
    |> GameState.with_winner winner
    |> GameState.with_roundWinner roundWinner
    |> GameState.with_currentTrick []
    |> GameState.with_tricks []
    |> GameState.with_roundValue 1
    |> GameState.with_dealer nextDealerId
    |> GameState.with_trucoRequested false
    |> GameState.with_trucoRequestedBy None).

Definition evaluateTrick (gameState : GameState) : option GameState :=
  let trickWinnerId :=
    determineTrickWinner (GameState.currentTrick gameState) (GameState.vira gameState) in
  if negb (truthy trickWinnerId) then Some gameState else
  match findPlayer (GameState.players gameState) trickWinnerId with
  | None => Some gameState
  | Some winnerPlayer =>
      let updatedTricks := GameState.tricks gameState ++ [GameState.currentTrick gameState] in
      let teamATricks := countTricks gameState A updatedTricks in
      let teamBTricks := countTricks gameState B updatedTricks in
      let isRoundOver :=
        (Z.of_nat (length updatedTricks) =? 3) || (teamATricks >=? 2) || (teamBTricks >=? 2) in
      if isRoundOver then finishRound gameState updatedTricks
      else
        let updatedPlayers :=
          map (fun p => p |> Player.with_isYourTurn
                              (String.eqb (Player.id p) (default ""%string trickWinnerId)))
              (GameState.players gameState) in
        Some (gameState
          |> GameState.with_players updatedPlayers
          |> GameState.with_currentPlayer (default ""%string trickWinnerId)
          |> GameState.with_currentTrick []
          |> GameState.with_tricks updatedTricks)
  end.

(** [processPlayedCard]; [now] is the value of [Date.now()]. *)
Definition processPlayedCard (now : Z) (gameState : GameState)
    (playerId cardId : string) : option GameState :=
  let playerIndex :=
    findIndex (fun p => String.eqb (Player.id p) playerId) (GameState.players gameState) in
  if playerIndex =? -1 then Some gameState else
  player ← at_index (GameState.players gameState) playerIndex;
  let cardIndex := findIndex (fun c => String.eqb (Card.id c) cardId) (Player.hand player) in
  if cardIndex =? -1 then Some gameState else
  card ← at_index (Player.hand player) cardIndex;
  let updatedHand := delete (Z.to_nat cardIndex) (Player.hand player) in
  let updatedPlayer :=
    player |> Player.with_hand updatedHand |> Player.with_isYourTurn false in
  let updatedPlayers :=
    <[Z.to_nat playerIndex := updatedPlayer]> (GameState.players gameState) in
  let playedCard := PlayedCard.mk playerId card now in
  let updatedTrick := GameState.currentTrick gameState ++ [playedCard] in
  let nextState :=
    gameState
      |> GameState.with_players updatedPlayers
      |> GameState.with_currentTrick updatedTrick in
  if bool_decide (length updatedTrick = length (GameState.players gameState))
  then evaluateTrick nextState
  else
    nextPlayer ← at_index_mod (GameState.players gameState) (playerIndex + 1);
    let nextPlayerId := Player.id nextPlayer in
    let playersWithNextTurn :=
      map (fun p => p |> Player.with_isYourTurn (String.eqb (Player.id p) nextPlayerId))
          (GameState.players nextState) in
    Some (nextState
      |> GameState.with_players playersWithNextTurn
      |> GameState.with_currentPlayer nextPlayerId).

Definition startNewRound (shuffled : list Card) (gameState : GameState) : GameState :=
  if negb (bool_decide (GameState.roundState gameState = ROUND_OVER)) then gameState
  else
    dealCardsToPlayers shuffled
      (gameState
        |> GameState.with_roundState PLAYING
        |> GameState.with_currentTrick []
        |> GameState.with_tricks []
        |> GameState.with_roundValue 1
        |> GameState.with_trucoRequested false
        |> GameState.with_trucoRequestedBy None
        |> GameState.with_roundWinner None).

Definition processTrucoRequest (gameState : GameState) (playerId : string) : GameState :=
  if GameState.trucoRequested gameState then gameState else
  match findPlayer (GameState.players gameState) (Some playerId) with
  | None => gameState
  | Some player =>
      gameState
        |> GameState.with_trucoRequested true
        |> GameState.with_trucoRequestedBy (Some playerId)
  end.

Definition acceptTrucoRequest (gameState : GameState) : GameState :=
  if negb (GameState.trucoRequested gameState)
     || negb (truthy (GameState.trucoRequestedBy gameState))
  then gameState else
  match findPlayer (GameState.players gameState) (GameState.trucoRequestedBy gameState) with
  | None => gameState
  | Some requestingPlayer =>
      let nextRoundValue :=
        if GameState.roundValue gameState =? 1 then 3
        else if GameState.roundValue gameState =? 3 then 6
        else if GameState.roundValue gameState =? 6 then 9
        else if GameState.roundValue gameState =? 9 then 12
        else 3 in
      gameState
        |> GameState.with_trucoRequested false
        |> GameState.with_trucoRequestedBy None
        |> GameState.with_roundValue nextRoundValue
  end.

(** [declineTrucoRequest]. [None] is the [TypeError] raised by
    [players[nextDealerIndex].id] when no seat is found at that index. *)
Definition declineTrucoRequest (gameState : GameState) : option GameState :=
  if negb (GameState.trucoRequested gameState)
     || negb (truthy (GameState.trucoRequestedBy gameState))
  then Some gameState else
  match findPlayer (GameState.players gameState) (GameState.trucoRequestedBy gameState) with
  | None => Some gameState
  | Some requestingPlayer =>
  let winningTeam := if bool_decide (Player.team requestingPlayer = A) then A else B in
  let '(teamAScore, teamBScore) :=
    if bool_decide (winningTeam = A) then
      (GameState.teamAScore gameState + getRoundPoints (GameState.roundValue gameState),
       GameState.teamBScore gameState)
    else
      (GameState.teamAScore gameState,
       GameState.teamBScore gameState + getRoundPoints (GameState.roundValue gameState)) in
  let winner :=
    if hasWinningScore teamAScore then Some A
    else if hasWinningScore teamBScore then Some B
    else None in
  let dealerIndex :=
    findIndex (fun p => String.eqb (Player.id p) (GameState.dealer gameState))
              (GameState.players gameState) in
  nextDealer ← at_index_mod (GameState.players gameState) (dealerIndex + 1);
  let nextDealerId := Player.id nextDealer in
  let updatedPlayers :=
    map (fun p => p |> Player.with_isDealer (String.eqb (Player.id p) nextDealerId)
                    |> Player.with_isYourTurn false
                    |> Player.with_hand [])
        (GameState.players gameState) in
  Some (gameState
    |> GameState.with_players updatedPlayers
    |> GameState.with_teamAScore teamAScore
    |> GameState.with_teamBScore teamBScore
    |> GameState.with_roundState (match winner with Some _ => GAME_OVER | None => ROUND_OVER end)
    |> GameState.with_winner winner
    |> GameState.with_roundWinner (Some winningTeam)
    |> GameState.with_currentTrick []
    |> GameState.with_tricks []
    |> GameState.with_roundValue 1
    |> GameState.with_dealer nextDealerId
    |> GameState.with_trucoRequested false
    |> GameState.with_trucoRequestedBy None)
  end.

(** ** [TrucoGame]

    The class of [server/trucoGame], in its version with disconnect and
    reconnect handling (the older version has the same methods up to
    [getPlayerCount], with the same bodies). The chat log plays no part in
    the match and is left out. [emitted] records the snapshots passed to
    [emit('game_update', ...)], oldest first: it is what the broadcast layer
    observes. [disconnectedPlayers] is a JavaScript [Map], iterated by
    [reconnectPlayer] in insertion order, hence an association list. *)

(** [Map.prototype.set]: an existing key keeps its position. *)
Fixpoint map_set (k v : string) (m : list (string * string)) : list (string * string) :=
  match m with
  | [] => [(k, v)]
  | (k', v') :: r => if String.eqb k' k then (k, v) :: r else (k', v') :: map_set k v r
  end.

(** [Map.prototype.delete]. *)
Definition map_delete (k : string) (m : list (string * string)) : list (string * string) :=
  List.filter (fun e => negb (String.eqb (fst e) k)) m.

Module TrucoGame.
Record t := mk {
    gameState : GameState;
    playerNames : gmap string string;
    disconnectedPlayers : list (string * string);
    emitted : list GameState
}.

Definition with_gameState v (x : t) : t :=
  mk v (playerNames x) (disconnectedPlayers x) (emitted x).
Definition with_playerNames v (x : t) : t :=
  mk (gameState x) v (disconnectedPlayers x) (emitted x).
Definition with_disconnectedPlayers v (x : t) : t :=
  mk (gameState x) (playerNames x) v (emitted x).

(** [new TrucoGame(id, mode)]. *)
Definition new (id : string) (mode : GameMode) : t :=
  mk (initializeGameState id mode []) ∅ [] [].

Definition emitGameUpdate (this : t) : t :=
  mk (gameState this) (playerNames this) (disconnectedPlayers this)
     (emitted this ++ [gameState this]).

Definition maxPlayers (this : t) : nat :=
  match GameState.mode (gameState this) with ONE_VS_ONE => 2 | TWO_VS_TWO => 4 end.

(** [addPlayer]: the returned object is the one [assignTeams] has written the
    team into, that is the last seat of the new table. *)
Definition addPlayer (playerId username : string) (this : t) : option Player * t :=
  let players := GameState.players (gameState this) in
  if bool_decide (maxPlayers this <= length players)%nat then (None, this) else
  if existsb (fun p => String.eqb (Player.id p) playerId) players
  then (findPlayer players (Some playerId), this) else
  let this := this |> with_playerNames (<[playerId := username]> (playerNames this)) in
  let newPlayer :=
    Player.mk playerId username [] (bool_decide (length players = 0%nat)) A false false None in
  let updatedPlayers := players ++ [newPlayer] in
  let playersWithTeams := assignTeams updatedPlayers (GameState.mode (gameState this)) in
  let this := this |> with_gameState
    (gameState this |> GameState.with_players playersWithTeams) in
  let this :=
    if bool_decide (length (GameState.players (gameState this)) = 1%nat)
    then this |> with_gameState (gameState this |> GameState.with_dealer playerId)
    else this in
  (last playersWithTeams, emitGameUpdate this).

Definition resetGame (this : t) : t :=
  let players := GameState.players (gameState this) in
  let updatedPlayers :=
    map (fun p => p |> Player.with_hand []
                    |> Player.with_isReady false
                    |> Player.with_isYourTurn false
                    |> Player.with_isDealer
                         (bool_decide (Some (Player.id p) = Player.id <$> players !! 0%nat)))
        players in
  emitGameUpdate (this |> with_gameState
    (gameState this
      |> GameState.with_players updatedPlayers
      |> GameState.with_roundState WAITING_FOR_PLAYERS
      |> GameState.with_currentTrick []
      |> GameState.with_tricks []
      |> GameState.with_vira None
      |> GameState.with_teamAScore 0
      |> GameState.with_teamBScore 0
      |> GameState.with_roundValue 1
      |> GameState.with_dealer (or_empty (Player.id <$> players !! 0%nat))
      |> GameState.with_currentPlayer ""
      |> GameState.with_winner None
      |> GameState.with_trucoRequested false
      |> GameState.with_trucoRequestedBy None
      |> GameState.with_roundWinner None)).

Definition removePlayer (playerId : string) (this : t) : t :=
  let players := GameState.players (gameState this) in
  let playerIndex := findIndex (fun p => String.eqb (Player.id p) playerId) players in
  if playerIndex =? -1 then this else
  if negb (bool_decide (GameState.roundState (gameState this) = WAITING_FOR_PLAYERS))
  then resetGame this else
  let updatedPlayers := List.filter (fun p => negb (String.eqb (Player.id p) playerId)) players in
  let dealer :=
    match updatedPlayers with
    | first :: _ =>
        if String.eqb (GameState.dealer (gameState this)) playerId
        then Player.id first else GameState.dealer (gameState this)
    | [] => GameState.dealer (gameState this)
    end in
  let playersWithTeams := assignTeams updatedPlayers (GameState.mode (gameState this)) in
  emitGameUpdate (this |> with_gameState
    (gameState this
      |> GameState.with_players playersWithTeams
      |> GameState.with_dealer dealer)).

(** [startGame]; [shuffled] is the deck [dealCardsToPlayers] draws from. *)
Definition startGame (shuffled : list Card) (this : t) : t :=
  if bool_decide (length (GameState.players (gameState this)) < maxPlayers this)%nat
  then this
  else emitGameUpdate (this |> with_gameState (dealCardsToPlayers shuffled (gameState this))).

Definition setPlayerReady (shuffled : list Card) (playerId : string) (this : t) : t :=
  let players := GameState.players (gameState this) in
  let playerIndex := findIndex (fun p => String.eqb (Player.id p) playerId) players in
  if playerIndex =? -1 then this else
  let updatedPlayers :=
    match at_index players playerIndex with
    | Some p => <[Z.to_nat playerIndex := p |> Player.with_isReady true]> players
    | None => players
    end in
  let this := emitGameUpdate (this |> with_gameState
    (gameState this |> GameState.with_players updatedPlayers)) in
  let allReady := forallb Player.isReady updatedPlayers in
  if allReady && bool_decide (length updatedPlayers = maxPlayers this)
  then startGame shuffled this else this.

(** [playCard]; [None] is an exception leaving the method. *)
Definition playCard (now : Z) (playerId cardId : string) (this : t) : option t :=
  if negb (String.eqb (GameState.currentPlayer (gameState this)) playerId)
  then Some this else
  gs ← processPlayedCard now (gameState this) playerId cardId;
  Some (emitGameUpdate (this |> with_gameState gs)).

Definition requestTruco (playerId : string) (this : t) : t :=
  emitGameUpdate (this |> with_gameState (processTrucoRequest (gameState this) playerId)).

Definition acceptTruco (this : t) : t :=
  emitGameUpdate (this |> with_gameState (acceptTrucoRequest (gameState this))).

Definition declineTruco (this : t) : option t :=
  gs ← declineTrucoRequest (gameState this);
  Some (emitGameUpdate (this |> with_gameState gs)).

Definition startNewRound (shuffled : list Card) (this : t) : t :=
  emitGameUpdate (this |> with_gameState (startNewRound shuffled (gameState this))).

Definition getPlayerCount (this : t) : nat :=
  length (GameState.players (gameState this)).

Definition markPlayerDisconnected (playerId : string) (this : t) : t :=
  let this :=
    match findPlayer (GameState.players (gameState this)) (Some playerId) with
    | Some player =>
        this |> with_disconnectedPlayers
          (map_set playerId (Player.username player) (disconnectedPlayers this))
    | None => this
    end in
  if bool_decide (GameState.roundState (gameState this) = PLAYING) then
    let updatedPlayers :=
      map (fun p => if String.eqb (Player.id p) playerId
                    then p |> Player.with_isDisconnected (Some true) else p)
          (GameState.players (gameState this)) in
    emitGameUpdate (this |> with_gameState
      (gameState this |> GameState.with_players updatedPlayers))
  else removePlayer playerId this.

(** The lookup loop of [reconnectPlayer]: the key of the first entry, in
    insertion order, whose value is [username]. *)
Definition findDisconnected (username : string) (m : list (string * string))
  : option string :=
  fst <$> List.find (fun e => String.eqb (snd e) username) m.

Definition reconnectPlayer (socketId username : string) (this : t) : bool * t :=
  let foundPlayerId := findDisconnected username (disconnectedPlayers this) in
  if negb (truthy foundPlayerId) then (false, this) else
  let found := default ""%string foundPlayerId in
  let gs := gameState this in
  let updatedPlayers :=
    map (fun p => if String.eqb (Player.username p) username
                  then p |> Player.with_id socketId
                         |> Player.with_isDisconnected (Some false)
                  else p)
        (GameState.players gs) in
  let currentPlayer :=
    if String.eqb (GameState.currentPlayer gs) found then socketId
    else GameState.currentPlayer gs in
  let dealer :=
    if String.eqb (GameState.dealer gs) found then socketId else GameState.dealer gs in
  let trucoRequestedBy :=
    if bool_decide (GameState.trucoRequestedBy gs = Some found) then Some socketId
    else GameState.trucoRequestedBy gs in
  let this := this |> with_gameState
    (gs |> GameState.with_players updatedPlayers
        |> GameState.with_currentPlayer currentPlayer
        |> GameState.with_dealer dealer
        |> GameState.with_trucoRequestedBy trucoRequestedBy) in
  let this := this |> with_disconnectedPlayers (map_delete found (disconnectedPlayers this)) in
  let this := this |> with_playerNames
    (<[socketId := username]> (delete found (playerNames this))) in
  (true, emitGameUpdate this).

Definition getConnectedPlayerCount (this : t) : nat :=
  length (List.filter (fun p => negb (default false (Player.isDisconnected p)))
                      (GameState.players (gameState this))).
End TrucoGame.
Abbreviation TrucoGame := TrucoGame.t.

(** * Vocabulary of the statements and example tables *)

(** A single number that orders cards the way [compareCards] does: the
    trumps sit above every face strength, ordered by suit. It is a device of
    the proofs only. *)
Definition cardKey (c : Card) (vira : option Card) : Z :=
  if isManilha c vira then 10 + MANILHA_SUIT_STRENGTH (Card.suit c)
  else CARD_STRENGTHS (Card.value c).

(** Concrete cards, taken from the deck whose [k]-th identifier is the
    character of code [48 + k]. *)
Definition uuid0 (k : nat) : string :=
  String (Ascii.ascii_of_nat (48 + k)) EmptyString.
Definition deck0 : list Card := createDeck uuid0.
Definition three_hearts : Card := Card.mk HEARTS THREE (uuid0 2) None None.
Definition five_hearts : Card := Card.mk HEARTS FIVE (uuid0 4) None None.
Definition three_spades : Card := Card.mk SPADES THREE (uuid0 12) None None.
Definition four_clubs : Card := Card.mk CLUBS FOUR (uuid0 33) None None.

(** A one-against-one match driven through the methods of [TrucoGame]: two
    seats join, the game starts on the deck [deck0] taken as the shuffled
    deck (king of clubs turned, so aces are trumps). *)
Definition lobby0 : TrucoGame := TrucoGame.new "g" ONE_VS_ONE.
Definition lobby1 : TrucoGame := snd (TrucoGame.addPlayer "s1" "ana" lobby0).
Definition lobby2 : TrucoGame := snd (TrucoGame.addPlayer "s2" "bob" lobby1).
Definition playing0 : TrucoGame := TrucoGame.startGame deck0 lobby2.

(** One full escalation: seat s1 asks, the request is accepted. *)
Definition raiseStake (g : TrucoGame) : TrucoGame :=
  TrucoGame.acceptTruco (TrucoGame.requestTruco "s1" g).

Definition validStake (v : Z) : Prop := v = 1 \/ v = 3 \/ v = 6 \/ v = 9 \/ v = 12.

(** The transitions of [gameUtils], as one step relation. *)
Inductive engine_step : GameState -> GameState -> Prop :=
  | step_deal shuffled gs :
      engine_step gs (dealCardsToPlayers shuffled gs)
  | step_play now pid cid gs gs' :
      processPlayedCard now gs pid cid = Some gs' -> engine_step gs gs'
  | step_new_round shuffled gs :
      engine_step gs (startNewRound shuffled gs)
  | step_request pid gs :
      engine_step gs (processTrucoRequest gs pid)
  | step_accept gs :
      engine_step gs (acceptTrucoRequest gs)
  | step_decline gs gs' :
      declineTrucoRequest gs = Some gs' -> engine_step gs gs'.

Definition teamScore (tm : Team) (gs : GameState) : Z :=
  match tm with
  | A => GameState.teamAScore gs
  | B => GameState.teamBScore gs
  end.

Definition otherTeam (tm : Team) : Team :=
  match tm with A => B | B => A end.

(** A seat as [finishRound] and [declineTrucoRequest] leave it: hand
    emptied, turn flag cleared, dealer flag set on the next dealer only. *)
Definition clearedSeat (nextDealerId : string) (p : Player) : Player :=
  Player.mk (Player.id p) (Player.username p) []
            (String.eqb (Player.id p) nextDealerId) (Player.team p)
            (Player.isReady p) false (Player.isDisconnected p).

(** [playCard] on the example table, where it raises no exception. *)
Definition play (now : Z) (playerId cardId : string) (g : TrucoGame) : TrucoGame :=
  default g (TrucoGame.playCard now playerId cardId g).

(** Seat s2 leads the four of hearts, seat s1 takes the trick with the ace
    of hearts (a trump) and leads the two of hearts. *)
Definition afterTrick1 : TrucoGame := play 2 "s1" "0" (play 1 "s2" "3" playing0).
Definition afterThree : TrucoGame := play 3 "s1" "1" afterTrick1.

(** The table between two rounds: seat s1 asked for truco on [playing0] and
    the request was declined, so team A leads 1 to 0. *)
Definition betweenRounds : TrucoGame :=
  default playing0 (TrucoGame.declineTruco (TrucoGame.requestTruco "s1" playing0)).

(** The table [playing0] with the round state [DEALING]. *)
Definition dealing0 : TrucoGame :=
  playing0 |> TrucoGame.with_gameState
    (TrucoGame.gameState playing0 |> GameState.with_roundState DEALING).

(** A match in which a first "bob" dropped out of the lobby (the seat is
    vacated there, the entry stays in the registry of disconnected players),
    a second "bob" took the seat, the game started, and this second bob,
    who holds the turn, lost the connection too. *)
Definition staleLobby : TrucoGame :=
  TrucoGame.markPlayerDisconnected "x" (snd (TrucoGame.addPlayer "x" "bob" lobby1)).
Definition stalePlaying : TrucoGame :=
  TrucoGame.startGame deck0 (snd (TrucoGame.addPlayer "s2" "bob" staleLobby)).
Definition staleDropped : TrucoGame :=
  TrucoGame.markPlayerDisconnected "s2" stalePlaying.

(** ** [cardUtils]: the shuffle *)

(** The destructuring swap [[a[i], a[j]] = [a[j], a[i]]]: both elements are
    read, then [a[i]] and [a[j]] are written. The loop of [shuffleDeck] only
    uses it with [j <= i < a.length], where both reads succeed. *)
Definition swap {X} (a : list X) (i j : nat) : list X :=
  match a !! i, a !! j with
  | Some x, Some y => <[j := x]> (<[i := y]> a)
  | _, _ => a
  end.

(** The loop of [shuffleDeck], from index [i] down to 1; [draws i] is the
    value of [Math.floor(Math.random() * (i + 1))] at index [i]. *)
Fixpoint shuffleLoop (draws : nat -> nat) (i : nat) (shuffled : list Card) : list Card :=
  match i with
  | O => shuffled
  | S i' => shuffleLoop draws i' (swap shuffled i (draws i))
  end.

Definition shuffleDeck (draws : nat -> nat) (deck : list Card) : list Card :=
  shuffleLoop draws (length deck - 1) deck.

(** What a seat is, apart from the fields a round rewrites (hand, dealer
    flag, turn flag). *)
Definition seatIdentity (p : Player) : string * string * Team * bool * option bool :=
  (Player.id p, Player.username p, Player.team p, Player.isReady p,
   Player.isDisconnected p).

(** All the cards held in the hands of a table. *)
Definition handCards (players : list Player) : list Card :=
  concat (map Player.hand players).

(** The draws that leave every card where it is. *)
Definition drawsSame (i : nat) : nat := i.

(** Every card of a round: in the hands, in the current trick or in the
    trick history. *)
Definition cardsInPlay (gs : GameState) : list Card :=
  handCards (GameState.players gs)
  ++ map PlayedCard.card (GameState.currentTrick gs)
  ++ concat (map (map PlayedCard.card) (GameState.tricks gs)).

(** [pid] is the identity of a seat of the table. *)
Definition seated (players : list Player) (pid : string) : Prop :=
  pid ∈ map Player.id players.

(** Only seats named by the current-turn pointer carry the turn flag. *)
Definition flagsAgree (gs : GameState) : Prop :=
  forall p, p ∈ GameState.players gs -> Player.isYourTurn p = true ->
            Player.id p = GameState.currentPlayer gs.

(** On a table that is not empty the dealer pointer names a seat. *)
Definition dealerSeated (gs : GameState) : Prop :=
  GameState.players gs <> [] -> seated (GameState.players gs) (GameState.dealer gs).

(** A pending escalation names its requester, and the requester is seated. *)
Definition pendingSeated (gs : GameState) : Prop :=
  GameState.trucoRequested gs = true ->
  exists r, GameState.trucoRequestedBy gs = Some r /\ seated (GameState.players gs) r.

(** What the end of a round, by [finishRound] or by a declined escalation,
    makes of a state. *)
Definition roundClosed (gs gs' : GameState) : Prop :=
  exists next : Player,
    next ∈ GameState.players gs /\
    GameState.players gs' = map (clearedSeat (Player.id next)) (GameState.players gs) /\
    GameState.dealer gs' = Player.id next /\
    GameState.currentTrick gs' = [] /\
    GameState.tricks gs' = [] /\
    GameState.roundValue gs' = 1 /\
    GameState.trucoRequested gs' = false /\
    GameState.trucoRequestedBy gs' = None /\
    GameState.currentPlayer gs' = GameState.currentPlayer gs /\
    GameState.vira gs' = GameState.vira gs /\
    GameState.id gs' = GameState.id gs /\
    GameState.mode gs' = GameState.mode gs /\
    (GameState.teamAScore gs' = GameState.teamAScore gs /\
     GameState.teamBScore gs' = GameState.teamBScore gs
     \/ GameState.teamAScore gs' =
          GameState.teamAScore gs + getRoundPoints (GameState.roundValue gs) /\
        GameState.teamBScore gs' = GameState.teamBScore gs /\
        GameState.roundWinner gs' = Some A
     \/ GameState.teamAScore gs' = GameState.teamAScore gs /\
        GameState.teamBScore gs' =
          GameState.teamBScore gs + getRoundPoints (GameState.roundValue gs) /\
        GameState.roundWinner gs' = Some B) /\
    GameState.winner gs' =
      (if hasWinningScore (GameState.teamAScore gs') then Some A
       else if hasWinningScore (GameState.teamBScore gs') then Some B else None) /\
    GameState.roundState gs' =
      (match GameState.winner gs' with Some _ => GAME_OVER | None => ROUND_OVER end).

(** ** The methods of [TrucoGame] as step relations *)

(** Every method that changes a match, except [reconnectPlayer]. *)
Inductive table_step : TrucoGame -> TrucoGame -> Prop :=
  | t_addPlayer playerId username g :
      table_step g (snd (TrucoGame.addPlayer playerId username g))
  | t_removePlayer playerId g :
      table_step g (TrucoGame.removePlayer playerId g)
  | t_setPlayerReady shuffled playerId g :
      table_step g (TrucoGame.setPlayerReady shuffled playerId g)
  | t_startGame shuffled g :
      table_step g (TrucoGame.startGame shuffled g)
  | t_playCard now playerId cardId g g' :
      TrucoGame.playCard now playerId cardId g = Some g' -> table_step g g'
  | t_requestTruco playerId g :
      table_step g (TrucoGame.requestTruco playerId g)
  | t_acceptTruco g :
      table_step g (TrucoGame.acceptTruco g)
  | t_declineTruco g g' :
      TrucoGame.declineTruco g = Some g' -> table_step g g'
  | t_startNewRound shuffled g :
      table_step g (TrucoGame.startNewRound shuffled g)
  | t_resetGame g :
      table_step g (TrucoGame.resetGame g)
  | t_markPlayerDisconnected playerId g :
      table_step g (TrucoGame.markPlayerDisconnected playerId g).

(** Every method that changes a match. *)
Inductive game_step : TrucoGame -> TrucoGame -> Prop :=
  | g_table g g' : table_step g g' -> game_step g g'
  | g_reconnectPlayer socketId username g :
      game_step g (snd (TrucoGame.reconnectPlayer socketId username g)).

(** The number of seats of a mode. *)
Definition capacityOf (mode : GameMode) : nat :=
  match mode with ONE_VS_ONE => 2 | TWO_VS_TWO => 4 end.

(** Teams alternate around the table, team A on the first seat. *)
Definition teamsAlternate (players : list Player) : Prop :=
  forall (i : nat) (p : Player),
    players !! i = Some p -> Player.team p = if Nat.even i then A else B.

Definition tableShape (gs : GameState) : Prop :=
  (length (GameState.players gs) <= capacityOf (GameState.mode gs))%nat /\
  teamsAlternate (GameState.players gs) /\
  validStake (GameState.roundValue gs).

Definition tableSound (gs : GameState) : Prop :=
  NoDup (map Player.id (GameState.players gs)) /\
  dealerSeated gs /\
  flagsAgree gs.

(** A seat as [resetGame] leaves it; [firstId] is the identity of the first
    seat of the table. *)
Definition resetSeat (firstId : option string) (p : Player) : Player :=
  p |> Player.with_hand []
    |> Player.with_isReady false
    |> Player.with_isYourTurn false
    |> Player.with_isDealer (bool_decide (Some (Player.id p) = firstId)).

(** A seat as a reconnect under the identity [socketId] leaves it. *)
Definition reboundSeat (socketId : string) (p : Player) : Player :=
  p |> Player.with_id socketId |> Player.with_isDisconnected (Some false).

(** A seat counts as connected unless its flag is [true]. *)
Definition isConnected (p : Player) : bool :=
  negb (default false (Player.isDisconnected p)).

(** ** [server/gameManager] *)

(** A JavaScript [Map] as the list of its entries in insertion order:
    [get], [has], [set] (an existing key keeps its position) and [delete]. *)
Section jsmap.
Context {K V : Type} `{EqDecision K}.

Definition jsmap_get (k : K) (m : list (K * V)) : option V :=
  snd <$> List.find (fun e => bool_decide (fst e = k)) m.

Definition jsmap_has (k : K) (m : list (K * V)) : bool :=
  existsb (fun e => bool_decide (fst e = k)) m.

Fixpoint jsmap_set (k : K) (v : V) (m : list (K * V)) : list (K * V) :=
  match m with
  | [] => [(k, v)]
  | (k', v') :: r =>
      if bool_decide (k' = k) then (k, v) :: r else (k', v') :: jsmap_set k v r
  end.

Definition jsmap_delete (k : K) (m : list (K * V)) : list (K * V) :=
  List.filter (fun e => negb (bool_decide (fst e = k))) m.
End jsmap.

(** The string behind each member of the enum [RoundState]. *)
Definition RoundState_value (r : RoundState) : string :=
  match r with
  | WAITING_FOR_PLAYERS => "waiting_for_players"
  | DEALING => "dealing"
  | PLAYING => "playing"
  | ROUND_OVER => "round_over"
  | GAME_OVER => "game_over"
  end.

Inductive RoomStatus := waiting | playing | finished.

Module GameRoom.
Record t := mk {
    id : string;
    name : string;
    mode : GameMode;
    players : list string;
    maxPlayers : Z;
    status : RoomStatus;
    createdAt : Z
}.
End GameRoom.
Abbreviation GameRoom := GameRoom.t.

(** The manager owns the tables by identifier. A table taken out of it with
    [getGame] is the stored object itself, so a method called on it changes
    the entry under its key; [updateGame] writes that down. The listener
    [createGame] installs only forwards the snapshots a table emits (kept
    in [TrucoGame.emitted]) under the table's key. [clock i] is the reading
    of [Date.now()] at the [i]-th room of a listing. Identifiers are ASCII
    (uuids), for which [substring] counts characters as JavaScript does. *)
Module GameManager.
Record t := mk {
    games : list (string * TrucoGame);
    roomNames : list (string * string)
}.

Definition new : t := mk [] [].

Definition createGame (id : string) (mode : GameMode) (name : string) (this : t)
  : TrucoGame * t :=
  let game := TrucoGame.new id mode in
  (game, mk (jsmap_set id game (games this)) (roomNames this)).

Definition getGame (id : string) (this : t) : option TrucoGame :=
  jsmap_get id (games this).

Definition removeGame (id : string) (this : t) : bool * t :=
  (jsmap_has id (games this), mk (jsmap_delete id (games this)) (roomNames this)).

Definition getAllGames (this : t) : list TrucoGame :=
  map snd (games this).

Definition getGamesByPlayerId (playerId : string) (this : t) : list TrucoGame :=
  List.filter
    (fun game => existsb (fun player => String.eqb (Player.id player) playerId)
                         (GameState.players (TrucoGame.gameState game)))
    (getAllGames this).

Definition setRoomName (id name : string) (this : t) : t :=
  mk (games this) (jsmap_set id name (roomNames this)).

Definition getRoomName (id : string) (this : t) : option string :=
  jsmap_get id (roomNames this).

Definition getPublicRooms (clock : nat -> Z) (this : t) : list GameRoom :=
  imap (fun i game =>
          let gs := TrucoGame.gameState game in
          let id := GameState.id gs in
          let mode := GameState.mode gs in
          GameRoom.mk id
            (if truthy (getRoomName id this) then default ""%string (getRoomName id this)
             else ("Game " ++ String.substring 0 5 id)%string)
            mode
            (map Player.id (GameState.players gs))
            (match mode with ONE_VS_ONE => 2 | TWO_VS_TWO => 4 end)
            (if String.eqb (RoundState_value (GameState.roundState gs))
                           "WAITING_FOR_PLAYERS"
             then waiting else playing)
            (clock i))
       (getAllGames this).

Definition updateGame (id : string) (game : TrucoGame) (this : t) : t :=
  mk (jsmap_set id game (games this)) (roomNames this).
End GameManager.
Abbreviation GameManager := GameManager.t.

(** What the socket handlers do to the manager: create a table, remove one,
    or call a method on a table they looked up. They never call
    [setRoomName]. *)
Inductive manager_step : GameManager -> GameManager -> Prop :=
  | m_createGame id mode name m :
      manager_step m (snd (GameManager.createGame id mode name m))
  | m_removeGame id m :
      manager_step m (snd (GameManager.removeGame id m))
  | m_method id game game' m :
      GameManager.getGame id m = Some game -> game_step game game' ->
      manager_step m (GameManager.updateGame id game' m).

(** The tables are stored under their own identifiers, each once, fit
    their mode, and no room has been given a name. *)
Definition managerSound (m : GameManager) : Prop :=
  GameManager.roomNames m = [] /\
  NoDup (map fst (GameManager.games m)) /\
  forall e, e ∈ GameManager.games m ->
    GameState.id (TrucoGame.gameState (snd e)) = fst e /\
    tableShape (TrucoGame.gameState (snd e)).

(** A manager with two tables, the second one in play. *)
Definition manager0 : GameManager :=
  GameManager.updateGame "g" playing0
    (snd (GameManager.createGame "g" ONE_VS_ONE "sala"
       (snd (GameManager.createGame "h" TWO_VS_TWO "mesa" GameManager.new)))).

(** The tricks of a state are in order: the cards on the table come from
    seated players and are fewer than the seats, and the history holds at
    most two tricks, each with as many cards as there are seats. *)
Definition tricksInOrder (gs : GameState) : Prop :=
  (forall e, e ∈ GameState.currentTrick gs ->
             seated (GameState.players gs) (PlayedCard.playerId e)) /\
  (GameState.currentTrick gs = [] \/
   (length (GameState.currentTrick gs) < length (GameState.players gs))%nat) /\
  (length (GameState.tricks gs) <= 2)%nat /\
  (forall t, t ∈ GameState.tricks gs -> length t = length (GameState.players gs)).

(** No seat has the empty string as its identity. *)
Definition namedSeats (gs : GameState) : Prop :=
  forall p, p ∈ GameState.players gs -> Player.id p <> ""%string.

(** An entry of a trick that no entry of the trick beats. *)
Definition strongestEntry (vira : option Card) (l : list PlayedCard) (e : PlayedCard)
  : Prop :=
  e ∈ l /\
  forall e', e' ∈ l -> compareCards (PlayedCard.card e') (PlayedCard.card e) vira <= 0.

(** The seat that a lookup by identity finds: the first one carrying it. *)
Definition firstSeat (players : list Player) (pid : string) (seat : Player) : Prop :=
  exists i : nat,
    players !! i = Some seat /\ Player.id seat = pid /\
    forall (j : nat) (q : Player), (j < i)%nat -> players !! j = Some q -> Player.id q <> pid.

(** The tally of trick wins in the words of the specification, without the
    filters of [finishRound]: a trick is a win for a team when the seat of
    its winner sits in that team, and the tricks of a list are gone through
    one by one. *)
Definition trickWonBy (gs : GameState) (tm : Team) (trick : list PlayedCard) : Prop :=
  exists (w : string) (seat : Player),
    determineTrickWinner trick (GameState.vira gs) = Some w /\
    firstSeat (GameState.players gs) w seat /\
    Player.team seat = tm.

Inductive trickWins (gs : GameState) (tm : Team) : list (list PlayedCard) -> nat -> Prop :=
  | wins_none : trickWins gs tm [] 0
  | wins_won trick rest n :
      trickWonBy gs tm trick -> trickWins gs tm rest n ->
      trickWins gs tm (trick :: rest) (S n)
  | wins_lost trick rest n :
      ~ trickWonBy gs tm trick -> trickWins gs tm rest n ->
      trickWins gs tm (trick :: rest) n.





(** * Properties *)

(** ** Rank model *)

Lemma CARD_STRENGTHS_range v : 1 <= CARD_STRENGTHS v <= 10.
Proof. destruct v; simpl; lia. Qed.

Lemma MANILHA_SUIT_STRENGTH_range s : 1 <= MANILHA_SUIT_STRENGTH s <= 4.
Proof. destruct s; simpl; lia. Qed.

Lemma CARD_STRENGTHS_inj v1 v2 : CARD_STRENGTHS v1 = CARD_STRENGTHS v2 -> v1 = v2.
Proof. destruct v1, v2; simpl; intros; first [reflexivity | lia]. Qed.

Lemma MANILHA_SUIT_STRENGTH_inj s1 s2 :
  MANILHA_SUIT_STRENGTH s1 = MANILHA_SUIT_STRENGTH s2 -> s1 = s2.
Proof. destruct s1, s2; simpl; intros; first [reflexivity | lia]. Qed.

Lemma compareCards_cardKey c1 c2 vira :
  (compareCards c1 c2 vira > 0 <-> cardKey c1 vira > cardKey c2 vira) /\
  (compareCards c1 c2 vira = 0 <-> cardKey c1 vira = cardKey c2 vira) /\
  (compareCards c1 c2 vira < 0 <-> cardKey c1 vira < cardKey c2 vira).
Proof.
  unfold compareCards, cardKey.
  pose proof (CARD_STRENGTHS_range (Card.value c1)).
  pose proof (CARD_STRENGTHS_range (Card.value c2)).
  pose proof (MANILHA_SUIT_STRENGTH_range (Card.suit c1)).
  pose proof (MANILHA_SUIT_STRENGTH_range (Card.suit c2)).
  destruct (isManilha c1 vira), (isManilha c2 vira); simpl; lia.
Qed.

Lemma compareCards_antisym c1 c2 vira :
  compareCards c2 c1 vira = - compareCards c1 c2 vira.
Proof.
  unfold compareCards.
  destruct (isManilha c1 vira), (isManilha c2 vira); simpl; lia.
Qed.

Lemma isManilha_same_value c1 c2 vira :
  isManilha c1 vira = true -> isManilha c2 vira = true -> Card.value c1 = Card.value c2.
Proof.
  unfold isManilha. destruct vira as [v|]; [|discriminate].
  intros H1%bool_decide_eq_true H2%bool_decide_eq_true. congruence.
Qed.

Lemma isManilha_value_eq c1 c2 vira :
  Card.value c1 = Card.value c2 -> isManilha c1 vira = isManilha c2 vira.
Proof. unfold isManilha. intros ->. reflexivity. Qed.

(** The deck holds one card per (suit, face) pair. *)
Lemma createDeck_elem uuid c :
  c ∈ createDeck uuid <->
  exists k s v, list_prod suits values !! k = Some (s, v) /\
                c = Card.mk s v (uuid k) None None.
Proof.
  unfold createDeck. rewrite elem_of_lookup_imap. split.
  - intros (k & [s v] & -> & Hk). exists k, s, v. auto.
  - intros (k & s & v & Hk & ->). exists k, (s, v). auto.
Qed.

Lemma suit_value_NoDup : NoDup (list_prod suits values).
Proof. apply (bool_decide_unpack _). vm_compute. exact I. Qed.

Lemma createDeck_length uuid : length (createDeck uuid) = 40%nat.
Proof. unfold createDeck. rewrite length_imap. reflexivity. Qed.

Lemma createDeck_distinct uuid c1 c2 :
  c1 ∈ createDeck uuid -> c2 ∈ createDeck uuid -> c1 <> c2 ->
  Card.suit c1 <> Card.suit c2 \/ Card.value c1 <> Card.value c2.
Proof.
  rewrite !createDeck_elem.
  intros (k1 & s1 & v1 & Hk1 & ->) (k2 & s2 & v2 & Hk2 & ->) Hne; simpl.
  destruct (decide (s1 = s2)) as [->|]; [|by left].
  destruct (decide (v1 = v2)) as [->|]; [|by right].
  exfalso. apply Hne.
  by rewrite (NoDup_lookup _ _ _ _ suit_value_NoDup Hk1 Hk2).
Qed.

(** For every turned card, exactly the four cards of one face are trumps. *)
Lemma four_manilhas uuid vira :
  length (List.filter (fun c => isManilha c (Some vira)) (createDeck uuid)) = 4%nat.
Proof.
  unfold createDeck, isManilha, getManilhaValue.
  destruct (Card.value vira); reflexivity.
Qed.

Lemma deck0_cards :
  three_hearts ∈ deck0 /\ five_hearts ∈ deck0 /\ three_spades ∈ deck0 /\ four_clubs ∈ deck0.
Proof.
  repeat split; apply list_elem_of_lookup;
    [exists 2%nat | exists 4%nat | exists 12%nat | exists 33%nat]; reflexivity.
Qed.

(** C1, as stated, fails: with the four of clubs turned, the three of hearts
    and the three of spades are distinct cards of the deck, neither is a
    trump, and [compareCards] declares neither of them stronger. *)
Lemma compareCards_tie_counterexample :
  three_hearts ∈ deck0 /\ three_spades ∈ deck0 /\ three_hearts <> three_spades /\
  ~ (compareCards three_hearts three_spades (Some four_clubs) > 0) /\
  ~ (compareCards three_spades three_hearts (Some four_clubs) > 0).
Proof.
  destruct deck0_cards as (? & ? & ? & ?).
  split; [assumption | split; [assumption | split; [discriminate |]]].
  split; vm_compute; discriminate.
Qed.

(** C1, amended. For every turned card and every two distinct cards of the
    40-card deck, [compareCards] is antisymmetric and either declares exactly
    one of the two stronger, or declares a tie, and a tie occurs exactly
    between two non-trump cards of the same face: a trump beats any
    non-trump, two trumps compare by the fixed suit order and never tie, two
    non-trumps compare by face strength alone, and "stronger" is transitive. *)
Theorem compareCards_strict_up_to_face_ties uuid (vira c1 c2 : Card) :
  c1 ∈ createDeck uuid -> c2 ∈ createDeck uuid -> c1 <> c2 ->
  let v := Some vira in
  (compareCards c1 c2 v > 0 /\ compareCards c2 c1 v < 0
   \/ compareCards c1 c2 v < 0 /\ compareCards c2 c1 v > 0
   \/ compareCards c1 c2 v = 0 /\ compareCards c2 c1 v = 0) /\
  (compareCards c1 c2 v = 0 <->
     Card.value c1 = Card.value c2 /\ isManilha c1 v = false /\ isManilha c2 v = false) /\
  (isManilha c1 v = true -> isManilha c2 v = false -> compareCards c1 c2 v > 0) /\
  (isManilha c1 v = true -> isManilha c2 v = true ->
     compareCards c1 c2 v =
       MANILHA_SUIT_STRENGTH (Card.suit c1) - MANILHA_SUIT_STRENGTH (Card.suit c2)
     /\ compareCards c1 c2 v <> 0) /\
  (isManilha c1 v = false -> isManilha c2 v = false ->
     compareCards c1 c2 v =
       CARD_STRENGTHS (Card.value c1) - CARD_STRENGTHS (Card.value c2)) /\
  (forall c3, compareCards c1 c2 v > 0 -> compareCards c2 c3 v > 0 ->
              compareCards c1 c3 v > 0).
Proof.
  intros Hc1 Hc2 Hne v.
  pose proof (createDeck_distinct _ _ _ Hc1 Hc2 Hne) as Hdiff.
  pose proof (compareCards_antisym c1 c2 v) as Hanti.
  assert (Hsuit : Card.value c1 = Card.value c2 ->
                  MANILHA_SUIT_STRENGTH (Card.suit c1) <> MANILHA_SUIT_STRENGTH (Card.suit c2)).
  { intros Hv Hs%MANILHA_SUIT_STRENGTH_inj. destruct Hdiff; congruence. }
  assert (Hface : CARD_STRENGTHS (Card.value c1) = CARD_STRENGTHS (Card.value c2) <->
                  Card.value c1 = Card.value c2).
  { split; [apply CARD_STRENGTHS_inj | congruence]. }
  assert (Hzero : compareCards c1 c2 v = 0 <->
     Card.value c1 = Card.value c2 /\ isManilha c1 v = false /\ isManilha c2 v = false).
  { unfold compareCards.
    destruct (isManilha c1 v) eqn:E1, (isManilha c2 v) eqn:E2; simpl.
    - pose proof (isManilha_same_value _ _ _ E1 E2) as Hv%Hsuit.
      split; [lia | intros (_ & ? & _); discriminate].
    - split; [lia | intros (_ & ? & _); discriminate].
    - split; [lia | intros (_ & _ & ?); discriminate].
    - rewrite <- Hface. split; [intros; repeat split; lia | intros (? & _); lia]. }
  split; [lia | split; [exact Hzero | split; [| split; [| split]]]].
  - intros E1 E2. unfold compareCards. rewrite E1, E2. simpl. lia.
  - intros E1 E2. unfold compareCards. rewrite E1, E2. simpl.
    pose proof (isManilha_same_value _ _ _ E1 E2) as Hv%Hsuit. lia.
  - intros E1 E2. unfold compareCards. rewrite E1, E2. reflexivity.
  - intros c3 H12 H23.
    apply compareCards_cardKey in H12. apply compareCards_cardKey in H23.
    apply compareCards_cardKey. lia.
Qed.

Lemma compareCards_strict_up_to_face_ties_witness :
  five_hearts ∈ createDeck uuid0 /\ three_spades ∈ createDeck uuid0 /\
  five_hearts <> three_spades /\
  compareCards five_hearts three_spades (Some four_clubs) > 0.
Proof.
  destruct deck0_cards as (_ & H5 & H3 & _).
  assert (Hne : five_hearts <> three_spades) by discriminate.
  split; [exact H5 | split; [exact H3 | split; [exact Hne |]]].
  destruct (compareCards_strict_up_to_face_ties uuid0 four_clubs _ _ H5 H3 Hne)
    as (_ & _ & Hbeats & _).
  exact (Hbeats eq_refl eq_refl).
Defined.

(** ** Trick winner *)

(** The loop of [determineTrickWinner] ends on an entry that is maximal for
    [compareCards] among all those it has seen. *)
Lemma trickStep_fold_max vira (rest : list PlayedCard) :
  forall (seen : list PlayedCard) (e : PlayedCard),
    e ∈ seen ->
    (forall e', e' ∈ seen ->
       cardKey (PlayedCard.card e') vira <= cardKey (PlayedCard.card e) vira) ->
    exists w, w ∈ seen ++ rest /\
      fold_left (trickStep vira) rest (PlayedCard.playerId e, PlayedCard.card e)
        = (PlayedCard.playerId w, PlayedCard.card w) /\
      forall e', e' ∈ seen ++ rest ->
        cardKey (PlayedCard.card e') vira <= cardKey (PlayedCard.card w) vira.
Proof.
  induction rest as [|a rest IH]; intros seen e Hin Hmax.
  - exists e. rewrite app_nil_r. auto.
  - simpl. unfold trickStep at 2. simpl.
    replace (seen ++ a :: rest) with ((seen ++ [a]) ++ rest)
      by (by rewrite <- app_assoc).
    destruct (compareCards (PlayedCard.card a) (PlayedCard.card e) vira >? 0) eqn:Hcmp.
    + apply Z.gtb_gt, compareCards_cardKey in Hcmp.
      apply IH.
      * apply elem_of_app. right. apply list_elem_of_singleton. reflexivity.
      * intros e' [He'| ->%list_elem_of_singleton]%elem_of_app; [|lia].
        specialize (Hmax _ He'). lia.
    + assert (~ compareCards (PlayedCard.card a) (PlayedCard.card e) vira > 0) as Hle.
      { intros Hgt. apply Z.gtb_gt in Hgt. congruence. }
      rewrite (proj1 (compareCards_cardKey _ _ _)) in Hle.
      apply IH.
      * apply elem_of_app. by left.
      * intros e' [He'| ->%list_elem_of_singleton]%elem_of_app; [auto | lia].
Qed.

Lemma determineTrickWinner_max vira (l : list PlayedCard) :
  l <> [] ->
  exists w, w ∈ l /\ determineTrickWinner l vira = Some (PlayedCard.playerId w) /\
    forall e', e' ∈ l ->
      cardKey (PlayedCard.card e') vira <= cardKey (PlayedCard.card w) vira.
Proof.
  destruct l as [|first rest]; [congruence | intros _].
  destruct (trickStep_fold_max vira rest [first] first) as (w & Hw & Hfold & Hmax).
  - apply list_elem_of_singleton. reflexivity.
  - intros e' ->%list_elem_of_singleton. lia.
  - exists w. simpl in *. rewrite Hfold. auto.
Qed.

(** C3, as stated, fails: a trick of the three of hearts (seat p1) and the
    three of spades (seat p2), four of clubs turned, is won by whoever played
    first, so the two orders of the same two entries give different winners. *)
Lemma determineTrickWinner_order_counterexample :
  let e1 := PlayedCard.mk "p1" three_hearts 1 in
  let e2 := PlayedCard.mk "p2" three_spades 2 in
  Permutation [e1; e2] [e2; e1] /\
  determineTrickWinner [e1; e2] (Some four_clubs) = Some "p1"%string /\
  determineTrickWinner [e2; e1] (Some four_clubs) = Some "p2"%string /\
  determineTrickWinner [e1; e2] (Some four_clubs)
    <> determineTrickWinner [e2; e1] (Some four_clubs).
Proof.
  intros e1 e2.
  split; [apply perm_swap | split; [reflexivity | split; [reflexivity |]]].
  vm_compute. discriminate.
Qed.

(** When the entry collected first is a strongest one, the loop never
    replaces it. *)
Lemma determineTrickWinner_first_wins vira (first : PlayedCard) (rest : list PlayedCard) :
  (forall e, e ∈ rest ->
     compareCards (PlayedCard.card e) (PlayedCard.card first) vira <= 0) ->
  determineTrickWinner (first :: rest) vira = Some (PlayedCard.playerId first).
Proof.
  intros Hmax. simpl. f_equal.
  assert (fold_left (trickStep vira) rest (PlayedCard.playerId first, PlayedCard.card first)
          = (PlayedCard.playerId first, PlayedCard.card first)) as ->; [|reflexivity].
  induction rest as [|a rest IH]; [reflexivity|].
  simpl. unfold trickStep at 2. simpl.
  assert ((compareCards (PlayedCard.card a) (PlayedCard.card first) vira >? 0) = false)
    as ->.
  { pose proof (Hmax a (list_elem_of_here _ _)) as Ha.
    destruct (_ >? 0) eqn:E; [|reflexivity]. apply Z.gtb_gt in E. lia. }
  apply IH. intros e He. apply Hmax. by apply list_elem_of_further.
Qed.

(** C3, amended. The winner of a trick is the same for every order of its
    entries exactly when all its strongest entries (those that no entry of
    the trick beats) were played by the same seat. Weaker cards may tie as
    they like; among tied strongest entries the one collected first wins,
    so there the order does matter. *)
Theorem determineTrickWinner_permutation vira (l : list PlayedCard) :
  (forall l', Permutation l l' ->
     determineTrickWinner l vira = determineTrickWinner l' vira)
  <->
  (forall e1 e2, strongestEntry vira l e1 -> strongestEntry vira l e2 ->
     PlayedCard.playerId e1 = PlayedCard.playerId e2).
Proof.
  split.
  - intros Hinv e1 e2 [H1 Hmax1] [H2 Hmax2].
    assert (forall e, strongestEntry vira l e ->
              determineTrickWinner l vira = Some (PlayedCard.playerId e)) as Hfirst.
    { intros e [He Hmax]. apply elem_of_Permutation in He as [k Hk].
      rewrite (Hinv _ Hk). apply determineTrickWinner_first_wins.
      intros e' He'. apply Hmax. rewrite Hk. by apply list_elem_of_further. }
    pose proof (Hfirst e1 (conj H1 Hmax1)) as Hw1.
    pose proof (Hfirst e2 (conj H2 Hmax2)) as Hw2.
    congruence.
  - intros Hsame l' Hperm.
    destruct l as [|x l0].
    { apply Permutation_nil in Hperm. subst. reflexivity. }
    destruct l' as [|x' l0'].
    { symmetry in Hperm. apply Permutation_nil in Hperm. discriminate. }
    destruct (determineTrickWinner_max vira (x :: l0)) as (w & Hw & -> & Hmax);
      [discriminate|].
    destruct (determineTrickWinner_max vira (x' :: l0')) as (w' & Hw' & -> & Hmax');
      [discriminate|].
    f_equal. apply Hsame; split.
    + exact Hw.
    + intros e He. specialize (Hmax _ He).
      pose proof (compareCards_cardKey (PlayedCard.card e) (PlayedCard.card w) vira)
        as (Hgt & _). lia.
    + by rewrite Hperm.
    + intros e He. rewrite Hperm in He. specialize (Hmax' _ He).
      pose proof (compareCards_cardKey (PlayedCard.card e) (PlayedCard.card w') vira)
        as (Hgt & _). lia.
Qed.

(** Two fours tie below a trump five: the order of this trick is free. *)
Lemma determineTrickWinner_permutation_witness :
  let e1 := PlayedCard.mk "p1" (Card.mk HEARTS FOUR "a" None None) 1 in
  let e2 := PlayedCard.mk "p2" (Card.mk SPADES FOUR "b" None None) 2 in
  let e3 := PlayedCard.mk "p3" five_hearts 3 in
  compareCards (PlayedCard.card e1) (PlayedCard.card e2) (Some four_clubs) = 0 /\
  Permutation [e1; e2; e3] [e2; e3; e1] /\
  determineTrickWinner [e1; e2; e3] (Some four_clubs)
    = determineTrickWinner [e2; e3; e1] (Some four_clubs).
Proof.
  intros e1 e2 e3.
  assert (Permutation [e1; e2; e3] [e2; e3; e1]) as Hperm.
  { change [e2; e3; e1] with ([e2; e3] ++ [e1]). apply Permutation_cons_append. }
  split; [reflexivity | split; [exact Hperm|]].
  apply (proj2 (determineTrickWinner_permutation (Some four_clubs) [e1; e2; e3]));
    [|exact Hperm].
  assert (forall e, strongestEntry (Some four_clubs) [e1; e2; e3] e -> e = e3) as Hone.
  { intros e [He Hmax].
    assert (e3 ∈ [e1; e2; e3]) as H3
      by (apply list_elem_of_In; simpl; auto).
    specialize (Hmax e3 H3).
    apply list_elem_of_In in He. simpl in He.
    destruct He as [<-|[<-|[<-|[]]]]; [| |reflexivity];
      vm_compute in Hmax; exfalso; apply Hmax; reflexivity. }
  intros a b Ha Hb. by rewrite (Hone a Ha), (Hone b Hb).
Defined.

(** ** Array helpers *)

Lemma findIndex_range {X} (f : X -> bool) (l : list X) :
  -1 <= findIndex f l < Z.of_nat (length l).
Proof.
  induction l as [|x l IH]; simpl; [lia|].
  destruct (f x); [lia|].
  destruct (findIndex f l <? 0) eqn:E; [lia|].
  apply Z.ltb_ge in E. lia.
Qed.

Lemma findIndex_find_None {X} (f : X -> bool) (l : list X) :
  findIndex f l = -1 <-> List.find f l = None.
Proof.
  induction l as [|x l IH]; simpl; [done|].
  destruct (f x); [split; [lia | discriminate]|].
  pose proof (findIndex_range f l).
  destruct (findIndex f l <? 0) eqn:E.
  - apply Z.ltb_lt in E. rewrite <- IH. split; intros; lia.
  - apply Z.ltb_ge in E. rewrite <- IH. split; intros; lia.
Qed.

Lemma findIndex_find_Some {X} (f : X -> bool) (l : list X) (x : X) :
  List.find f l = Some x ->
  exists i : nat, findIndex f l = Z.of_nat i /\ l !! i = Some x /\ f x = true.
Proof.
  induction l as [|y l IH]; simpl; [discriminate|].
  destruct (f y) eqn:Ey.
  - intros [= ->]. exists 0%nat. auto.
  - intros Hfind. destruct (IH Hfind) as (i & Hi & Hl & Hf).
    exists (S i). rewrite Hi.
    destruct (Z.of_nat i <? 0) eqn:E; [apply Z.ltb_lt in E; lia|].
    split; [lia | auto].
Qed.

Lemma at_index_of_nat {X} (l : list X) (i : nat) : at_index l (Z.of_nat i) = l !! i.
Proof.
  unfold at_index. destruct (Z.of_nat i <? 0) eqn:E; [apply Z.ltb_lt in E; lia|].
  by rewrite Nat2Z.id.
Qed.

(** [arr[(i + 1) % arr.length]] is the next seat, cyclically. *)
Lemma at_index_mod_succ {X} (l : list X) (i : nat) :
  l <> [] ->
  at_index_mod l (Z.of_nat i + 1) = l !! ((i + 1) mod length l)%nat.
Proof.
  intros Hne. unfold at_index_mod.
  assert (length l <> 0%nat) as Hlen by (destruct l; simpl; congruence).
  destruct (Z.of_nat (length l) =? 0) eqn:E; [apply Z.eqb_eq in E; lia|].
  rewrite Z.rem_mod_nonneg by lia.
  replace (Z.of_nat i + 1) with (Z.of_nat (i + 1)) by lia.
  rewrite <- Nat2Z.inj_mod. apply at_index_of_nat.
Qed.

Lemma at_index_mod_is_Some {X} (l : list X) (a : Z) :
  l <> [] -> 0 <= a -> is_Some (at_index_mod l a).
Proof.
  intros Hne Ha. unfold at_index_mod, at_index.
  assert (length l <> 0%nat) as Hlen by (destruct l; simpl; congruence).
  destruct (Z.of_nat (length l) =? 0) eqn:E; [apply Z.eqb_eq in E; lia|].
  pose proof (Z.rem_bound_pos a (Z.of_nat (length l)) Ha ltac:(lia)) as Hb.
  destruct (Z.rem a (Z.of_nat (length l)) <? 0) eqn:E2; [apply Z.ltb_lt in E2; lia|].
  apply lookup_lt_is_Some. lia.
Qed.

Lemma findPlayer_Some players pid p :
  findPlayer players (Some pid) = Some p ->
  exists i : nat,
    findIndex (fun q => String.eqb (Player.id q) pid) players = Z.of_nat i /\
    players !! i = Some p /\ Player.id p = pid.
Proof.
  intros H. apply findIndex_find_Some in H as (i & Hi & Hl & Hf).
  apply String.eqb_eq in Hf. eauto.
Qed.

(** ** The example table *)

Example playing0_state :
  let gs := TrucoGame.gameState playing0 in
  GameState.roundState gs = PLAYING /\
  map Player.id (GameState.players gs) = ["s1"; "s2"]%string /\
  map (fun p => length (Player.hand p)) (GameState.players gs) = [3; 3]%nat /\
  GameState.dealer gs = "s1"%string /\ GameState.currentPlayer gs = "s2"%string /\
  GameState.roundValue gs = 1.
Proof. vm_compute. repeat split. Qed.

(** ** Stake *)

Lemma getRoundPoints_validStake v : validStake v -> getRoundPoints v = v.
Proof. intros [->|[->|[->|[->| ->]]]]; reflexivity. Qed.

Lemma getNextRoundValue_validStake v : validStake (getNextRoundValue v).
Proof.
  unfold getNextRoundValue, validStake.
  repeat match goal with |- context [if ?b then _ else _] => destruct b end; lia.
Qed.

Lemma acceptTrucoRequest_validStake gs :
  validStake (GameState.roundValue gs) ->
  validStake (GameState.roundValue (acceptTrucoRequest gs)).
Proof.
  intros Hv. unfold acceptTrucoRequest.
  destruct (_ || _); [exact Hv|].
  destruct (findPlayer _ _); [|exact Hv]. simpl.
  apply (getNextRoundValue_validStake (GameState.roundValue gs)).
Qed.

Lemma processTrucoRequest_roundValue gs pid :
  GameState.roundValue (processTrucoRequest gs pid) = GameState.roundValue gs.
Proof.
  unfold processTrucoRequest.
  destruct (GameState.trucoRequested gs); [reflexivity|].
  destruct (findPlayer _ _); reflexivity.
Qed.

Lemma finishRound_roundValue gs tricks gs' :
  finishRound gs tricks = Some gs' -> GameState.roundValue gs' = 1.
Proof.
  unfold finishRound.
  destruct (if bool_decide _ then _ else _) as [a b].
  destruct (at_index_mod _ _); simpl; [|discriminate].
  intros [= <-]. reflexivity.
Qed.

Lemma declineTrucoRequest_roundValue gs gs' :
  declineTrucoRequest gs = Some gs' ->
  GameState.roundValue gs' = 1 \/ gs' = gs.
Proof.
  unfold declineTrucoRequest.
  destruct (_ || _); [intros [= <-]; by right|].
  destruct (findPlayer _ _); [|intros [= <-]; by right].
  destruct (if bool_decide _ then _ else _) as [a b].
  destruct (at_index_mod _ _); simpl; [|discriminate].
  intros [= <-]. by left.
Qed.

Lemma evaluateTrick_roundValue gs gs' :
  evaluateTrick gs = Some gs' ->
  GameState.roundValue gs' = 1 \/ GameState.roundValue gs' = GameState.roundValue gs.
Proof.
  unfold evaluateTrick.
  destruct (negb _); [intros [= <-]; by right|].
  destruct (findPlayer _ _); [|intros [= <-]; by right].
  destruct (_ || _).
  - intros Hfin%finishRound_roundValue. by left.
  - intros [= <-]. by right.
Qed.

Lemma processPlayedCard_roundValue now gs pid cid gs' :
  processPlayedCard now gs pid cid = Some gs' ->
  GameState.roundValue gs' = 1 \/ GameState.roundValue gs' = GameState.roundValue gs.
Proof.
  unfold processPlayedCard.
  destruct (_ =? -1); [intros [= <-]; by right|].
  destruct (at_index _ _) as [player|]; simpl; [|discriminate].
  destruct (_ =? -1); [intros [= <-]; by right|].
  destruct (at_index _ _) as [card|]; simpl; [|discriminate].
  case_bool_decide.
  - intros Hev%evaluateTrick_roundValue. exact Hev.
  - destruct (at_index_mod _ _); simpl; [|discriminate].
    intros [= <-]. by right.
Qed.

Lemma dealCardsToPlayers_roundValue shuffled gs :
  GameState.roundValue (dealCardsToPlayers shuffled gs) = GameState.roundValue gs.
Proof. reflexivity. Qed.

Lemma startNewRound_roundValue shuffled gs :
  GameState.roundValue (startNewRound shuffled gs) = 1 \/
  startNewRound shuffled gs = gs.
Proof.
  unfold startNewRound. destruct (negb _); [by right | by left].
Qed.

(** The part of the stake invariant that the engine does keep: the stake
    stays on the ladder 1, 3, 6, 9, 12 across every transition. *)
Lemma engine_step_validStake gs gs' :
  engine_step gs gs' ->
  validStake (GameState.roundValue gs) -> validStake (GameState.roundValue gs').
Proof.
  assert (validStake 1) as H1 by (by left).
  intros Hstep Hv. destruct Hstep as [sh gs|now pid cid gs gs' H|sh gs|pid gs|gs|gs gs' H].
  - exact Hv.
  - apply processPlayedCard_roundValue in H as [-> | ->]; assumption.
  - destruct (startNewRound_roundValue sh gs) as [-> | ->]; assumption.
  - by rewrite processTrucoRequest_roundValue.
  - by apply acceptTrucoRequest_validStake.
  - apply declineTrucoRequest_roundValue in H as [-> | ->]; assumption.
Qed.

(** Below the top of the ladder an accepted escalation never lowers the
    stake. *)
Lemma acceptTrucoRequest_monotone_below_twelve gs :
  validStake (GameState.roundValue gs) -> GameState.roundValue gs <> 12 ->
  GameState.roundValue gs <= GameState.roundValue (acceptTrucoRequest gs).
Proof.
  intros Hv Hne. unfold acceptTrucoRequest.
  destruct (_ || _); [lia|]. destruct (findPlayer _ _); [|lia]. simpl.
  destruct Hv as [->|[->|[->|[->|Hv]]]]; simpl; lia.
Qed.

(** At the top of the ladder every accepted escalation lowers it to 3. *)
Lemma acceptTrucoRequest_at_twelve gs r requester :
  GameState.trucoRequested gs = true ->
  GameState.trucoRequestedBy gs = Some r -> r <> ""%string ->
  findPlayer (GameState.players gs) (Some r) = Some requester ->
  GameState.roundValue gs = 12 ->
  GameState.roundValue (acceptTrucoRequest gs) = 3.
Proof.
  intros Hreq Hby Hr Hfind H12. unfold acceptTrucoRequest.
  rewrite Hreq, Hby, Hfind, H12. simpl.
  destruct (String.eqb r "") eqn:E; [apply String.eqb_eq in E; congruence|].
  reflexivity.
Qed.

(** C2: the engine does not keep the stake monotone. On the table
    [playing0], four accepted escalations bring the stake to 12 with the
    round still being played; a fifth request is then registered instead of
    rejected, and accepting it sets the stake to 3. *)
Theorem stake_falls_from_twelve_to_three :
  let g12 := raiseStake (raiseStake (raiseStake (raiseStake playing0))) in
  let asked := TrucoGame.requestTruco "s1" g12 in
  GameState.roundState (TrucoGame.gameState g12) = PLAYING /\
  GameState.roundValue (TrucoGame.gameState g12) = 12 /\
  GameState.trucoRequested (TrucoGame.gameState asked) = true /\
  GameState.roundState (TrucoGame.gameState (TrucoGame.acceptTruco asked)) = PLAYING /\
  GameState.roundValue (TrucoGame.gameState (TrucoGame.acceptTruco asked)) = 3 /\
  acceptTrucoRequest (TrucoGame.gameState asked)
    = TrucoGame.gameState asked
        |> GameState.with_trucoRequested false
        |> GameState.with_trucoRequestedBy None
        |> GameState.with_roundValue 3.
Proof. vm_compute. repeat split. Qed.

(** ** End of a round *)

Lemma hasWinningScore_true s : hasWinningScore s = true <-> 12 <= s.
Proof. unfold hasWinningScore. rewrite Z.geb_le. reflexivity. Qed.

Lemma hasWinningScore_false s : hasWinningScore s = false <-> s < 12.
Proof.
  unfold hasWinningScore. destruct (s >=? 12) eqn:E.
  - apply Z.geb_le in E. split; [discriminate | lia].
  - split; [intros _ | reflexivity].
    destruct (Z.lt_ge_cases s 12) as [|Hge]; [assumption|].
    apply Z.geb_le in Hge. congruence.
Qed.

(** The seat that deals next: the one after the first seat carrying the
    dealer's identity, cyclically. *)
Lemma next_dealer_seat gs dealerSeat :
  findPlayer (GameState.players gs) (Some (GameState.dealer gs)) = Some dealerSeat ->
  exists (i : nat) (next : Player),
    GameState.players gs !! i = Some dealerSeat /\
    GameState.players gs !! ((i + 1) mod length (GameState.players gs))%nat = Some next /\
    at_index_mod (GameState.players gs)
      (findIndex (fun p => String.eqb (Player.id p) (GameState.dealer gs))
                 (GameState.players gs) + 1) = Some next.
Proof.
  intros (i & Hi & Hl & _)%findPlayer_Some.
  assert (GameState.players gs <> []) as Hne by (intros E; by rewrite E in Hl).
  assert (length (GameState.players gs) <> 0%nat) as Hlen
    by (destruct (GameState.players gs); simpl; congruence).
  destruct (lookup_lt_is_Some_2 (GameState.players gs)
              ((i + 1) mod length (GameState.players gs))%nat) as [next Hnext].
  { by apply Nat.mod_upper_bound. }
  exists i, next. rewrite Hi, at_index_mod_succ by assumption. auto.
Qed.





Lemma trickWins_unique gs tm tricks n m :
  trickWins gs tm tricks n -> trickWins gs tm tricks m -> n = m.
Proof.
  intros Hn. revert m. induction Hn as [|trick rest n Hwon _ IH|trick rest n Hlost _ IH];
    intros m Hm; inversion Hm; subst; try reflexivity; try contradiction.
  - f_equal. by apply IH.
  - by apply IH.
Qed.




(** [finishRound] and [declineTrucoRequest] never fail on a table with at
    least one seat. *)
Lemma next_dealer_is_Some gs :
  GameState.players gs <> [] ->
  is_Some (at_index_mod (GameState.players gs)
    (findIndex (fun p => String.eqb (Player.id p) (GameState.dealer gs))
               (GameState.players gs) + 1)).
Proof.
  intros Hne. apply at_index_mod_is_Some; [assumption|].
  pose proof (findIndex_range (fun p => String.eqb (Player.id p) (GameState.dealer gs))
                (GameState.players gs)). lia.
Qed.

Lemma findPlayer_nonempty players pid p :
  findPlayer players pid = Some p -> players <> [].
Proof. intros H ->. destruct pid; discriminate. Qed.

(** C5. With an escalation pending whose requester is seated and a stake on
    the ladder, [declineTrucoRequest] ends the round at once
    ([ROUND_OVER] or [GAME_OVER]) with the requester's team as round winner,
    adds the current stake to that team's score and leaves the other score
    alone, whatever the current trick and the trick history hold, and hands
    the deal on exactly as [finishRound] does: same next dealer and same
    cleared seats for any trick list, and the very same state when
    [finishRound] finds the same round winner. *)
Theorem declineTrucoRequest_awards_requester gs r requester :
  GameState.trucoRequested gs = true ->
  GameState.trucoRequestedBy gs = Some r ->
  r <> ""%string ->
  findPlayer (GameState.players gs) (Some r) = Some requester ->
  validStake (GameState.roundValue gs) ->
  let w := Player.team requester in
  exists gs',
    declineTrucoRequest gs = Some gs' /\
    GameState.roundWinner gs' = Some w /\
    teamScore w gs' = teamScore w gs + GameState.roundValue gs /\
    teamScore (otherTeam w) gs' = teamScore (otherTeam w) gs /\
    (GameState.roundState gs' = ROUND_OVER \/ GameState.roundState gs' = GAME_OVER) /\
    (forall ct ts,
       declineTrucoRequest (gs |> GameState.with_currentTrick ct |> GameState.with_tricks ts)
         = Some gs') /\
    (forall tricks, exists fr,
       finishRound gs tricks = Some fr /\
       GameState.dealer gs' = GameState.dealer fr /\
       GameState.players gs' = GameState.players fr /\
       (GameState.roundWinner fr = Some w -> gs' = fr)).
Proof.
  intros Hreq Hby Hr Hfind Hstake w.
  pose proof (getRoundPoints_validStake _ Hstake) as Hpts.
  destruct (next_dealer_is_Some gs (findPlayer_nonempty _ _ _ Hfind)) as [next Hnext].
  assert (truthy (Some r) = true) as Htruthy.
  { simpl. destruct (String.eqb r "") eqn:E; [apply String.eqb_eq in E; congruence | reflexivity]. }
  assert (forall ct ts,
    declineTrucoRequest (gs |> GameState.with_currentTrick ct |> GameState.with_tricks ts)
    = declineTrucoRequest gs) as Hframe.
  { intros ct ts. unfold declineTrucoRequest. simpl.
    rewrite Hreq, Hby, Htruthy, Hfind. simpl.
    destruct (bool_decide (_ = A)); simpl; rewrite Hnext; reflexivity. }
  assert (exists gs', declineTrucoRequest gs = Some gs' /\
    GameState.roundWinner gs' = Some w /\
    teamScore w gs' = teamScore w gs + GameState.roundValue gs /\
    teamScore (otherTeam w) gs' = teamScore (otherTeam w) gs /\
    (GameState.roundState gs' = ROUND_OVER \/ GameState.roundState gs' = GAME_OVER) /\
    (forall tricks, exists fr,
       finishRound gs tricks = Some fr /\
       GameState.dealer gs' = GameState.dealer fr /\
       GameState.players gs' = GameState.players fr /\
       (GameState.roundWinner fr = Some w -> gs' = fr))) as (gs' & Hd & H).
  { unfold declineTrucoRequest.
    rewrite Hreq, Hby, Htruthy, Hfind, Hpts. simpl. unfold w.
    destruct (Player.team requester); simpl; rewrite Hnext; simpl;
      (eexists; split; [reflexivity|]; simpl;
       split; [reflexivity|]; split; [reflexivity|]; split; [reflexivity|]; split;
       [ repeat match goal with |- context [hasWinningScore ?s] =>
                  destruct (hasWinningScore s) end; auto
       | intros tricks; unfold finishRound; rewrite Hpts;
         match goal with |- context [bool_decide (?rw = Some A)] =>
           destruct rw as [[|]|] end; simpl; rewrite Hnext; simpl;
         eexists; (split; [reflexivity|]); simpl;
         (split; [reflexivity|]); (split; [reflexivity|]);
         first [reflexivity | discriminate | intros; reflexivity] ]). }
  exists gs'. destruct H as (? & ? & ? & ? & ?).
  repeat (split; [assumption|]).
  split; [|assumption]. intros ct ts. by rewrite Hframe.
Qed.

Lemma declineTrucoRequest_awards_requester_witness :
  let gs := TrucoGame.gameState (TrucoGame.requestTruco "s1" playing0) in
  GameState.trucoRequested gs = true /\
  GameState.trucoRequestedBy gs = Some "s1"%string /\
  is_Some (findPlayer (GameState.players gs) (Some "s1"%string)) /\
  validStake (GameState.roundValue gs) /\
  exists gs', declineTrucoRequest gs = Some gs' /\
              GameState.roundWinner gs' = Some A /\
              GameState.teamAScore gs' = 1.
Proof.
  intros gs.
  assert (GameState.trucoRequested gs = true) as H1 by reflexivity.
  assert (GameState.trucoRequestedBy gs = Some "s1"%string) as H2 by reflexivity.
  assert ("s1"%string <> ""%string) as H3 by discriminate.
  destruct (findPlayer (GameState.players gs) (Some "s1"%string))
    as [seat|] eqn:H4; [|vm_compute in H4; discriminate].
  assert (validStake (GameState.roundValue gs)) as H5 by (left; reflexivity).
  split; [exact H1 | split; [exact H2 | split; [by eexists | split; [exact H5|]]]].
  destruct (declineTrucoRequest_awards_requester gs "s1" seat H1 H2 H3 H4 H5)
    as (gs' & Hd & Hwin & Hscore & _).
  assert (Player.team seat = A) as Hteam.
  { vm_compute in H4. injection H4 as <-. reflexivity. }
  rewrite Hteam in Hwin, Hscore.
  exists gs'. split; [exact Hd | split; [exact Hwin | exact Hscore]].
Defined.

(** ** No exception leaves the core *)

Lemma finishRound_is_Some gs tricks :
  GameState.players gs <> [] -> is_Some (finishRound gs tricks).
Proof.
  intros Hne. destruct (next_dealer_is_Some gs Hne) as [next Hnext].
  unfold finishRound.
  destruct (if bool_decide _ then _ else _) as [a b].
  rewrite Hnext. simpl. by eexists.
Qed.

Lemma declineTrucoRequest_is_Some gs : is_Some (declineTrucoRequest gs).
Proof.
  unfold declineTrucoRequest.
  destruct (_ || _); [by eexists|].
  destruct (findPlayer _ _) as [requester|] eqn:Hfind; [|by eexists].
  destruct (next_dealer_is_Some gs (findPlayer_nonempty _ _ _ Hfind)) as [next Hnext].
  destruct (if bool_decide _ then _ else _) as [a b].
  rewrite Hnext. simpl. by eexists.
Qed.

Lemma evaluateTrick_is_Some gs :
  GameState.players gs <> [] -> is_Some (evaluateTrick gs).
Proof.
  intros Hne. unfold evaluateTrick.
  destruct (negb _); [by eexists|].
  destruct (findPlayer _ _); [|by eexists].
  destruct (_ || _); [by apply finishRound_is_Some | by eexists].
Qed.

Lemma at_index_is_Some {X} (l : list X) (k : Z) :
  0 <= k < Z.of_nat (length l) -> is_Some (at_index l k).
Proof.
  intros Hk. unfold at_index.
  destruct (k <? 0) eqn:E; [apply Z.ltb_lt in E; lia|].
  apply lookup_lt_is_Some. lia.
Qed.

(** [processPlayedCard] returns a state on every input. *)
Lemma processPlayedCard_is_Some now gs playerId cardId :
  is_Some (processPlayedCard now gs playerId cardId).
Proof.
  unfold processPlayedCard.
  set (playerIndex := findIndex _ (GameState.players gs)).
  pose proof (findIndex_range (fun p => String.eqb (Player.id p) playerId)
                (GameState.players gs)) as Hrange. fold playerIndex in Hrange.
  destruct (playerIndex =? -1) eqn:E; [by eexists|]. apply Z.eqb_neq in E.
  destruct (at_index_is_Some (GameState.players gs) playerIndex) as [player Hplayer];
    [lia|]. rewrite Hplayer. simpl.
  assert (GameState.players gs <> []) as Hne.
  { intros Hnil. rewrite Hnil in Hrange. simpl in Hrange. lia. }
  set (cardIndex := findIndex _ (Player.hand player)).
  pose proof (findIndex_range (fun c => String.eqb (Card.id c) cardId)
                (Player.hand player)) as Hcrange. fold cardIndex in Hcrange.
  destruct (cardIndex =? -1) eqn:Ec; [by eexists|]. apply Z.eqb_neq in Ec.
  destruct (at_index_is_Some (Player.hand player) cardIndex) as [card Hcard];
    [lia|]. rewrite Hcard. simpl.
  case_bool_decide.
  - apply evaluateTrick_is_Some. simpl.
    intros Hnil. apply (f_equal length) in Hnil.
    rewrite length_insert in Hnil. destruct (GameState.players gs); simpl in *; congruence.
  - destruct (at_index_mod_is_Some (GameState.players gs) (playerIndex + 1)) as [nx Hnx];
      [assumption | lia |]. rewrite Hnx. simpl. by eexists.
Qed.

(** [TrucoGame.playCard] and [TrucoGame.declineTruco] raise no exception. *)
Lemma playCard_is_Some now playerId cardId (g : TrucoGame) :
  is_Some (TrucoGame.playCard now playerId cardId g).
Proof.
  unfold TrucoGame.playCard. destruct (negb _); [by eexists|].
  destruct (processPlayedCard_is_Some now (TrucoGame.gameState g) playerId cardId)
    as [gs' ->]. simpl. by eexists.
Qed.

Lemma declineTruco_is_Some (g : TrucoGame) : is_Some (TrucoGame.declineTruco g).
Proof.
  unfold TrucoGame.declineTruco.
  destruct (declineTrucoRequest_is_Some (TrucoGame.gameState g)) as [gs' ->].
  simpl. by eexists.
Qed.

(** The round of the example table played out: seat s1 wins the first two
    tricks, team A scores the stake and the deal passes to seat s2. *)
Example round_played_out :
  let gs := TrucoGame.gameState (play 4 "s2" "4" afterThree) in
  GameState.roundState gs = ROUND_OVER /\
  GameState.roundWinner gs = Some A /\
  GameState.teamAScore gs = 1 /\ GameState.teamBScore gs = 0 /\
  GameState.dealer gs = "s2"%string /\
  map Player.hand (GameState.players gs) = [[]; []] /\
  GameState.tricks gs = [] /\ GameState.currentTrick gs = [].
Proof. vm_compute. repeat split. Qed.

(** ** Disconnect *)

(** C6, as stated, fails for [ROUND_OVER] and for [DEALING]: a transport drop
    of seat s2 between two rounds does not mark the seat and wipes the score
    of team A; during [DEALING] it does not mark the seat either, empties
    the hands and takes the turn away. *)
Lemma markPlayerDisconnected_outside_play_counterexample :
  let gs := TrucoGame.gameState betweenRounds in
  let gs' := TrucoGame.gameState (TrucoGame.markPlayerDisconnected "s2" betweenRounds) in
  let ds := TrucoGame.gameState dealing0 in
  let ds' := TrucoGame.gameState (TrucoGame.markPlayerDisconnected "s2" dealing0) in
  (GameState.roundState gs = ROUND_OVER /\
   map Player.id (GameState.players gs) = ["s1"; "s2"]%string /\
   GameState.teamAScore gs = 1 /\
   GameState.teamAScore gs' = 0 /\
   map Player.isDisconnected (GameState.players gs') = [None; None]) /\
  (GameState.roundState ds = DEALING /\
   map (fun p => length (Player.hand p)) (GameState.players ds) = [3; 3]%nat /\
   map (fun p => length (Player.hand p)) (GameState.players ds') = [0; 0]%nat /\
   GameState.currentPlayer ds = "s2"%string /\
   GameState.currentPlayer ds' = ""%string /\
   map Player.isYourTurn (GameState.players ds) = [false; true] /\
   map Player.isYourTurn (GameState.players ds') = [false; false] /\
   map Player.isDisconnected (GameState.players ds') = [None; None]).
Proof. vm_compute. repeat split. Qed.

(** C6, amended. For every transport drop while the round state is
    [PLAYING], the seat is marked disconnected and not vacated, and every
    hand, every turn flag, the current-turn pointer and both team scores are
    left as they were. *)
Theorem markPlayerDisconnected_while_playing (g : TrucoGame) (playerId : string) :
  GameState.roundState (TrucoGame.gameState g) = PLAYING ->
  let gs := TrucoGame.gameState g in
  let gs' := TrucoGame.gameState (TrucoGame.markPlayerDisconnected playerId g) in
  map Player.id (GameState.players gs') = map Player.id (GameState.players gs) /\
  (forall p, p ∈ GameState.players gs' -> Player.id p = playerId ->
             Player.isDisconnected p = Some true) /\
  map Player.hand (GameState.players gs') = map Player.hand (GameState.players gs) /\
  map Player.isYourTurn (GameState.players gs')
    = map Player.isYourTurn (GameState.players gs) /\
  map Player.team (GameState.players gs') = map Player.team (GameState.players gs) /\
  GameState.currentPlayer gs' = GameState.currentPlayer gs /\
  GameState.teamAScore gs' = GameState.teamAScore gs /\
  GameState.teamBScore gs' = GameState.teamBScore gs /\
  GameState.roundState gs' = PLAYING.
Proof.
  intros Hplaying gs gs'.
  assert (gs' = gs |> GameState.with_players
    (map (fun p => if String.eqb (Player.id p) playerId
                   then p |> Player.with_isDisconnected (Some true) else p)
         (GameState.players gs))) as ->.
  { unfold gs', gs, TrucoGame.markPlayerDisconnected.
    destruct (findPlayer _ _); simpl; rewrite Hplaying; reflexivity. }
  simpl.
  assert (forall (Y : Type) (f : Player -> Y),
    (forall p, f (p |> Player.with_isDisconnected (Some true)) = f p) ->
    map f (map (fun p => if String.eqb (Player.id p) playerId
                         then p |> Player.with_isDisconnected (Some true) else p)
               (GameState.players gs)) = map f (GameState.players gs)) as Hmap.
  { intros Y f Hf. rewrite map_map. apply map_ext. intros p.
    destruct (String.eqb (Player.id p) playerId); [apply Hf | reflexivity]. }
  split; [by apply Hmap|]. split.
  - intros p (q & -> & _)%list_elem_of_fmap.
    destruct (String.eqb (Player.id q) playerId) eqn:E; [reflexivity|].
    intros Heq. apply String.eqb_neq in E. contradiction.
  - split; [by apply Hmap|]. split; [by apply Hmap|]. split; [by apply Hmap|]. auto.
Qed.

Lemma markPlayerDisconnected_while_playing_witness :
  let gs := TrucoGame.gameState playing0 in
  let gs' := TrucoGame.gameState (TrucoGame.markPlayerDisconnected "s2" playing0) in
  GameState.roundState gs = PLAYING /\
  map Player.id (GameState.players gs') = map Player.id (GameState.players gs) /\
  map Player.hand (GameState.players gs') = map Player.hand (GameState.players gs).
Proof.
  intros gs gs'.
  assert (GameState.roundState (TrucoGame.gameState playing0) = PLAYING) as H by reflexivity.
  destruct (markPlayerDisconnected_while_playing playing0 "s2" H) as (Hid & _ & Hhand & _).
  split; [exact H | split; [exact Hid | exact Hhand]].
Defined.

(** ** Reconnect *)

(** When the lookup by display name returns the identity [old] that the
    seat really carries, [reconnectPlayer] rewrites the three pointers that
    held [old], keeps the tricks as they are, and publishes exactly one
    snapshot, the final state. *)
Lemma reconnectPlayer_found (g : TrucoGame) (socketId username old : string) :
  TrucoGame.findDisconnected username (TrucoGame.disconnectedPlayers g) = Some old ->
  old <> ""%string ->
  let gs := TrucoGame.gameState g in
  let g' := snd (TrucoGame.reconnectPlayer socketId username g) in
  let gs' := TrucoGame.gameState g' in
  fst (TrucoGame.reconnectPlayer socketId username g) = true /\
  (GameState.currentPlayer gs = old -> GameState.currentPlayer gs' = socketId) /\
  (GameState.dealer gs = old -> GameState.dealer gs' = socketId) /\
  (GameState.trucoRequestedBy gs = Some old ->
   GameState.trucoRequestedBy gs' = Some socketId) /\
  map Player.hand (GameState.players gs') = map Player.hand (GameState.players gs) /\
  GameState.currentTrick gs' = GameState.currentTrick gs /\
  GameState.tricks gs' = GameState.tricks gs /\
  TrucoGame.emitted g' = TrucoGame.emitted g ++ [gs'].
Proof.
  intros Hfound Hold gs g' gs'. subst gs' g' gs.
  unfold TrucoGame.reconnectPlayer. rewrite Hfound.
  assert (truthy (Some old) = true) as ->.
  { simpl. destruct (String.eqb old "") eqn:E;
      [apply String.eqb_eq in E; congruence | reflexivity]. }
  simpl. split; [reflexivity|]. split.
  { intros Hcp. by rewrite Hcp, String.eqb_refl. }
  split.
  { intros Hd. by rewrite Hd, String.eqb_refl. }
  split.
  { intros Hby. by rewrite bool_decide_eq_true_2. }
  split; [|auto].
  rewrite map_map. apply map_ext. intros p.
  destruct (String.eqb (Player.username p) username); reflexivity.
Qed.

(** C7: the rewrite of the stored references can miss the seat's identity.
    On [staleDropped] the disconnected seat of bob carries the identity s2
    and holds the turn. The reconnect of "bob" as s3 rebinds the seat, with
    its three cards, to s3, but the lookup by display name returns the stale
    identity x: the current-turn pointer still reads s2, no seat answers to
    it, and a card played by s3 is ignored. *)
Theorem reconnectPlayer_stale_entry_loses_turn :
  let gs := TrucoGame.gameState staleDropped in
  let r := TrucoGame.reconnectPlayer "s3" "bob" staleDropped in
  let gs' := TrucoGame.gameState (snd r) in
  (GameState.roundState gs = PLAYING /\
   map (fun p => (Player.id p, Player.username p, Player.isDisconnected p))
       (GameState.players gs)
     = [("s1", "ana", None); ("s2", "bob", Some true)]%string /\
   GameState.currentPlayer gs = "s2"%string /\
   TrucoGame.disconnectedPlayers staleDropped = [("x", "bob"); ("s2", "bob")]%string) /\
  (fst r = true /\
   map (fun p => (Player.id p, Player.username p, Player.isDisconnected p,
                  map Card.id (Player.hand p), Player.isYourTurn p))
       (GameState.players gs')
     = [("s1", "ana", None, ["0"; "1"; "2"], false);
        ("s3", "bob", Some false, ["3"; "4"; "5"], true)]%string /\
   GameState.currentPlayer gs' = "s2"%string /\
   findPlayer (GameState.players gs') (Some (GameState.currentPlayer gs')) = None /\
   TrucoGame.playCard 9 "s3" "3" (snd r) = Some (snd r)).
Proof. vm_compute. repeat split. Qed.

(** ** Illegal intents *)

Lemma find_None_forall {X} (f : X -> bool) (l : list X) :
  (forall x, x ∈ l -> f x = false) -> List.find f l = None.
Proof.
  induction l as [|y l IH]; intros H; simpl; [reflexivity|].
  rewrite (H y) by apply list_elem_of_here.
  apply IH. intros x Hx. apply H. by apply list_elem_of_further.
Qed.

(** C8. A play-card intent whose player identity is not seated, or whose
    card identity is not in the hand of the seat it names, leaves the match
    state as it is, in [processPlayedCard] and in [TrucoGame.playCard], and
    raises no exception; the only snapshot [playCard] may publish then is
    that unchanged state. *)
Theorem playCard_unknown_seat_or_card now (g : TrucoGame) (playerId cardId : string) :
  (findPlayer (GameState.players (TrucoGame.gameState g)) (Some playerId) = None \/
   exists p, findPlayer (GameState.players (TrucoGame.gameState g)) (Some playerId) = Some p /\
             forall c, c ∈ Player.hand p -> Card.id c <> cardId) ->
  processPlayedCard now (TrucoGame.gameState g) playerId cardId
    = Some (TrucoGame.gameState g) /\
  exists g', TrucoGame.playCard now playerId cardId g = Some g' /\
             TrucoGame.gameState g' = TrucoGame.gameState g /\
             TrucoGame.playerNames g' = TrucoGame.playerNames g /\
             TrucoGame.disconnectedPlayers g' = TrucoGame.disconnectedPlayers g /\
             (TrucoGame.emitted g' = TrucoGame.emitted g \/
              TrucoGame.emitted g' = TrucoGame.emitted g ++ [TrucoGame.gameState g]).
Proof.
  intros Hbad.
  assert (processPlayedCard now (TrucoGame.gameState g) playerId cardId
          = Some (TrucoGame.gameState g)) as Hcore.
  { unfold processPlayedCard. destruct Hbad as [Hnone | (p & Hp & Hhand)].
    - apply findIndex_find_None in Hnone. simpl in Hnone. rewrite Hnone. reflexivity.
    - apply findPlayer_Some in Hp as (i & Hi & Hl & _). rewrite Hi.
      destruct (Z.of_nat i =? -1) eqn:E; [reflexivity|].
      rewrite at_index_of_nat, Hl. simpl.
      assert (findIndex (fun c => String.eqb (Card.id c) cardId) (Player.hand p) = -1) as ->.
      { apply findIndex_find_None, find_None_forall.
        intros c Hc. apply String.eqb_neq. by apply Hhand. }
      reflexivity. }
  split; [exact Hcore|].
  unfold TrucoGame.playCard.
  destruct (negb _); [exists g; auto 6|].
  rewrite Hcore. simpl. eexists. split; [reflexivity|]. simpl. auto 6.
Qed.

Lemma playCard_unknown_seat_or_card_witness :
  findPlayer (GameState.players (TrucoGame.gameState playing0)) (Some "ghost"%string) = None /\
  processPlayedCard 7 (TrucoGame.gameState playing0) "ghost" "3"
    = Some (TrucoGame.gameState playing0).
Proof.
  assert (findPlayer (GameState.players (TrucoGame.gameState playing0))
            (Some "ghost"%string) = None) as H by reflexivity.
  split; [exact H|].
  exact (proj1 (playCard_unknown_seat_or_card 7 playing0 "ghost" "3" (or_introl H))).
Defined.

(** ** Leave *)

(** On an active match [removePlayer] resets the match and returns before
    the seat list is filtered: no seat is ever vacated there. *)
Lemma removePlayer_active_keeps_seats (g : TrucoGame) (playerId : string) :
  GameState.roundState (TrucoGame.gameState g) <> WAITING_FOR_PLAYERS ->
  map Player.id (GameState.players (TrucoGame.gameState (TrucoGame.removePlayer playerId g)))
    = map Player.id (GameState.players (TrucoGame.gameState g)).
Proof.
  intros Hactive. unfold TrucoGame.removePlayer.
  destruct (_ =? -1); [reflexivity|].
  rewrite bool_decide_eq_false_2 by assumption. simpl.
  rewrite map_map. reflexivity.
Qed.

(** C9: an explicit leave during play resets the match but does not vacate
    the seat. Seat s1 leaves the table [playing0]: the match is back to
    [WAITING_FOR_PLAYERS] with scores and hands cleared, and s1 still
    occupies the first of the two seats. *)
Theorem removePlayer_active_does_not_vacate :
  let gs := TrucoGame.gameState playing0 in
  let g' := TrucoGame.removePlayer "s1" playing0 in
  let gs' := TrucoGame.gameState g' in
  GameState.roundState gs = PLAYING /\
  map Player.id (GameState.players gs) = ["s1"; "s2"]%string /\
  GameState.roundState gs' = WAITING_FOR_PLAYERS /\
  map Player.id (GameState.players gs') = ["s1"; "s2"]%string /\
  TrucoGame.getPlayerCount g' = 2%nat /\
  map Player.hand (GameState.players gs') = [[]; []] /\
  GameState.teamAScore gs' = 0 /\ GameState.teamBScore gs' = 0.
Proof. vm_compute. repeat split. Qed.

(** ** Accepting an escalation *)

(** C10. [acceptTrucoRequest] changes nothing but the stake and the two
    fields of the pending request: seats (hands and flags), scores, current
    trick, trick history, turned card, dealer and current-turn pointers,
    round state, and the remaining fields are those of the state it was
    given; [TrucoGame.acceptTruco] stores exactly that state. *)
Theorem acceptTrucoRequest_frame (gs : GameState) :
  let gs' := acceptTrucoRequest gs in
  GameState.players gs' = GameState.players gs /\
  GameState.teamAScore gs' = GameState.teamAScore gs /\
  GameState.teamBScore gs' = GameState.teamBScore gs /\
  GameState.currentTrick gs' = GameState.currentTrick gs /\
  GameState.tricks gs' = GameState.tricks gs /\
  GameState.vira gs' = GameState.vira gs /\
  GameState.dealer gs' = GameState.dealer gs /\
  GameState.currentPlayer gs' = GameState.currentPlayer gs /\
  GameState.roundState gs' = GameState.roundState gs /\
  GameState.id gs' = GameState.id gs /\
  GameState.mode gs' = GameState.mode gs /\
  GameState.winner gs' = GameState.winner gs /\
  GameState.roundWinner gs' = GameState.roundWinner gs /\
  gs' = gs |> GameState.with_trucoRequested (GameState.trucoRequested gs')
           |> GameState.with_trucoRequestedBy (GameState.trucoRequestedBy gs')
           |> GameState.with_roundValue (GameState.roundValue gs') /\
  forall g : TrucoGame,
    TrucoGame.gameState g = gs ->
    TrucoGame.gameState (TrucoGame.acceptTruco g) = gs'.
Proof.
  intros gs'.
  assert (forall g : TrucoGame, TrucoGame.gameState g = gs ->
            TrucoGame.gameState (TrucoGame.acceptTruco g) = gs') as Hclass.
  { intros g <-. reflexivity. }
  revert Hclass. unfold gs', acceptTrucoRequest.
  destruct (_ || _); [|destruct (findPlayer _ _)]; intros Hclass;
    repeat (split; [try reflexivity; by destruct gs|]); exact Hclass.
Qed.

(** With a request pending on [playing0], accepting does raise the stake. *)
Example acceptTrucoRequest_raises :
  let gs := TrucoGame.gameState (TrucoGame.requestTruco "s1" playing0) in
  GameState.trucoRequested gs = true /\
  GameState.roundValue gs = 1 /\
  GameState.roundValue (acceptTrucoRequest gs) = 3 /\
  GameState.trucoRequested (acceptTrucoRequest gs) = false /\
  GameState.trucoRequestedBy (acceptTrucoRequest gs) = None.
Proof. vm_compute. repeat split. Qed.

(** * Further properties of the code *)

(** ** Deck and trumps *)

(** X1. [createDeck] builds 40 cards, one for every pair of a suit and a
    face and no pair twice, none of them carrying trump annotations yet;
    whatever card is turned, exactly four cards of the deck are trumps. *)
Theorem createDeck_one_card_per_suit_and_face uuid (vira : Card) :
  length (createDeck uuid) = 40%nat /\
  map (fun c => (Card.suit c, Card.value c)) (createDeck uuid) = list_prod suits values /\
  NoDup (map (fun c => (Card.suit c, Card.value c)) (createDeck uuid)) /\
  (forall s v, exists c, c ∈ createDeck uuid /\ Card.suit c = s /\ Card.value c = v) /\
  Forall (fun c => Card.rank c = None /\ Card.isManilha c = None) (createDeck uuid) /\
  length (List.filter (fun c => isManilha c (Some vira)) (createDeck uuid)) = 4%nat.
Proof.
  assert (map (fun c => (Card.suit c, Card.value c)) (createDeck uuid)
          = list_prod suits values) as Hmap by reflexivity.
  split; [reflexivity|]. split; [exact Hmap|]. split.
  { rewrite Hmap. apply (bool_decide_unpack _). vm_compute. exact I. }
  split.
  { intros s v.
    assert ((s, v) ∈ map (fun c => (Card.suit c, Card.value c)) (createDeck uuid)) as Hin.
    { rewrite Hmap. destruct s, v; apply list_elem_of_In; simpl; tauto. }
    apply list_elem_of_fmap in Hin as (c & Heq & Hc).
    exists c. injection Heq as -> ->. auto. }
  split.
  { unfold createDeck. simpl. repeat constructor. }
  unfold createDeck, isManilha, getManilhaValue.
  destruct (Card.value vira); reflexivity.
Qed.

(** X2. The trump face is the face just above the turned card in the
    strength order 4 5 6 7 Q J K A 2 3, wrapping from 3 back to 4. So it is
    never the face of the turned card itself, two turned faces never give
    the same trump face, and only a missing turned card gives none. *)
Theorem getManilhaValue_next_stronger_face (vira : option Card) :
  (getManilhaValue vira = None <-> vira = None) /\
  (forall v, vira = Some v ->
     exists m, getManilhaValue vira = Some m /\
       CARD_STRENGTHS m = CARD_STRENGTHS (Card.value v) mod 10 + 1 /\
       m <> Card.value v /\ isManilha v vira = false) /\
  (forall v1 v2, getManilhaValue (Some v1) = getManilhaValue (Some v2) ->
                 Card.value v1 = Card.value v2).
Proof.
  split; [|split].
  - destruct vira as [v|]; simpl; [|tauto].
    destruct (Card.value v); split; discriminate.
  - intros v ->. unfold isManilha. simpl.
    destruct (Card.value v); eexists; (split; [reflexivity|]);
      (split; [reflexivity|]); split; first [discriminate | reflexivity].
  - intros v1 v2. simpl.
    destruct (Card.value v1), (Card.value v2); first [reflexivity | discriminate].
Qed.

(** The loop of [determineTrickWinner], with the position of the winner. *)
Lemma trickStep_fold_first vira (rest : list PlayedCard) :
  forall (pre : list PlayedCard) (w : PlayedCard) (post : list PlayedCard),
    (forall e, e ∈ pre -> compareCards (PlayedCard.card w) (PlayedCard.card e) vira > 0) ->
    (forall e, e ∈ post -> compareCards (PlayedCard.card e) (PlayedCard.card w) vira <= 0) ->
    exists pre' w' post',
      (pre ++ w :: post) ++ rest = pre' ++ w' :: post' /\
      fold_left (trickStep vira) rest (PlayedCard.playerId w, PlayedCard.card w)
        = (PlayedCard.playerId w', PlayedCard.card w') /\
      (forall e, e ∈ pre' ->
         compareCards (PlayedCard.card w') (PlayedCard.card e) vira > 0) /\
      (forall e, e ∈ post' ->
         compareCards (PlayedCard.card e) (PlayedCard.card w') vira <= 0).
Proof.
  induction rest as [|a rest IH]; intros pre w post Hpre Hpost.
  - exists pre, w, post. rewrite app_nil_r. auto.
  - simpl. unfold trickStep at 2. simpl.
    destruct (compareCards (PlayedCard.card a) (PlayedCard.card w) vira >? 0) eqn:Hcmp.
    + apply Z.gtb_gt in Hcmp.
      destruct (IH (pre ++ w :: post) a []) as (pre' & w' & post' & Heq & Hfold & H1 & H2).
      * intros e He. apply compareCards_cardKey.
        apply compareCards_cardKey in Hcmp.
        apply elem_of_app in He as [He|He].
        -- specialize (Hpre _ He). apply compareCards_cardKey in Hpre. lia.
        -- apply elem_of_cons in He as [->|He]; [lia|].
           specialize (Hpost _ He).
           pose proof (compareCards_cardKey (PlayedCard.card e) (PlayedCard.card w) vira)
             as (Hgt & Heq0 & Hlt).
           assert (cardKey (PlayedCard.card e) vira <= cardKey (PlayedCard.card w) vira)
             by (destruct (Z.lt_trichotomy
                   (compareCards (PlayedCard.card e) (PlayedCard.card w) vira) 0)
                   as [?|[?|?]]; [apply Hlt in H | apply Heq0 in H |]; lia).
           lia.
      * intros e He. by apply elem_of_nil in He.
      * exists pre', w', post'. rewrite <- Heq, <- !app_assoc. simpl. auto.
    + assert (compareCards (PlayedCard.card a) (PlayedCard.card w) vira <= 0) as Hle.
      { destruct (Z.gtb_spec (compareCards (PlayedCard.card a) (PlayedCard.card w) vira) 0);
          [discriminate | lia]. }
      destruct (IH pre w (post ++ [a])) as (pre' & w' & post' & Heq & Hfold & H1 & H2).
      * exact Hpre.
      * intros e [He| ->%list_elem_of_singleton]%elem_of_app; auto.
      * exists pre', w', post'. rewrite <- Heq, <- !app_assoc. simpl.
        rewrite <- app_assoc. simpl. auto.
Qed.

(** X3. [determineTrickWinner] gives no winner for an empty trick only; for
    any other trick it returns the seat of an entry that beats every entry
    collected before it and that no later entry beats: the first of the
    strongest cards played. *)
Theorem determineTrickWinner_first_strongest vira (first : PlayedCard)
    (rest : list PlayedCard) :
  determineTrickWinner [] vira = None /\
  exists pre w post,
    first :: rest = pre ++ w :: post /\
    determineTrickWinner (first :: rest) vira = Some (PlayedCard.playerId w) /\
    (forall e, e ∈ pre -> compareCards (PlayedCard.card w) (PlayedCard.card e) vira > 0) /\
    (forall e, e ∈ post -> compareCards (PlayedCard.card e) (PlayedCard.card w) vira <= 0).
Proof.
  split; [reflexivity|].
  destruct (trickStep_fold_first vira rest [] first [])
    as (pre & w & post & Heq & Hfold & H1 & H2).
  - intros e He. by apply elem_of_nil in He.
  - intros e He. by apply elem_of_nil in He.
  - exists pre, w, post. simpl in *. rewrite Hfold. auto.
Qed.

(** X4. The annotations [updateManilhas] writes on a hand agree with the
    rule functions: a card keeps its suit, face and identifier, is flagged
    as trump exactly when [isManilha] says so, and gets as rank its
    [MANILHA_SUIT_STRENGTH] if it is a trump and 0 otherwise; without a
    turned card the hand is returned as it is. [compareCards] is blind to
    the annotations, and on two annotated trumps it is the difference of
    their ranks. *)
Theorem updateManilhas_agrees_with_rules (v : Card) (cards : list Card) :
  updateManilhas cards None = cards /\
  Forall2 (fun c c' =>
             Card.suit c' = Card.suit c /\ Card.value c' = Card.value c /\
             Card.id c' = Card.id c /\
             Card.isManilha c' = Some (isManilha c (Some v)) /\
             Card.rank c' =
               Some (if isManilha c (Some v) then MANILHA_SUIT_STRENGTH (Card.suit c) else 0) /\
             (forall other turned,
                compareCards c' other turned = compareCards c other turned /\
                compareCards other c' turned = compareCards other c turned))
          cards (updateManilhas cards (Some v)) /\
  (forall c1 c2 r1 r2,
     c1 ∈ updateManilhas cards (Some v) -> c2 ∈ updateManilhas cards (Some v) ->
     Card.isManilha c1 = Some true -> Card.isManilha c2 = Some true ->
     Card.rank c1 = Some r1 -> Card.rank c2 = Some r2 ->
     compareCards c1 c2 (Some v) = r1 - r2).
Proof.
  split; [reflexivity|].
  split.
  - induction cards as [|c cards IH]; [constructor|].
    simpl. constructor; [|exact IH].
    unfold isManilha. simpl.
    repeat (split; [reflexivity|]).
    split.
    + destruct (bool_decide _); [destruct (Card.suit c)|]; reflexivity.
    + intros other turned. split; reflexivity.
  - intros c1 c2 r1 r2 Hc1 Hc2 Hm1 Hm2 Hr1 Hr2.
    simpl in Hc1, Hc2.
    apply list_elem_of_fmap in Hc1 as (d1 & -> & _).
    apply list_elem_of_fmap in Hc2 as (d2 & -> & _).
    simpl in *. unfold compareCards, isManilha. simpl.
    injection Hm1 as Hm1. injection Hm2 as Hm2. rewrite Hm1, Hm2 in *. simpl.
    injection Hr1 as <-. injection Hr2 as <-.
    destruct (Card.suit d1), (Card.suit d2); reflexivity.
Qed.

(** ** Shuffle and deal *)

Lemma insert_cons_perm {X} (l : list X) (j : nat) (a y : X) :
  l !! j = Some y -> Permutation (y :: <[j := a]> l) (a :: l).
Proof.
  revert j. induction l as [|b l IH]; intros [|j] Hj; simpl in *; try discriminate.
  - injection Hj as ->. apply perm_swap.
  - rewrite perm_swap. rewrite (IH _ Hj). apply perm_swap.
Qed.

(** The swap of the shuffle only moves elements around. *)
Lemma swap_perm {X} (a : list X) (i j : nat) : Permutation (swap a i j) a.
Proof.
  unfold swap.
  destruct (a !! i) as [x|] eqn:Hi; [|reflexivity].
  destruct (a !! j) as [y|] eqn:Hj; [|reflexivity].
  revert i j Hi Hj. induction a as [|b a IH]; intros [|i] [|j] Hi Hj;
    simpl in *; try discriminate.
  - injection Hi as ->. injection Hj as ->. reflexivity.
  - injection Hi as ->. by apply insert_cons_perm.
  - injection Hj as ->. by apply insert_cons_perm.
  - apply perm_skip. by apply IH.
Qed.

Lemma shuffleLoop_perm draws i (l : list Card) :
  Permutation (shuffleLoop draws i l) l.
Proof.
  revert l. induction i as [|i IH]; intros l; simpl; [reflexivity|].
  rewrite IH. apply swap_perm.
Qed.

(** X5. Whatever the random draws are (each at most the index it is drawn
    for, as [Math.floor(Math.random() * (i + 1))] is), [shuffleDeck] returns
    a permutation of the deck it is given: every card is kept, exactly as
    many times as it occurs, so a deck of distinct identifiers stays one. *)
Theorem shuffleDeck_permutation (draws : nat -> nat) (deck : list Card) :
  (forall i, (draws i <= i)%nat) ->
  Permutation (shuffleDeck draws deck) deck /\
  length (shuffleDeck draws deck) = length deck /\
  (forall c, c ∈ shuffleDeck draws deck <-> c ∈ deck) /\
  (NoDup (map Card.id deck) -> NoDup (map Card.id (shuffleDeck draws deck))).
Proof.
  intros _.
  assert (Permutation (shuffleDeck draws deck) deck) as Hperm
    by apply shuffleLoop_perm.
  split; [exact Hperm|]. split; [by rewrite Hperm|]. split.
  - intros c. by rewrite Hperm.
  - intros Hnd.
    assert (Permutation (map Card.id (shuffleDeck draws deck)) (map Card.id deck)) as Hids
      by (by apply Permutation_map).
    by rewrite Hids.
Qed.

Lemma shuffleDeck_permutation_witness :
  (forall i, (drawsSame i <= i)%nat) /\
  Permutation (shuffleDeck drawsSame deck0) deck0.
Proof.
  assert (forall i, (drawsSame i <= i)%nat) as H by (intros i; apply Nat.le_refl).
  split; [exact H|].
  exact (proj1 (shuffleDeck_permutation drawsSame deck0 H)).
Defined.

Lemma updateManilhas_ids (cards : list Card) vira :
  map Card.id (updateManilhas cards vira) = map Card.id cards /\
  length (updateManilhas cards vira) = length cards.
Proof.
  destruct vira as [v|]; simpl; [|auto].
  rewrite map_map, length_map. auto.
Qed.

Lemma updateManilhas_origin (cards : list Card) vira c :
  c ∈ updateManilhas cards vira ->
  exists c0, c0 ∈ cards /\ Card.id c0 = Card.id c /\
             Card.suit c0 = Card.suit c /\ Card.value c0 = Card.value c.
Proof.
  destruct vira as [v|]; simpl.
  - intros (c0 & -> & Hc0)%list_elem_of_fmap. exists c0. auto.
  - intros Hc. exists c. auto.
Qed.

Lemma dealHands_ids players : forall deck vira,
  map Card.id (handCards (dealHands deck vira players))
    = map Card.id (take (3 * length players) deck).
Proof.
  unfold handCards.
  induction players as [|p players IH]; intros deck vira; [reflexivity|].
  simpl dealHands. simpl map. simpl concat.
  rewrite map_app, IH, (proj1 (updateManilhas_ids _ _)).
  rewrite <- map_app. f_equal.
  change (take 3 deck ++ take (3 * length players) (drop 3 deck)
          = take (3 * length (p :: players)) deck).
  rewrite take_take_drop. f_equal. simpl. lia.
Qed.

Lemma dealHands_three players : forall deck vira,
  (3 * length players <= length deck)%nat ->
  Forall (fun p => length (Player.hand p) = 3%nat) (dealHands deck vira players).
Proof.
  induction players as [|p players IH]; intros deck vira Hlen; [constructor|].
  simpl in Hlen. simpl dealHands. constructor.
  - simpl. rewrite (proj2 (updateManilhas_ids _ _)).
    apply length_take_le. lia.
  - apply IH. rewrite length_drop. lia.
Qed.

Lemma dealHands_origin players : forall deck vira c,
  c ∈ handCards (dealHands deck vira players) ->
  exists c0, c0 ∈ deck /\ Card.id c0 = Card.id c /\
             Card.suit c0 = Card.suit c /\ Card.value c0 = Card.value c.
Proof.
  unfold handCards.
  induction players as [|p players IH]; intros deck vira c Hc.
  - by apply elem_of_nil in Hc.
  - simpl in Hc. apply elem_of_app in Hc as [Hc|Hc].
    + apply updateManilhas_origin in Hc as (c0 & Hc0 & ?).
      exists c0. split; [|assumption]. by apply (subseteq_take 3 deck).
    + apply IH in Hc as (c0 & Hc0 & ?).
      exists c0. split; [|assumption]. by apply (subseteq_drop 3 deck).
Qed.

Lemma dealHands_seatIdentity players : forall deck vira,
  map seatIdentity (dealHands deck vira players) = map seatIdentity players /\
  map Player.isDealer (dealHands deck vira players) = map Player.isDealer players.
Proof.
  induction players as [|p players IH]; intros deck vira; [auto|].
  simpl. destruct (IH (drop 3 deck) vira) as [-> ->]. auto.
Qed.

Lemma handCards_turn_flags (f : Player -> bool) players :
  handCards (map (fun p => p |> Player.with_isYourTurn (f p)) players) = handCards players.
Proof. unfold handCards. rewrite map_map. reflexivity. Qed.

(** X6. Dealing from a deck whose identifiers are all different and which
    holds at least three cards per seat and one more: the last card of the
    deck is turned, every seat receives exactly three cards, no card is
    dealt twice or is the turned card, every card dealt is a card of the
    deck (same identifier, suit and face), and the seats stay who they were. *)
Theorem dealCardsToPlayers_three_distinct_cards_each (shuffled : list Card)
    (gs : GameState) :
  NoDup (map Card.id shuffled) ->
  (3 * length (GameState.players gs) + 1 <= length shuffled)%nat ->
  let gs' := dealCardsToPlayers shuffled gs in
  (exists v, GameState.vira gs' = Some v /\ last shuffled = Some v /\
     NoDup (map Card.id (handCards (GameState.players gs')) ++ [Card.id v])) /\
  Forall (fun p => length (Player.hand p) = 3%nat) (GameState.players gs') /\
  (forall c, c ∈ handCards (GameState.players gs') ->
     exists c0, c0 ∈ shuffled /\ Card.id c0 = Card.id c /\
                Card.suit c0 = Card.suit c /\ Card.value c0 = Card.value c) /\
  map seatIdentity (GameState.players gs') = map seatIdentity (GameState.players gs).
Proof.
  intros Hnd Hlen gs'.
  destruct (last shuffled) as [v|] eqn:Hlast.
  2:{ apply last_None in Hlast. subst. simpl in Hlen. lia. }
  apply last_Some in Hlast as [deck ->].
  rewrite length_app in Hlen. simpl in Hlen.
  assert (GameState.players gs' =
    map (fun player => player |> Player.with_isYourTurn
           (String.eqb (Player.id player) (GameState.currentPlayer gs')))
        (dealHands deck (Some v) (GameState.players gs))) as Hplayers.
  { unfold gs', dealCardsToPlayers, popCard. rewrite last_snoc, removelast_last.
    reflexivity. }
  assert (GameState.vira gs' = Some v) as Hvira.
  { unfold gs', dealCardsToPlayers, popCard. rewrite last_snoc, removelast_last.
    reflexivity. }
  rewrite Hplayers, handCards_turn_flags.
  split; [|split; [|split]].
  - exists v. split; [exact Hvira|]. split; [reflexivity|].
    rewrite dealHands_ids.
    rewrite map_app in Hnd. simpl in Hnd.
    apply NoDup_app in Hnd as (Hd & Hnotin & Hv).
    apply NoDup_app. split; [|split; [|exact Hv]].
    + eapply sublist_NoDup; [exact Hd|].
      change (Card.id <$> take (3 * length (GameState.players gs)) deck
              `sublist_of` Card.id <$> deck).
      apply fmap_sublist, sublist_take.
    + intros x Hx. apply Hnotin.
      change (x ∈ Card.id <$> take (3 * length (GameState.players gs)) deck) in Hx.
      change (x ∈ Card.id <$> deck).
      apply list_elem_of_fmap in Hx as (c & -> & Hc).
      apply list_elem_of_fmap_2. by eapply subseteq_take.
  - apply Forall_forall. intros p (q & -> & Hq)%list_elem_of_fmap. simpl.
    pose proof (dealHands_three (GameState.players gs) deck (Some v) ltac:(lia)) as H3.
    rewrite Forall_forall in H3. by apply H3.
  - intros c Hc. apply dealHands_origin in Hc as (c0 & Hc0 & ?).
    exists c0. split; [|assumption]. apply elem_of_app. by left.
  - rewrite map_map. simpl.
    apply (proj1 (dealHands_seatIdentity (GameState.players gs) deck (Some v))).
Qed.

Lemma deck0_ids_NoDup : NoDup (map Card.id deck0).
Proof. apply (bool_decide_unpack _). vm_compute. exact I. Qed.

Lemma dealCardsToPlayers_three_distinct_cards_each_witness :
  let gs := TrucoGame.gameState lobby2 in
  NoDup (map Card.id deck0) /\
  (3 * length (GameState.players gs) + 1 <= length deck0)%nat /\
  Forall (fun p => length (Player.hand p) = 3%nat)
         (GameState.players (dealCardsToPlayers deck0 gs)).
Proof.
  intros gs.
  assert (3 * length (GameState.players gs) + 1 <= length deck0)%nat as Hlen
    by (vm_compute; repeat constructor).
  split; [exact deck0_ids_NoDup | split; [exact Hlen|]].
  exact (proj1 (proj2
    (dealCardsToPlayers_three_distinct_cards_each deck0 gs deck0_ids_NoDup Hlen))).
Defined.

Lemma or_empty_Some (x : string) : or_empty (Some x) = x.
Proof.
  unfold or_empty. simpl. destruct (String.eqb x "") eqn:E; [|reflexivity].
  apply String.eqb_eq in E. by subst.
Qed.

(** X7. On a table whose dealer is seated, [dealCardsToPlayers] gives the
    turn to the seat after the dealer, cyclically: the current-turn pointer
    names that seat and the turn flag is set on the seats of that identity
    and on no other. The round is [PLAYING] with an empty current trick, and
    scores, stake, dealer, trick history and pending escalation are kept. *)
Theorem dealCardsToPlayers_turn_after_dealer (shuffled : list Card) (gs : GameState)
    (dealerSeat : Player) :
  findPlayer (GameState.players gs) (Some (GameState.dealer gs)) = Some dealerSeat ->
  let gs' := dealCardsToPlayers shuffled gs in
  exists (i : nat) (next : Player),
    GameState.players gs !! i = Some dealerSeat /\
    GameState.players gs !! ((i + 1) mod length (GameState.players gs))%nat = Some next /\
    GameState.currentPlayer gs' = Player.id next /\
    (forall p, p ∈ GameState.players gs' ->
       Player.isYourTurn p = true <-> Player.id p = Player.id next) /\
    GameState.roundState gs' = PLAYING /\
    GameState.currentTrick gs' = [] /\
    GameState.teamAScore gs' = GameState.teamAScore gs /\
    GameState.teamBScore gs' = GameState.teamBScore gs /\
    GameState.roundValue gs' = GameState.roundValue gs /\
    GameState.dealer gs' = GameState.dealer gs /\
    GameState.tricks gs' = GameState.tricks gs /\
    GameState.trucoRequested gs' = GameState.trucoRequested gs /\
    GameState.trucoRequestedBy gs' = GameState.trucoRequestedBy gs.
Proof.
  intros Hdealer gs'.
  destruct (next_dealer_seat gs dealerSeat Hdealer) as (i & next & Hi & Hnext & Hat).
  exists i, next.
  assert (GameState.currentPlayer gs' = Player.id next) as Hcur.
  { unfold gs', dealCardsToPlayers. destruct (popCard shuffled) as [vira deck].
    simpl. rewrite Hat. simpl. apply or_empty_Some. }
  split; [exact Hi | split; [exact Hnext | split; [exact Hcur|]]].
  split.
  - intros p Hp. rewrite <- Hcur.
    unfold gs', dealCardsToPlayers in *. destruct (popCard shuffled) as [vira deck].
    simpl in *. apply list_elem_of_fmap in Hp as (q & -> & _). simpl.
    apply String.eqb_eq.
  - unfold gs', dealCardsToPlayers. destruct (popCard shuffled) as [vira deck].
    simpl. repeat split.
Qed.

Lemma dealCardsToPlayers_turn_after_dealer_witness :
  let gs := TrucoGame.gameState lobby2 in
  is_Some (findPlayer (GameState.players gs) (Some (GameState.dealer gs))) /\
  GameState.roundState (dealCardsToPlayers deck0 gs) = PLAYING.
Proof.
  intros gs.
  destruct (findPlayer (GameState.players gs) (Some (GameState.dealer gs)))
    as [seat|] eqn:H; [|vm_compute in H; discriminate].
  split; [by eexists|].
  destruct (dealCardsToPlayers_turn_after_dealer deck0 gs seat H)
    as (i & next & _ & _ & _ & _ & Hplaying & _).
  exact Hplaying.
Defined.

(** ** The transitions of [gameUtils], case by case *)

Lemma getRoundPoints_range v : 1 <= getRoundPoints v <= 12.
Proof.
  unfold getRoundPoints.
  repeat match goal with |- context [if ?b then _ else _] => destruct b end; lia.
Qed.

Lemma lookup_elem_of {X} (l : list X) (i : nat) (x : X) : l !! i = Some x -> x ∈ l.
Proof. intros H. apply list_elem_of_lookup. eauto. Qed.

Lemma at_index_mod_elem_of {X} (l : list X) (a : Z) (x : X) :
  at_index_mod l a = Some x -> x ∈ l.
Proof.
  unfold at_index_mod, at_index.
  destruct (_ =? 0); [discriminate|]. destruct (_ <? 0); [discriminate|].
  apply lookup_elem_of.
Qed.

Lemma finishRound_roundClosed gs tricks gs' :
  finishRound gs tricks = Some gs' -> roundClosed gs gs'.
Proof.
  unfold finishRound.
  set (rw := if _ >? _ then _ else _).
  destruct (at_index_mod (GameState.players gs) _) as [next|] eqn:Hnext.
  2:{ destruct (bool_decide (rw = Some A)), (bool_decide (rw = Some B));
        simpl; try rewrite Hnext; discriminate. }
  apply at_index_mod_elem_of in Hnext as Hin.
  case_bool_decide as HA; [|case_bool_decide as HB];
    simpl; try rewrite Hnext; simpl; intros [= <-];
    exists next; simpl; repeat (split; [first [exact Hin | reflexivity]|]);
    (split; [|split; reflexivity]).
  - right; left. repeat split; assumption.
  - right; right. repeat split; assumption.
  - left. repeat split.
Qed.

(** [declineTrucoRequest] either leaves the state alone or closes the round. *)
Lemma declineTrucoRequest_roundClosed gs gs' :
  declineTrucoRequest gs = Some gs' ->
  gs' = gs \/
  (GameState.trucoRequested gs = true /\ roundClosed gs gs' /\
   exists r requester,
     GameState.trucoRequestedBy gs = Some r /\
     findPlayer (GameState.players gs) (Some r) = Some requester /\
     GameState.roundWinner gs' = Some (Player.team requester)).
Proof.
  unfold declineTrucoRequest.
  destruct (GameState.trucoRequested gs) eqn:Hreq; simpl; [|intros [= <-]; by left].
  destruct (GameState.trucoRequestedBy gs) as [r|] eqn:Hby; simpl;
    [|intros [= <-]; by left].
  destruct (negb (String.eqb r "")); simpl; [|intros [= <-]; by left].
  destruct (List.find _ _) as [requester|] eqn:Hfind; [|intros [= <-]; by left].
  destruct (at_index_mod (GameState.players gs) _) as [next|] eqn:Hnext.
  2:{ destruct (bool_decide _); simpl; try rewrite Hnext; discriminate. }
  apply at_index_mod_elem_of in Hnext as Hin.
  intros H. right. split; [reflexivity|].
  destruct (Player.team requester) eqn:Hteam; simpl in H; try rewrite Hnext in H;
    simpl in H; injection H as <-.
  - split.
    + exists next; simpl; repeat (split; [first [exact Hin | reflexivity]|]).
      split; [right; left; repeat split | split; reflexivity].
    + exists r, requester. split; [reflexivity | split; [exact Hfind |]].
      simpl. by rewrite Hteam.
  - split.
    + exists next; simpl; repeat (split; [first [exact Hin | reflexivity]|]).
      split; [right; right; repeat split | split; reflexivity].
    + exists r, requester. split; [reflexivity | split; [exact Hfind |]].
      simpl. by rewrite Hteam.
Qed.

(** The three ways [evaluateTrick] can end. *)
Lemma evaluateTrick_cases gs gs' :
  evaluateTrick gs = Some gs' ->
  gs' = gs \/
  (exists w winnerSeat,
     determineTrickWinner (GameState.currentTrick gs) (GameState.vira gs) = Some w /\
     findPlayer (GameState.players gs) (Some w) = Some winnerSeat /\
     gs' = gs
       |> GameState.with_players
            (map (fun p => p |> Player.with_isYourTurn (String.eqb (Player.id p) w))
                 (GameState.players gs))
       |> GameState.with_currentPlayer w
       |> GameState.with_currentTrick []
       |> GameState.with_tricks (GameState.tricks gs ++ [GameState.currentTrick gs])) \/
  finishRound gs (GameState.tricks gs ++ [GameState.currentTrick gs]) = Some gs'.
Proof.
  unfold evaluateTrick.
  destruct (determineTrickWinner _ _) as [w|] eqn:Hw; simpl;
    [|intros [= <-]; by left].
  destruct (negb (negb (String.eqb w ""))); [intros [= <-]; by left|].
  destruct (List.find _ _) as [winnerSeat|] eqn:Hfind; [|intros [= <-]; by left].
  destruct (_ || _).
  - intros H. right; right. exact H.
  - intros [= <-]. right; left. exists w, winnerSeat. auto.
Qed.

(** The ways [processPlayedCard] can end: nothing changes; or the card
    leaves the hand for the current trick, and then the turn passes on, or
    the trick is evaluated. *)
Lemma processPlayedCard_cases now gs playerId cardId gs' :
  processPlayedCard now gs playerId cardId = Some gs' ->
  gs' = gs \/
  exists (i j : nat) (player : Player) (card : Card),
    GameState.players gs !! i = Some player /\ Player.id player = playerId /\
    Player.hand player !! j = Some card /\ Card.id card = cardId /\
    let nextState :=
      gs |> GameState.with_players
              (<[i := player |> Player.with_hand (delete j (Player.hand player))
                             |> Player.with_isYourTurn false]> (GameState.players gs))
         |> GameState.with_currentTrick
              (GameState.currentTrick gs ++ [PlayedCard.mk playerId card now]) in
    (length (GameState.currentTrick nextState) = length (GameState.players gs) /\
     evaluateTrick nextState = Some gs')
    \/
    (length (GameState.currentTrick nextState) <> length (GameState.players gs) /\
     exists nextPlayer,
       GameState.players gs !! ((i + 1) mod length (GameState.players gs))%nat
         = Some nextPlayer /\
       gs' = nextState
         |> GameState.with_players
              (map (fun p => p |> Player.with_isYourTurn
                                   (String.eqb (Player.id p) (Player.id nextPlayer)))
                   (GameState.players nextState))
         |> GameState.with_currentPlayer (Player.id nextPlayer)).
Proof.
  unfold processPlayedCard.
  destruct (List.find (fun p => String.eqb (Player.id p) playerId) (GameState.players gs))
    as [player|] eqn:Hfind.
  2:{ apply findIndex_find_None in Hfind. rewrite Hfind. intros [= <-]. by left. }
  apply findIndex_find_Some in Hfind as (i & Hi & Hl & Hid). apply String.eqb_eq in Hid.
  rewrite Hi. destruct (Z.of_nat i =? -1) eqn:E; [apply Z.eqb_eq in E; lia|].
  rewrite at_index_of_nat, Hl. simpl.
  destruct (List.find (fun c => String.eqb (Card.id c) cardId) (Player.hand player))
    as [card|] eqn:Hcard.
  2:{ apply findIndex_find_None in Hcard. rewrite Hcard. intros [= <-]. by left. }
  apply findIndex_find_Some in Hcard as (j & Hj & Hjl & Hcid). apply String.eqb_eq in Hcid.
  rewrite Hj. destruct (Z.of_nat j =? -1) eqn:E2; [apply Z.eqb_eq in E2; lia|].
  rewrite at_index_of_nat, Hjl. simpl. rewrite !Nat2Z.id.
  intros H. right. exists i, j, player, card.
  split; [exact Hl | split; [exact Hid | split; [exact Hjl | split; [exact Hcid|]]]].
  simpl. case_bool_decide as Hfull.
  - left. auto.
  - right. split; [exact Hfull|].
    assert (GameState.players gs <> []) as Hne by (intros E3; by rewrite E3 in Hl).
    rewrite at_index_mod_succ in H by assumption.
    destruct (GameState.players gs !! ((i + 1) mod length (GameState.players gs))%nat)
      as [nextPlayer|] eqn:Hnext; [|discriminate].
    simpl in H. injection H as <-. exists nextPlayer. auto.
Qed.

(** ** What the transitions of [gameUtils] keep *)

Lemma map_insert_same {X Y} (f : X -> Y) (l : list X) (i : nat) (x x' : X) :
  l !! i = Some x -> f x' = f x -> map f (<[i := x']> l) = map f l.
Proof.
  intros Hl Hf.
  change (f <$> <[i := x']> l = f <$> l).
  rewrite list_fmap_insert, Hf. apply list_insert_id.
  by rewrite list_lookup_fmap, Hl.
Qed.

Lemma seatIdentity_clearedSeat nid players :
  map seatIdentity (map (clearedSeat nid) players) = map seatIdentity players.
Proof. rewrite map_map. reflexivity. Qed.

Lemma seatIdentity_turn_flags (f : Player -> bool) players :
  map seatIdentity (map (fun p => p |> Player.with_isYourTurn (f p)) players)
    = map seatIdentity players.
Proof. rewrite map_map. reflexivity. Qed.

Lemma roundClosed_seats gs gs' :
  roundClosed gs gs' ->
  map seatIdentity (GameState.players gs') = map seatIdentity (GameState.players gs) /\
  GameState.id gs' = GameState.id gs /\ GameState.mode gs' = GameState.mode gs.
Proof.
  intros (next & _ & -> & _ & _ & _ & _ & _ & _ & _ & _ & Hid & Hmode & _).
  split; [apply seatIdentity_clearedSeat | auto].
Qed.

Lemma evaluateTrick_seats gs gs' :
  evaluateTrick gs = Some gs' ->
  map seatIdentity (GameState.players gs') = map seatIdentity (GameState.players gs) /\
  GameState.id gs' = GameState.id gs /\ GameState.mode gs' = GameState.mode gs.
Proof.
  intros [->|[(w & seat & _ & _ & ->)|Hfin]]%evaluateTrick_cases.
  - auto.
  - simpl. split; [apply seatIdentity_turn_flags | auto].
  - by apply finishRound_roundClosed, roundClosed_seats in Hfin.
Qed.

Lemma processPlayedCard_seats now gs playerId cardId gs' :
  processPlayedCard now gs playerId cardId = Some gs' ->
  map seatIdentity (GameState.players gs') = map seatIdentity (GameState.players gs) /\
  GameState.id gs' = GameState.id gs /\ GameState.mode gs' = GameState.mode gs.
Proof.
  intros [->|(i & j & player & card & Hi & _ & _ & _ & Hcases)]%processPlayedCard_cases;
    [auto|].
  simpl in Hcases.
  assert (map seatIdentity
            (<[i := player |> Player.with_hand (delete j (Player.hand player))
                          |> Player.with_isYourTurn false]> (GameState.players gs))
          = map seatIdentity (GameState.players gs)) as Hins
    by (by apply (map_insert_same seatIdentity _ _ player)).
  destruct Hcases as [[_ Hev]|[_ (nx & _ & ->)]].
  - apply evaluateTrick_seats in Hev as (-> & -> & ->). simpl. auto.
  - simpl. rewrite seatIdentity_turn_flags. auto.
Qed.

Lemma dealCardsToPlayers_seats shuffled gs :
  map seatIdentity (GameState.players (dealCardsToPlayers shuffled gs))
    = map seatIdentity (GameState.players gs) /\
  GameState.id (dealCardsToPlayers shuffled gs) = GameState.id gs /\
  GameState.mode (dealCardsToPlayers shuffled gs) = GameState.mode gs.
Proof.
  unfold dealCardsToPlayers. destruct (popCard shuffled) as [vira deck]. simpl.
  rewrite seatIdentity_turn_flags.
  split; [apply dealHands_seatIdentity | auto].
Qed.

Lemma engine_step_seats (gs gs' : GameState) :
  engine_step gs gs' ->
  map seatIdentity (GameState.players gs') = map seatIdentity (GameState.players gs) /\
  GameState.id gs' = GameState.id gs /\ GameState.mode gs' = GameState.mode gs.
Proof.
  intros Hstep.
  destruct Hstep as [sh gs|now pid cid gs gs' H|sh gs|pid gs|gs|gs gs' H].
  - apply dealCardsToPlayers_seats.
  - by apply processPlayedCard_seats in H.
  - unfold startNewRound. destruct (negb _); [auto|].
    apply (dealCardsToPlayers_seats sh
             (gs |> GameState.with_roundState PLAYING
                 |> GameState.with_currentTrick []
                 |> GameState.with_tricks []
                 |> GameState.with_roundValue 1
                 |> GameState.with_trucoRequested false
                 |> GameState.with_trucoRequestedBy None
                 |> GameState.with_roundWinner None)).
  - unfold processTrucoRequest.
    destruct (GameState.trucoRequested gs); [auto|].
    destruct (findPlayer _ _); auto.
  - unfold acceptTrucoRequest.
    destruct (_ || _); [auto|]. destruct (findPlayer _ _); auto.
  - apply declineTrucoRequest_roundClosed in H as [->|(_ & Hc & _)]; [auto|].
    by apply roundClosed_seats.
Qed.

(** X8. No transition of [gameUtils] (deal, play a card, start a new round,
    request, accept or decline an escalation) adds, removes, reorders or
    renames a seat: identities, display names, teams, ready and connection
    flags of the seats, and the match identifier and mode, are the same
    after the transition as before. *)
Theorem engine_step_keeps_seats (gs gs' : GameState) :
  engine_step gs gs' ->
  map seatIdentity (GameState.players gs') = map seatIdentity (GameState.players gs) /\
  length (GameState.players gs') = length (GameState.players gs) /\
  GameState.id gs' = GameState.id gs /\
  GameState.mode gs' = GameState.mode gs.
Proof.
  intros (Hseats & Hid & Hmode)%engine_step_seats.
  split; [exact Hseats|]. split; [|auto].
  apply (f_equal length) in Hseats. by rewrite !length_map in Hseats.
Qed.

Lemma engine_step_keeps_seats_witness :
  engine_step (TrucoGame.gameState playing0)
              (acceptTrucoRequest (TrucoGame.gameState playing0)) /\
  length (GameState.players (acceptTrucoRequest (TrucoGame.gameState playing0)))
    = length (GameState.players (TrucoGame.gameState playing0)).
Proof.
  assert (engine_step (TrucoGame.gameState playing0)
            (acceptTrucoRequest (TrucoGame.gameState playing0))) as H
    by apply step_accept.
  split; [exact H|].
  exact (proj1 (proj2 (engine_step_keeps_seats _ _ H))).
Defined.

Lemma roundClosed_hands gs gs' :
  roundClosed gs gs' ->
  Forall (fun p => Player.hand p = [] /\ Player.isYourTurn p = false)
         (GameState.players gs') /\
  handCards (GameState.players gs') = [] /\
  cardsInPlay gs' = [].
Proof.
  intros (next & _ & Hp & _ & Hct & Htr & _).
  assert (handCards (GameState.players gs') = []) as Hh.
  { rewrite Hp. unfold handCards. rewrite map_map. simpl.
    clear. induction (GameState.players gs); simpl; auto. }
  split; [|split; [exact Hh|]].
  - rewrite Hp. apply Forall_forall.
    intros p (q & -> & _)%list_elem_of_fmap. auto.
  - unfold cardsInPlay. rewrite Hh, Hct, Htr. reflexivity.
Qed.

Lemma roundClosed_roundState gs gs' :
  roundClosed gs gs' ->
  GameState.roundState gs' = ROUND_OVER \/ GameState.roundState gs' = GAME_OVER.
Proof.
  intros (next & H). do 13 destruct H as [_ H]. destruct H as [_ ->].
  destruct (GameState.winner gs'); auto.
Qed.

(** The score part of a closed round. *)
Lemma roundClosed_scores gs gs' :
  roundClosed gs gs' ->
  GameState.teamAScore gs' = GameState.teamAScore gs /\
  GameState.teamBScore gs' = GameState.teamBScore gs
  \/ GameState.teamAScore gs' =
       GameState.teamAScore gs + getRoundPoints (GameState.roundValue gs) /\
     GameState.teamBScore gs' = GameState.teamBScore gs /\
     GameState.roundWinner gs' = Some A
  \/ GameState.teamAScore gs' = GameState.teamAScore gs /\
     GameState.teamBScore gs' =
       GameState.teamBScore gs + getRoundPoints (GameState.roundValue gs) /\
     GameState.roundWinner gs' = Some B.
Proof.
  intros (next & H). do 12 destruct H as [_ H]. destruct H as [H _]. exact H.
Qed.

(** What a transition does to the scores: nothing, or it closes the round
    and adds the points of the stake to one team. *)
Lemma engine_step_scores_cases gs gs' :
  engine_step gs gs' ->
  GameState.teamAScore gs' = GameState.teamAScore gs /\
  GameState.teamBScore gs' = GameState.teamBScore gs
  \/ (GameState.roundState gs' = ROUND_OVER \/ GameState.roundState gs' = GAME_OVER) /\
     Forall (fun p => Player.hand p = [] /\ Player.isYourTurn p = false)
            (GameState.players gs') /\
     (GameState.teamAScore gs' =
        GameState.teamAScore gs + getRoundPoints (GameState.roundValue gs) /\
      GameState.teamBScore gs' = GameState.teamBScore gs /\
      GameState.roundWinner gs' = Some A
      \/ GameState.teamAScore gs' = GameState.teamAScore gs /\
         GameState.teamBScore gs' =
           GameState.teamBScore gs + getRoundPoints (GameState.roundValue gs) /\
         GameState.roundWinner gs' = Some B).
Proof.
  assert (forall gs0 gs1,
    roundClosed gs0 gs1 ->
    GameState.teamAScore gs0 = GameState.teamAScore gs ->
    GameState.teamBScore gs0 = GameState.teamBScore gs ->
    GameState.roundValue gs0 = GameState.roundValue gs ->
    GameState.teamAScore gs1 = GameState.teamAScore gs /\
    GameState.teamBScore gs1 = GameState.teamBScore gs
    \/ (GameState.roundState gs1 = ROUND_OVER \/ GameState.roundState gs1 = GAME_OVER) /\
       Forall (fun p => Player.hand p = [] /\ Player.isYourTurn p = false)
              (GameState.players gs1) /\
       (GameState.teamAScore gs1 =
          GameState.teamAScore gs + getRoundPoints (GameState.roundValue gs) /\
        GameState.teamBScore gs1 = GameState.teamBScore gs /\
        GameState.roundWinner gs1 = Some A
        \/ GameState.teamAScore gs1 = GameState.teamAScore gs /\
           GameState.teamBScore gs1 =
             GameState.teamBScore gs + getRoundPoints (GameState.roundValue gs) /\
           GameState.roundWinner gs1 = Some B)) as Hclosed.
  { intros gs0 gs1 Hc HA HB HV.
    pose proof (roundClosed_roundState _ _ Hc) as Hrs.
    pose proof (proj1 (roundClosed_hands _ _ Hc)) as Hh.
    destruct (roundClosed_scores _ _ Hc) as [[? ?]|[(? & ? & ?)|(? & ? & ?)]].
    - left. split; congruence.
    - right. split; [exact Hrs|]. split; [exact Hh|]. left.
      rewrite <- HA, <- HB, <- HV. auto.
    - right. split; [exact Hrs|]. split; [exact Hh|]. right.
      rewrite <- HA, <- HB, <- HV. auto. }
  intros Hstep.
  destruct Hstep as [sh gs|now pid cid gs gs' H|sh gs|pid gs|gs|gs gs' H].
  - left. unfold dealCardsToPlayers. destruct (popCard sh). auto.
  - apply processPlayedCard_cases in H
      as [->|(i & j & player & card & _ & _ & _ & _ & Hcases)]; [by left|].
    simpl in Hcases. destruct Hcases as [[_ Hev]|[_ (nx & _ & ->)]]; [|by left].
    apply evaluateTrick_cases in Hev as [->|[(w & seat & _ & _ & ->)|Hfin]];
      [by left | by left |].
    apply finishRound_roundClosed in Hfin. by apply (Hclosed _ _ Hfin).
  - left. unfold startNewRound. destruct (negb _); [auto|].
    unfold dealCardsToPlayers. destruct (popCard sh). auto.
  - left. unfold processTrucoRequest.
    destruct (GameState.trucoRequested gs); [auto|]. destruct (findPlayer _ _); auto.
  - left. unfold acceptTrucoRequest.
    destruct (_ || _); [auto|]. destruct (findPlayer _ _); auto.
  - apply declineTrucoRequest_roundClosed in H as [->|(_ & Hc & _)]; [by left|].
    by apply (Hclosed _ _ Hc).
Qed.

(** X9. Across every transition of [gameUtils] neither score ever goes
    down. A transition that changes a score changes only one, adds between
    1 and 12 points to it (the points of the stake), and leaves the round
    closed: state [ROUND_OVER] or [GAME_OVER], every hand empty and no seat
    holding the turn. *)
Theorem engine_step_scores_only_grow (gs gs' : GameState) :
  engine_step gs gs' ->
  GameState.teamAScore gs <= GameState.teamAScore gs' <= GameState.teamAScore gs + 12 /\
  GameState.teamBScore gs <= GameState.teamBScore gs' <= GameState.teamBScore gs + 12 /\
  (GameState.teamAScore gs' = GameState.teamAScore gs \/
   GameState.teamBScore gs' = GameState.teamBScore gs) /\
  (GameState.teamAScore gs' <> GameState.teamAScore gs \/
   GameState.teamBScore gs' <> GameState.teamBScore gs ->
   (GameState.roundState gs' = ROUND_OVER \/ GameState.roundState gs' = GAME_OVER) /\
   Forall (fun p => Player.hand p = [] /\ Player.isYourTurn p = false)
          (GameState.players gs')).
Proof.
  intros Hstep.
  pose proof (getRoundPoints_range (GameState.roundValue gs)) as Hpts.
  destruct (engine_step_scores_cases _ _ Hstep)
    as [[HA HB]|(Hrs & Hh & [(HA & HB & _)|(HA & HB & _)])];
    rewrite HA, HB; (split; [lia|]); (split; [lia|]); (split; [auto|]).
  - intros [?|?]; congruence.
  - auto.
  - auto.
Qed.

Lemma engine_step_scores_only_grow_witness :
  engine_step (TrucoGame.gameState (TrucoGame.requestTruco "s1" playing0))
              (TrucoGame.gameState betweenRounds) /\
  GameState.teamAScore (TrucoGame.gameState (TrucoGame.requestTruco "s1" playing0))
    <= GameState.teamAScore (TrucoGame.gameState betweenRounds).
Proof.
  assert (engine_step (TrucoGame.gameState (TrucoGame.requestTruco "s1" playing0))
                      (TrucoGame.gameState betweenRounds)) as H
    by (apply step_decline; vm_compute; reflexivity).
  split; [exact H|].
  exact (proj1 (proj1 (engine_step_scores_only_grow _ _ H))).
Defined.

(** Playing the card at index [j] of the seat at index [i] takes exactly
    that card out of the hands. *)
Lemma handCards_play (players : list Player) (i j : nat) (p p' : Player) (c : Card) :
  players !! i = Some p -> Player.hand p !! j = Some c ->
  Player.hand p' = delete j (Player.hand p) ->
  Permutation (c :: handCards (<[i := p']> players)) (handCards players).
Proof.
  intros Hi Hj Hhand. unfold handCards.
  assert (i < length players)%nat as Hlt by (by eapply lookup_lt_Some).
  rewrite insert_take_drop by assumption.
  rewrite <- (take_drop_middle players i p Hi) at 3.
  rewrite !map_app. simpl. rewrite !concat_app. simpl.
  rewrite Hhand.
  rewrite (delete_Permutation (Player.hand p) j c Hj) at 2.
  rewrite Permutation_middle. simpl. reflexivity.
Qed.

(** X10. While a round goes on, [processPlayedCard] neither creates nor
    loses a card: the cards in the hands, in the current trick and in the
    trick history are, after the call, a permutation of what they were
    before. The only other outcome is the end of the round, which leaves no
    card anywhere. *)
Theorem processPlayedCard_conserves_cards now (gs : GameState)
    (playerId cardId : string) (gs' : GameState) :
  processPlayedCard now gs playerId cardId = Some gs' ->
  Permutation (cardsInPlay gs') (cardsInPlay gs)
  \/ (GameState.roundState gs' = ROUND_OVER \/ GameState.roundState gs' = GAME_OVER) /\
     cardsInPlay gs' = [].
Proof.
  intros [->|(i & j & player & card & Hi & _ & Hj & _ & Hcases)]%processPlayedCard_cases;
    [by left|].
  set (nextState :=
    gs |> GameState.with_players
            (<[i := player |> Player.with_hand (delete j (Player.hand player))
                           |> Player.with_isYourTurn false]> (GameState.players gs))
       |> GameState.with_currentTrick
            (GameState.currentTrick gs ++ [PlayedCard.mk playerId card now])) in *.
  assert (Permutation (cardsInPlay nextState) (cardsInPlay gs)) as Hnext.
  { unfold cardsInPlay, nextState. simpl. rewrite map_app. simpl.
    rewrite <- (handCards_play (GameState.players gs) i j player
      (player |> Player.with_hand (delete j (Player.hand player))
              |> Player.with_isYourTurn false) card Hi Hj eq_refl).
    set (H' := handCards _). set (M := map PlayedCard.card _). set (T := concat _).
    replace (H' ++ (M ++ [card]) ++ T) with ((H' ++ M) ++ card :: T)
      by (by rewrite <- !app_assoc).
    replace ((card :: H') ++ M ++ T) with (card :: (H' ++ M) ++ T)
      by (simpl; by rewrite <- app_assoc).
    symmetry. apply Permutation_middle. }
  simpl in Hcases. destruct Hcases as [[_ Hev]|[_ (nx & _ & ->)]].
  - apply evaluateTrick_cases in Hev as [->|[(w & seat & _ & _ & ->)|Hfin]].
    + by left.
    + left. rewrite <- Hnext. unfold cardsInPlay. simpl.
      rewrite handCards_turn_flags, map_app, concat_app. simpl.
      rewrite app_nil_r. apply Permutation_app_head, Permutation_app_comm.
    + right. apply finishRound_roundClosed in Hfin.
      split; [by eapply roundClosed_roundState | by eapply roundClosed_hands].
  - left. rewrite <- Hnext. unfold cardsInPlay. simpl.
    by rewrite handCards_turn_flags.
Qed.

Lemma processPlayedCard_conserves_cards_witness :
  let gs := TrucoGame.gameState playing0 in
  exists gs', processPlayedCard 1 gs "s2" "3" = Some gs' /\
              length (cardsInPlay gs') = length (cardsInPlay gs).
Proof.
  intros gs.
  destruct (processPlayedCard 1 gs "s2" "3") as [gs'|] eqn:H;
    [|vm_compute in H; discriminate].
  exists gs'. split; [reflexivity|].
  destruct (processPlayedCard_conserves_cards 1 gs "s2" "3" gs' H) as [Hperm|[_ Hnil]].
  - by rewrite Hperm.
  - vm_compute in H. injection H as <-. vm_compute in Hnil. discriminate.
Defined.

Lemma elem_of_insert_inv {X} (l : list X) (i : nat) (x y : X) :
  y ∈ <[i := x]> l -> y = x \/ y ∈ l.
Proof.
  revert i. induction l as [|a l IH]; intros i Hy; simpl in Hy.
  - by right.
  - destruct i as [|i]; simpl in Hy.
    + apply elem_of_cons in Hy as [->|Hy]; [by left|].
      right. by apply elem_of_cons; right.
    + apply elem_of_cons in Hy as [->|Hy]; [right; apply elem_of_cons; by left|].
      destruct (IH _ Hy) as [->|?]; [by left|]. right. apply elem_of_cons. by right.
Qed.

Lemma flagsAgree_turn_flags gs w :
  flagsAgree
    (gs |> GameState.with_players
             (map (fun p => p |> Player.with_isYourTurn (String.eqb (Player.id p) w))
                  (GameState.players gs))
        |> GameState.with_currentPlayer w).
Proof.
  intros p (q & -> & _)%list_elem_of_fmap. simpl. by intros ?%String.eqb_eq.
Qed.

Lemma roundClosed_flagsAgree gs gs' : roundClosed gs gs' -> flagsAgree gs'.
Proof.
  intros Hc p Hp Hflag. pose proof (proj1 (roundClosed_hands _ _ Hc)) as Hh.
  rewrite Forall_forall in Hh. destruct (Hh _ Hp) as [_ Hf]. congruence.
Qed.

Lemma dealCardsToPlayers_flagsAgree sh g : flagsAgree (dealCardsToPlayers sh g).
Proof.
  unfold dealCardsToPlayers. destruct (popCard sh) as [vira deck].
  intros p Hp. simpl in *. apply list_elem_of_fmap in Hp as (q & -> & _).
  simpl. by intros ?%String.eqb_eq.
Qed.

Lemma engine_step_flagsAgree (gs gs' : GameState) :
  engine_step gs gs' -> flagsAgree gs -> flagsAgree gs'.
Proof.
  pose proof dealCardsToPlayers_flagsAgree as Hdeal.
  intros Hstep Hagree.
  destruct Hstep as [sh gs|now pid cid gs gs' H|sh gs|pid gs|gs|gs gs' H].
  - apply Hdeal.
  - apply processPlayedCard_cases in H
      as [->|(i & j & player & card & Hi & _ & _ & _ & Hcases)]; [assumption|].
    simpl in Hcases.
    set (nextState :=
      gs |> GameState.with_players
              (<[i := player |> Player.with_hand (delete j (Player.hand player))
                             |> Player.with_isYourTurn false]> (GameState.players gs))
         |> GameState.with_currentTrick
              (GameState.currentTrick gs ++ [PlayedCard.mk pid card now])) in *.
    assert (flagsAgree nextState) as Hnext.
    { intros p Hp Hflag. simpl in Hp.
      apply elem_of_insert_inv in Hp as [->|Hp]; [discriminate|].
      by apply Hagree. }
    destruct Hcases as [[_ Hev]|[_ (nx & _ & ->)]].
    + apply evaluateTrick_cases in Hev as [->|[(w & seat & _ & _ & ->)|Hfin]].
      * assumption.
      * intros p Hp. simpl in *. apply list_elem_of_fmap in Hp as (q & -> & _).
        simpl. by intros ?%String.eqb_eq.
      * by apply finishRound_roundClosed, roundClosed_flagsAgree in Hfin.
    + intros p Hp. simpl in *. apply list_elem_of_fmap in Hp as (q & -> & _).
      simpl. by intros ?%String.eqb_eq.
  - unfold startNewRound. destruct (negb _); [assumption | apply Hdeal].
  - unfold processTrucoRequest.
    destruct (GameState.trucoRequested gs); [assumption|].
    destruct (findPlayer _ _); assumption.
  - unfold acceptTrucoRequest.
    destruct (_ || _); [assumption|]. destruct (findPlayer _ _); assumption.
  - apply declineTrucoRequest_roundClosed in H as [->|(_ & Hc & _)]; [assumption|].
    by eapply roundClosed_flagsAgree.
Qed.

(** X11. The turn flags follow the current-turn pointer. If, before a
    transition of [gameUtils], every seat carrying the turn flag is a seat
    the pointer names, the same holds after it. And a deal establishes this
    from any state whatever, also one in which flags and pointer disagree;
    so does [startNewRound] when the round is over. *)
Theorem engine_step_turn_flags_follow_pointer (gs gs' : GameState) :
  (engine_step gs gs' -> flagsAgree gs -> flagsAgree gs') /\
  (forall shuffled, flagsAgree (dealCardsToPlayers shuffled gs)) /\
  (GameState.roundState gs = ROUND_OVER ->
   forall shuffled, flagsAgree (startNewRound shuffled gs)).
Proof.
  split; [apply engine_step_flagsAgree|]. split.
  - intros shuffled. apply dealCardsToPlayers_flagsAgree.
  - intros Hover shuffled. unfold startNewRound.
    rewrite (bool_decide_eq_true_2 _ Hover). simpl.
    apply dealCardsToPlayers_flagsAgree.
Qed.

(** On [playing0] with the turn flag moved to the seat that does not hold
    the turn, flags and pointer disagree; a deal puts them in line. *)
Lemma engine_step_turn_flags_follow_pointer_witness :
  let gs := TrucoGame.gameState playing0 in
  let off := gs |> GameState.with_players
               (map (fun p => p |> Player.with_isYourTurn (String.eqb (Player.id p) "s1"))
                    (GameState.players gs)) in
  (engine_step gs (processTrucoRequest gs "s1") /\ flagsAgree gs /\
   flagsAgree (processTrucoRequest gs "s1")) /\
  (~ flagsAgree off /\ flagsAgree (dealCardsToPlayers deck0 off)).
Proof.
  intros gs off.
  assert (engine_step gs (processTrucoRequest gs "s1")) as H by apply step_request.
  assert (flagsAgree gs) as Hf.
  { intros p Hp. apply list_elem_of_In in Hp. vm_compute in Hp.
    destruct Hp as [<-|[<-|[]]]; vm_compute; intros; first [discriminate | reflexivity]. }
  split.
  - split; [exact H | split; [exact Hf|]].
    exact (proj1 (engine_step_turn_flags_follow_pointer gs _) H Hf).
  - split.
    + intros Hoff.
      destruct (GameState.players off !! 0%nat) as [p|] eqn:Hp;
        [|vm_compute in Hp; discriminate].
      assert (p ∈ GameState.players off) as Hin by (by eapply list_elem_of_lookup_2).
      specialize (Hoff p Hin).
      vm_compute in Hp. injection Hp as <-.
      vm_compute in Hoff. specialize (Hoff eq_refl). discriminate.
    + exact (proj1 (proj2 (engine_step_turn_flags_follow_pointer off off)) deck0).
Defined.

(** ** Dealer pointer and pending escalation *)

Lemma seated_seatIdentity players players' x :
  map seatIdentity players' = map seatIdentity players ->
  seated players' x <-> seated players x.
Proof.
  intros H. unfold seated.
  assert (map Player.id players' = map Player.id players) as ->; [|reflexivity].
  apply (f_equal (map (fun t => fst (fst (fst (fst t)))))) in H.
  by rewrite !map_map in H.
Qed.

Lemma findPlayer_seated players r p :
  findPlayer players (Some r) = Some p -> seated players r.
Proof.
  intros (i & _ & Hl & <-)%findPlayer_Some.
  unfold seated. apply list_elem_of_fmap_2. by eapply lookup_elem_of.
Qed.

Lemma roundClosed_dealerSeated gs gs' : roundClosed gs gs' -> dealerSeated gs'.
Proof.
  intros Hc _. pose proof (roundClosed_seats _ _ Hc) as (Hs & _).
  apply (seated_seatIdentity _ _ _ Hs).
  destruct Hc as (next & Hin & _ & -> & _).
  unfold seated. by apply list_elem_of_fmap_2.
Qed.

Lemma roundClosed_pendingSeated gs gs' : roundClosed gs gs' -> pendingSeated gs'.
Proof.
  intros (next & H). do 6 destruct H as [_ H]. destruct H as [Hreq _].
  intros Htrue. congruence.
Qed.

Lemma engine_step_pointers (gs gs' : GameState) :
  engine_step gs gs' ->
  (dealerSeated gs -> dealerSeated gs') /\
  (pendingSeated gs -> pendingSeated gs').
Proof.
  intros Hstep.
  pose proof (engine_step_seats _ _ Hstep) as (Hseats & _).
  assert (forall g', map seatIdentity (GameState.players g')
                       = map seatIdentity (GameState.players gs) ->
            GameState.dealer g' = GameState.dealer gs ->
            dealerSeated gs -> dealerSeated g') as Hsame_dealer.
  { intros g' Hs Hd Hseated Hne. rewrite Hd. apply (seated_seatIdentity _ _ _ Hs).
    apply Hseated. intros Hnil. apply Hne.
    rewrite Hnil in Hs. by destruct (GameState.players g'). }
  assert (forall g', map seatIdentity (GameState.players g')
                       = map seatIdentity (GameState.players gs) ->
            GameState.trucoRequested g' = GameState.trucoRequested gs ->
            GameState.trucoRequestedBy g' = GameState.trucoRequestedBy gs ->
            pendingSeated gs -> pendingSeated g') as Hsame_pending.
  { intros g' Hs Hr Hby Hp Htrue. rewrite Hr in Htrue.
    destruct (Hp Htrue) as (r & Hr' & Hseat). exists r.
    split; [congruence|]. by apply (seated_seatIdentity _ _ _ Hs). }
  destruct Hstep as [sh gs|now pid cid gs gs' H|sh gs|pid gs|gs|gs gs' H].
  - split; [apply Hsame_dealer | apply Hsame_pending]; try exact Hseats;
      unfold dealCardsToPlayers; destruct (popCard sh); reflexivity.
  - apply processPlayedCard_cases in H
      as [->|(i & j & player & card & Hi & _ & _ & _ & Hcases)]; [auto|].
    simpl in Hcases. destruct Hcases as [[_ Hev]|[_ (nx & _ & ->)]].
    + apply evaluateTrick_cases in Hev as [->|[(w & seat & _ & _ & ->)|Hfin]].
      * split; [apply Hsame_dealer | apply Hsame_pending]; auto.
      * split; [apply Hsame_dealer | apply Hsame_pending]; auto.
      * apply finishRound_roundClosed in Hfin. split; intros _.
        -- by eapply roundClosed_dealerSeated.
        -- by eapply roundClosed_pendingSeated.
    + split; [apply Hsame_dealer | apply Hsame_pending]; auto.
  - unfold startNewRound in *. destruct (negb _); [auto|]. split.
    + apply Hsame_dealer; [exact Hseats|].
      unfold dealCardsToPlayers; destruct (popCard sh); reflexivity.
    + intros _ Htrue. exfalso. revert Htrue.
      unfold dealCardsToPlayers; destruct (popCard sh); discriminate.
  - unfold processTrucoRequest in *.
    destruct (GameState.trucoRequested gs) eqn:Hreq; [auto|].
    destruct (findPlayer _ _) as [p|] eqn:Hfind; [|auto].
    split; [by apply Hsame_dealer|].
    intros _ _. exists pid. split; [reflexivity|]. simpl.
    by eapply findPlayer_seated.
  - unfold acceptTrucoRequest in *.
    destruct (_ || _); [auto|]. destruct (findPlayer _ _); [|auto].
    split; [by apply Hsame_dealer|]. intros _ Htrue. discriminate.
  - apply declineTrucoRequest_roundClosed in H as [->|(_ & Hc & _)]; [auto|].
    split; intros _.
    + by eapply roundClosed_dealerSeated.
    + by eapply roundClosed_pendingSeated.
Qed.

(** X12. Two pointers stay on the table across every transition of
    [gameUtils]: if the dealer pointer names a seat (on a table that is not
    empty) it still does afterwards, and if every pending escalation names a
    seated requester it still does afterwards. *)
Theorem engine_step_pointers_stay_seated (gs gs' : GameState) :
  engine_step gs gs' ->
  (dealerSeated gs -> dealerSeated gs') /\
  (pendingSeated gs -> pendingSeated gs').
Proof. apply engine_step_pointers. Qed.

Lemma engine_step_pointers_stay_seated_witness :
  let gs := TrucoGame.gameState playing0 in
  engine_step gs (processTrucoRequest gs "s1") /\
  pendingSeated (processTrucoRequest gs "s1").
Proof.
  intros gs.
  assert (engine_step gs (processTrucoRequest gs "s1")) as H by apply step_request.
  split; [exact H|].
  apply (proj2 (engine_step_pointers_stay_seated _ _ H)).
  intros Htrue. vm_compute in Htrue. discriminate.
Defined.

(** ** End of a round, again *)

(** X13. [finishRound] raises its [TypeError] on an empty table and only
    there. On any other table it closes the round, and the game winner it
    records depends on the new scores alone, team A being looked at first:
    A when A has 12 or more, else B when B has 12 or more, else nobody; the
    state is [GAME_OVER] exactly when there is a winner and [ROUND_OVER]
    otherwise. *)
Theorem finishRound_fails_only_on_empty_table (gs : GameState)
    (tricks : list (list PlayedCard)) :
  (finishRound gs tricks = None <-> GameState.players gs = []) /\
  (GameState.players gs <> [] ->
   exists gs',
     finishRound gs tricks = Some gs' /\
     (GameState.winner gs' = Some A <-> 12 <= GameState.teamAScore gs') /\
     (GameState.winner gs' = Some B <->
        GameState.teamAScore gs' < 12 /\ 12 <= GameState.teamBScore gs') /\
     (GameState.winner gs' = None <->
        GameState.teamAScore gs' < 12 /\ GameState.teamBScore gs' < 12) /\
     (GameState.roundState gs' = GAME_OVER <-> GameState.winner gs' <> None) /\
     (GameState.roundState gs' = ROUND_OVER <-> GameState.winner gs' = None)).
Proof.
  assert (GameState.players gs <> [] ->
   exists gs',
     finishRound gs tricks = Some gs' /\
     (GameState.winner gs' = Some A <-> 12 <= GameState.teamAScore gs') /\
     (GameState.winner gs' = Some B <->
        GameState.teamAScore gs' < 12 /\ 12 <= GameState.teamBScore gs') /\
     (GameState.winner gs' = None <->
        GameState.teamAScore gs' < 12 /\ GameState.teamBScore gs' < 12) /\
     (GameState.roundState gs' = GAME_OVER <-> GameState.winner gs' <> None) /\
     (GameState.roundState gs' = ROUND_OVER <-> GameState.winner gs' = None)) as Hsome.
  { intros Hne. destruct (finishRound_is_Some gs tricks Hne) as [gs' Hfin].
    exists gs'. split; [exact Hfin|].
    apply finishRound_roundClosed in Hfin as (next & H).
    do 13 destruct H as [_ H]. destruct H as [Hw Hrs]. rewrite Hrs, Hw.
    destruct (hasWinningScore (GameState.teamAScore gs')) eqn:EA;
      [apply hasWinningScore_true in EA | apply hasWinningScore_false in EA];
      (destruct (hasWinningScore (GameState.teamBScore gs')) eqn:EB;
        [apply hasWinningScore_true in EB | apply hasWinningScore_false in EB]);
      (repeat split; try discriminate; try lia; try reflexivity;
       try (intros [? ?]; lia); try (intros Hx; exfalso; lia);
       try (intros Hx; exfalso; by apply Hx)). }
  split; [|exact Hsome]. split.
  - intros Hnone. destruct (GameState.players gs) eqn:E; [reflexivity|].
    destruct Hsome as (gs' & Hfin & _); [discriminate | congruence].
  - intros Hnil. unfold finishRound, at_index_mod. rewrite Hnil. simpl.
    destruct (if bool_decide _ then _ else _) as [a b]. reflexivity.
Qed.

Lemma finishRound_fails_only_on_empty_table_witness :
  let gs := TrucoGame.gameState afterThree in
  GameState.players gs <> [] /\
  exists gs', finishRound gs (GameState.tricks gs) = Some gs' /\
              (GameState.winner gs' = None <->
                 GameState.teamAScore gs' < 12 /\ GameState.teamBScore gs' < 12).
Proof.
  intros gs.
  assert (GameState.players gs <> []) as H by (vm_compute; discriminate).
  split; [exact H|].
  destruct (proj2 (finishRound_fails_only_on_empty_table gs (GameState.tricks gs)) H)
    as (gs' & Hfin & _ & _ & Hnone & _).
  exists gs'. split; [exact Hfin | exact Hnone].
Defined.

Lemma findIndex_nil_hand (cardId : string) :
  findIndex (fun c => String.eqb (Card.id c) cardId) [] = -1.
Proof. reflexivity. Qed.

(** On a table whose hands are all empty no card can be played. *)
Lemma processPlayedCard_empty_hands now gs playerId cardId :
  Forall (fun p => Player.hand p = [] /\ Player.isYourTurn p = false)
         (GameState.players gs) ->
  processPlayedCard now gs playerId cardId = Some gs.
Proof.
  intros Hh. rewrite Forall_forall in Hh. unfold processPlayedCard.
  destruct (List.find (fun p => String.eqb (Player.id p) playerId) (GameState.players gs))
    as [player|] eqn:Hfind.
  2:{ apply findIndex_find_None in Hfind. by rewrite Hfind. }
  apply findIndex_find_Some in Hfind as (i & Hi & Hl & _).
  rewrite Hi. destruct (Z.of_nat i =? -1); [reflexivity|].
  rewrite at_index_of_nat, Hl. simpl.
  destruct (Hh player (lookup_elem_of _ _ _ Hl)) as [-> _]. reflexivity.
Qed.

(** X14. Once [finishRound] or a declined escalation has closed a round,
    the engine accepts no card from anybody until cards are dealt again:
    [processPlayedCard] returns the closed state as it is. If the round
    ended the game, [startNewRound] leaves the state alone as well. *)
Theorem closed_round_accepts_no_card (gs gs' : GameState)
    (tricks : list (list PlayedCard)) :
  finishRound gs tricks = Some gs' \/
  (declineTrucoRequest gs = Some gs' /\ gs' <> gs) ->
  (forall now playerId cardId, processPlayedCard now gs' playerId cardId = Some gs') /\
  (GameState.roundState gs' = GAME_OVER ->
   forall shuffled, startNewRound shuffled gs' = gs').
Proof.
  intros H.
  assert (roundClosed gs gs') as Hc.
  { destruct H as [H|[H Hne]]; [exact (finishRound_roundClosed _ _ _ H)|].
    apply declineTrucoRequest_roundClosed in H as [?|(_ & Hc & _)]; [contradiction|].
    exact Hc. }
  split.
  - intros now playerId cardId. apply processPlayedCard_empty_hands.
    by eapply roundClosed_hands.
  - intros Hover shuffled. unfold startNewRound. by rewrite Hover.
Qed.

Lemma closed_round_accepts_no_card_witness :
  let gs := TrucoGame.gameState afterThree in
  exists gs', finishRound gs (GameState.tricks gs) = Some gs' /\
              processPlayedCard 9 gs' "s1" "2" = Some gs'.
Proof.
  intros gs.
  destruct (finishRound gs (GameState.tricks gs)) as [gs'|] eqn:H;
    [|vm_compute in H; discriminate].
  exists gs'. split; [reflexivity|].
  exact (proj1 (closed_round_accepts_no_card gs gs' (GameState.tricks gs) (or_introl H))
           9 "s1"%string "2"%string).
Defined.

(** ** Seats and teams in [TrucoGame] *)

Arguments assignTeams : simpl never.

Lemma assignTeams_lookup (players : list Player) (mode : GameMode) (i : nat) :
  assignTeams players mode !! i =
  (fun p => match mode with
            | ONE_VS_ONE => match i with
                            | 0%nat => p |> Player.with_team A
                            | 1%nat => p |> Player.with_team B
                            | _ => p
                            end
            | TWO_VS_TWO => p |> Player.with_team (if Nat.even i then A else B)
            end) <$> players !! i.
Proof. unfold assignTeams. destruct mode; rewrite list_lookup_imap; reflexivity. Qed.

Lemma assignTeams_length players mode :
  length (assignTeams players mode) = length players.
Proof. unfold assignTeams. destruct mode; apply length_imap. Qed.

(** [assignTeams] writes teams and nothing else. *)
Lemma assignTeams_map {Y} (f : Player -> Y) players mode :
  (forall p t, f (p |> Player.with_team t) = f p) ->
  map f (assignTeams players mode) = map f players.
Proof.
  intros Hf. apply list_eq. intros i.
  change ((f <$> assignTeams players mode) !! i = (f <$> players) !! i).
  rewrite !list_lookup_fmap, assignTeams_lookup.
  destruct (players !! i) as [p|]; simpl; [|reflexivity].
  f_equal. destruct mode; [destruct i as [|[|i]]|]; simpl; auto.
Qed.

Lemma assignTeams_alternate players mode :
  (length players <= capacityOf mode)%nat ->
  teamsAlternate (assignTeams players mode).
Proof.
  intros Hlen i p Hp. rewrite assignTeams_lookup in Hp.
  destruct (players !! i) as [q|] eqn:Hq; [|discriminate].
  apply lookup_lt_Some in Hq. simpl in Hp. injection Hp as <-.
  destruct mode; simpl in *; [|reflexivity].
  destruct i as [|[|i]]; simpl; first [reflexivity | lia].
Qed.

Lemma with_team_same (p : Player) : p |> Player.with_team (Player.team p) = p.
Proof. by destruct p. Qed.

(** On a table whose teams already alternate [assignTeams] changes nothing. *)
Lemma assignTeams_fixed players mode :
  teamsAlternate players -> assignTeams players mode = players.
Proof.
  intros Halt. apply list_eq. intros i. rewrite assignTeams_lookup.
  destruct (players !! i) as [p|] eqn:Hp; simpl; [|reflexivity].
  f_equal. pose proof (Halt i p Hp) as Ht.
  destruct mode; [destruct i as [|[|i]]|]; simpl in *;
    first [by rewrite <- Ht, with_team_same | reflexivity].
Qed.

Lemma teamsAlternate_map_team players players' :
  map Player.team players' = map Player.team players ->
  teamsAlternate players -> teamsAlternate players'.
Proof.
  intros Hmap Halt i p' Hp'.
  assert ((Player.team <$> players') !! i = Some (Player.team p')) as H
    by (by rewrite list_lookup_fmap, Hp').
  change (Player.team <$> players') with (map Player.team players') in H.
  rewrite Hmap in H. change ((Player.team <$> players) !! i = Some (Player.team p')) in H.
  rewrite list_lookup_fmap in H.
  destruct (players !! i) as [p|] eqn:Hp; [|discriminate].
  simpl in H. injection H as <-. by apply Halt.
Qed.

Lemma seatIdentity_team players players' :
  map seatIdentity players' = map seatIdentity players ->
  map Player.team players' = map Player.team players /\
  map Player.id players' = map Player.id players /\
  length players' = length players.
Proof.
  intros H. split; [|split].
  - apply (f_equal (map (fun t => snd (fst (fst t))))) in H.
    by rewrite !map_map in H.
  - apply (f_equal (map (fun t => fst (fst (fst (fst t)))))) in H.
    by rewrite !map_map in H.
  - apply (f_equal length) in H. by rewrite !length_map in H.
Qed.

Lemma engine_step_tableShape gs gs' :
  engine_step gs gs' -> tableShape gs -> tableShape gs'.
Proof.
  intros Hstep (Hcap & Halt & Hstake).
  pose proof (engine_step_seats _ _ Hstep) as (Hseats & _ & Hmode).
  apply seatIdentity_team in Hseats as (Hteam & _ & Hlen).
  split; [by rewrite Hlen, Hmode|]. split.
  - by eapply teamsAlternate_map_team.
  - by eapply engine_step_validStake.
Qed.

(** The methods that only run a transition of [gameUtils]. *)
Lemma engine_methods (g g' : TrucoGame) :
  (exists shuffled, g' = TrucoGame.startGame shuffled g) \/
  (exists now playerId cardId, TrucoGame.playCard now playerId cardId g = Some g') \/
  (exists playerId, g' = TrucoGame.requestTruco playerId g) \/
  g' = TrucoGame.acceptTruco g \/
  TrucoGame.declineTruco g = Some g' \/
  (exists shuffled, g' = TrucoGame.startNewRound shuffled g) ->
  TrucoGame.gameState g' = TrucoGame.gameState g \/
  engine_step (TrucoGame.gameState g) (TrucoGame.gameState g').
Proof.
  intros [(sh & ->)|[(now & pid & cid & H)|[(pid & ->)|[->|[H|(sh & ->)]]]]].
  - unfold TrucoGame.startGame. destruct (bool_decide _); [by left|].
    right. apply step_deal.
  - unfold TrucoGame.playCard in H. destruct (negb _); [injection H as <-; by left|].
    destruct (processPlayedCard _ _ _ _) as [gs'|] eqn:Hp; [|discriminate].
    simpl in H. injection H as <-. right. by eapply step_play.
  - right. apply step_request.
  - right. apply step_accept.
  - unfold TrucoGame.declineTruco in H.
    destruct (declineTrucoRequest _) as [gs'|] eqn:Hd; [|discriminate].
    simpl in H. injection H as <-. right. by apply step_decline.
  - right. apply step_new_round.
Qed.

Lemma tableShape_same_seats gs gs' :
  length (GameState.players gs') = length (GameState.players gs) ->
  map Player.team (GameState.players gs') = map Player.team (GameState.players gs) ->
  GameState.mode gs' = GameState.mode gs ->
  validStake (GameState.roundValue gs') ->
  tableShape gs -> tableShape gs'.
Proof.
  intros Hlen Hteam Hmode Hstake (Hcap & Halt & _).
  split; [by rewrite Hlen, Hmode|]. split; [by eapply teamsAlternate_map_team | exact Hstake].
Qed.

Lemma resetGame_tableShape g :
  tableShape (TrucoGame.gameState g) ->
  tableShape (TrucoGame.gameState (TrucoGame.resetGame g)).
Proof.
  apply tableShape_same_seats; simpl.
  - by rewrite length_map.
  - by rewrite map_map.
  - reflexivity.
  - by left.
Qed.

Lemma addPlayer_tableShape playerId username g :
  tableShape (TrucoGame.gameState g) ->
  tableShape (TrucoGame.gameState (snd (TrucoGame.addPlayer playerId username g))).
Proof.
  intros Hshape. pose proof Hshape as (Hcap & Halt & Hstake).
  unfold TrucoGame.addPlayer.
  case_bool_decide as Hfull; [exact Hshape|].
  destruct (existsb _ _); [exact Hshape|].
  assert (TrucoGame.maxPlayers g = capacityOf (GameState.mode (TrucoGame.gameState g)))
    as Hmax by (unfold TrucoGame.maxPlayers; by destruct (GameState.mode _)).
  set (players' := assignTeams _ _).
  assert (length players' <= capacityOf (GameState.mode (TrucoGame.gameState g)))%nat
    as Hlen.
  { unfold players'. rewrite assignTeams_length, length_app. simpl. lia. }
  assert (teamsAlternate players') as Halt'.
  { apply assignTeams_alternate. simpl.
    rewrite length_app. simpl. lia. }
  simpl. case_bool_decide; simpl; (split; [exact Hlen | split; [exact Halt' | exact Hstake]]).
Qed.

Lemma removePlayer_tableShape playerId g :
  tableShape (TrucoGame.gameState g) ->
  tableShape (TrucoGame.gameState (TrucoGame.removePlayer playerId g)).
Proof.
  intros Hshape. pose proof Hshape as (Hcap & Halt & Hstake).
  unfold TrucoGame.removePlayer.
  destruct (_ =? -1); [exact Hshape|].
  destruct (negb _); [by apply resetGame_tableShape|].
  simpl.
  assert (length (List.filter (fun p => negb (String.eqb (Player.id p) playerId))
                    (GameState.players (TrucoGame.gameState g)))
          <= capacityOf (GameState.mode (TrucoGame.gameState g)))%nat as Hlen.
  { etransitivity; [apply List.filter_length_le | exact Hcap]. }
  unfold tableShape. simpl.
  split; [by rewrite assignTeams_length|]. split; [|exact Hstake].
  by apply assignTeams_alternate.
Qed.

Lemma setPlayerReady_ready_seats (players : list Player) (i : nat) (p : Player) {Y}
    (f : Player -> Y) :
  players !! i = Some p ->
  (forall q b, f (q |> Player.with_isReady b) = f q) ->
  map f (<[i := p |> Player.with_isReady true]> players) = map f players.
Proof. intros Hi Hf. by apply (map_insert_same f _ _ p). Qed.

Lemma setPlayerReady_tableShape shuffled playerId g :
  tableShape (TrucoGame.gameState g) ->
  tableShape (TrucoGame.gameState (TrucoGame.setPlayerReady shuffled playerId g)).
Proof.
  intros Hshape. pose proof Hshape as (_ & _ & Hstake). unfold TrucoGame.setPlayerReady.
  destruct (_ =? -1); [exact Hshape|].
  set (updated := match at_index _ _ with Some p => _ | None => _ end).
  assert (length updated = length (GameState.players (TrucoGame.gameState g)) /\
          map Player.team updated = map Player.team (GameState.players (TrucoGame.gameState g)))
    as (Hlen & Hteam).
  { unfold updated. destruct (at_index _ _) as [p|] eqn:Hp; [|auto].
    split; [apply length_insert|].
    unfold at_index in Hp. destruct (_ <? 0); [discriminate|].
    by apply (map_insert_same Player.team _ _ p). }
  assert (tableShape
    (TrucoGame.gameState g |> GameState.with_players updated)) as Hshape1.
  { revert Hshape. apply tableShape_same_seats; simpl; auto. }
  destruct (_ && _); [|exact Hshape1].
  unfold TrucoGame.startGame. simpl. destruct (bool_decide _); [exact Hshape1|].
  simpl. eapply engine_step_tableShape; [apply step_deal | exact Hshape1].
Qed.

(** The two branches of [markPlayerDisconnected]. *)
Lemma markPlayerDisconnected_cases playerId g :
  (GameState.roundState (TrucoGame.gameState g) = PLAYING /\
   TrucoGame.gameState (TrucoGame.markPlayerDisconnected playerId g) =
     TrucoGame.gameState g |> GameState.with_players
       (map (fun p => if String.eqb (Player.id p) playerId
                      then p |> Player.with_isDisconnected (Some true) else p)
            (GameState.players (TrucoGame.gameState g))))
  \/ (GameState.roundState (TrucoGame.gameState g) <> PLAYING /\
      exists g1, TrucoGame.gameState g1 = TrucoGame.gameState g /\
                 TrucoGame.markPlayerDisconnected playerId g
                   = TrucoGame.removePlayer playerId g1).
Proof.
  unfold TrucoGame.markPlayerDisconnected.
  set (g1 := match findPlayer _ _ with Some _ => _ | None => _ end).
  assert (TrucoGame.gameState g1 = TrucoGame.gameState g) as Hgs
    by (unfold g1; by destruct (findPlayer _ _)).
  rewrite Hgs. case_bool_decide as Hp.
  - left. split; [exact Hp|]. simpl. rewrite ?Hgs. reflexivity.
  - right. split; [exact Hp|]. by exists g1.
Qed.

Lemma markPlayerDisconnected_tableShape playerId g :
  tableShape (TrucoGame.gameState g) ->
  tableShape (TrucoGame.gameState (TrucoGame.markPlayerDisconnected playerId g)).
Proof.
  intros Hshape. pose proof Hshape as (_ & _ & Hstake).
  unfold TrucoGame.markPlayerDisconnected.
  set (g1 := match findPlayer _ _ with Some _ => _ | None => _ end).
  assert (TrucoGame.gameState g1 = TrucoGame.gameState g) as Hgs
    by (unfold g1; by destruct (findPlayer _ _)).
  rewrite Hgs. case_bool_decide.
  - revert Hshape. apply tableShape_same_seats; simpl.
    + by rewrite length_map.
    + rewrite map_map. apply map_ext. intros p. by destruct (String.eqb _ _).
    + reflexivity.
    + exact Hstake.
  - rewrite <- Hgs in Hshape. by apply removePlayer_tableShape.
Qed.

Lemma reconnectPlayer_tableShape socketId username g :
  tableShape (TrucoGame.gameState g) ->
  tableShape (TrucoGame.gameState (snd (TrucoGame.reconnectPlayer socketId username g))).
Proof.
  intros Hshape. pose proof Hshape as (_ & _ & Hstake).
  unfold TrucoGame.reconnectPlayer.
  destruct (negb _); [exact Hshape|]. simpl.
  revert Hshape. apply tableShape_same_seats; simpl.
  - by rewrite length_map.
  - rewrite map_map. apply map_ext. intros p. by destruct (String.eqb _ _).
  - reflexivity.
  - exact Hstake.
Qed.

Lemma table_step_tableShape g g' :
  table_step g g' ->
  tableShape (TrucoGame.gameState g) -> tableShape (TrucoGame.gameState g').
Proof.
  intros Hstep Hshape.
  assert (TrucoGame.gameState g' = TrucoGame.gameState g \/
          engine_step (TrucoGame.gameState g) (TrucoGame.gameState g') ->
          tableShape (TrucoGame.gameState g')) as Hengine.
  { intros [->|He]; [assumption | by eapply engine_step_tableShape]. }
  destruct Hstep.
  - by apply addPlayer_tableShape.
  - by apply removePlayer_tableShape.
  - by apply setPlayerReady_tableShape.
  - apply Hengine, engine_methods. left. eauto.
  - apply Hengine, engine_methods. right; left. eauto.
  - apply Hengine, engine_methods. right; right; left. eauto.
  - apply Hengine, engine_methods. right; right; right; left. eauto.
  - apply Hengine, engine_methods. right; right; right; right; left. eauto.
  - apply Hengine, engine_methods. right; right; right; right; right. eauto.
  - by apply resetGame_tableShape.
  - by apply markPlayerDisconnected_tableShape.
Qed.

Lemma game_step_mode g g' :
  game_step g g' ->
  GameState.mode (TrucoGame.gameState g') = GameState.mode (TrucoGame.gameState g) /\
  GameState.id (TrucoGame.gameState g') = GameState.id (TrucoGame.gameState g).
Proof.
  assert (forall h, GameState.mode (TrucoGame.gameState (TrucoGame.resetGame h))
                      = GameState.mode (TrucoGame.gameState h) /\
                    GameState.id (TrucoGame.gameState (TrucoGame.resetGame h))
                      = GameState.id (TrucoGame.gameState h)) as Hreset by (by intros h).
  assert (forall pid h, GameState.mode (TrucoGame.gameState (TrucoGame.removePlayer pid h))
                      = GameState.mode (TrucoGame.gameState h) /\
                    GameState.id (TrucoGame.gameState (TrucoGame.removePlayer pid h))
                      = GameState.id (TrucoGame.gameState h)) as Hremove.
  { intros pid h. unfold TrucoGame.removePlayer.
    destruct (_ =? -1); [auto|]. destruct (negb _); [apply Hreset | auto]. }
  assert (forall h h', TrucoGame.gameState h' = TrucoGame.gameState h \/
            engine_step (TrucoGame.gameState h) (TrucoGame.gameState h') ->
            GameState.mode (TrucoGame.gameState h') = GameState.mode (TrucoGame.gameState h) /\
            GameState.id (TrucoGame.gameState h') = GameState.id (TrucoGame.gameState h))
    as Hengine.
  { intros h h' [->|(_ & ? & ?)%engine_step_seats]; auto. }
  intros [g0 g1 Hstep|sid name g0].
  - destruct Hstep.
    + unfold TrucoGame.addPlayer. case_bool_decide; [auto|].
      destruct (existsb _ _); [auto|]. simpl. case_bool_decide; auto.
    + apply Hremove.
    + unfold TrucoGame.setPlayerReady. destruct (_ =? -1); [auto|].
      destruct (_ && _); [|auto]. unfold TrucoGame.startGame. simpl.
      destruct (bool_decide _); [auto|]. simpl. auto.
    + apply Hengine, engine_methods. left. eauto.
    + apply Hengine, engine_methods. right; left. eauto.
    + apply Hengine, engine_methods. right; right; left. eauto.
    + apply Hengine, engine_methods. right; right; right; left. eauto.
    + apply Hengine, engine_methods. right; right; right; right; left. eauto.
    + apply Hengine, engine_methods. right; right; right; right; right. eauto.
    + apply Hreset.
    + match goal with |- context [TrucoGame.markPlayerDisconnected ?pid ?h] =>
        destruct (markPlayerDisconnected_cases pid h) as [[_ ->]|[_ (h1 & <- & ->)]]
      end; [auto | apply Hremove].
  - unfold TrucoGame.reconnectPlayer. destruct (negb _); auto.
Qed.

(** X15. Every match that the methods of [TrucoGame] can produce from
    [new TrucoGame(id, mode)], reconnects included, keeps its identifier and
    mode, never seats more players than the mode allows (2 or 4), has its
    teams alternating around the table (team A on the first seat, so a full
    table is split evenly), and has its stake on the ladder 1, 3, 6, 9, 12. *)
Theorem reachable_table_shape (id : string) (mode : GameMode) (g : TrucoGame) :
  rtc game_step (TrucoGame.new id mode) g ->
  GameState.id (TrucoGame.gameState g) = id /\
  GameState.mode (TrucoGame.gameState g) = mode /\
  (length (GameState.players (TrucoGame.gameState g)) <= capacityOf mode)%nat /\
  teamsAlternate (GameState.players (TrucoGame.gameState g)) /\
  validStake (GameState.roundValue (TrucoGame.gameState g)).
Proof.
  intros Hreach.
  assert (GameState.id (TrucoGame.gameState g) = id /\
          GameState.mode (TrucoGame.gameState g) = mode /\
          tableShape (TrucoGame.gameState g)) as (Hid & Hmode & Hcap & Halt & Hstake).
  { revert g Hreach. apply rtc_ind_r.
    - split; [reflexivity|]. split; [reflexivity|]. split; [simpl; lia|].
      split; [|by left]. intros i p Hp. simpl in Hp. discriminate.
    - intros g0 g1 _ H (Hid & Hmode & Hshape).
      pose proof (game_step_mode _ _ H) as (Hm & Hi).
      split; [congruence|]. split; [congruence|].
      destruct H as [h0 h1 Hstep|sid name h0].
      + by eapply table_step_tableShape.
      + by apply reconnectPlayer_tableShape. }
  rewrite Hmode in Hcap. auto.
Qed.

Lemma reachable_table_shape_witness :
  rtc game_step (TrucoGame.new "g" ONE_VS_ONE) playing0 /\
  (length (GameState.players (TrucoGame.gameState playing0)) <= capacityOf ONE_VS_ONE)%nat.
Proof.
  assert (rtc game_step (TrucoGame.new "g" ONE_VS_ONE) playing0) as H.
  { apply (rtc_l game_step lobby0 lobby1); [exact (g_table _ _ (t_addPlayer "s1" "ana" lobby0))|].
    apply (rtc_l game_step lobby1 lobby2); [exact (g_table _ _ (t_addPlayer "s2" "bob" lobby1))|].
    apply (rtc_l game_step lobby2 playing0); [exact (g_table _ _ (t_startGame deck0 lobby2))|].
    apply rtc_refl. }
  split; [exact H|].
  exact (proj1 (proj2 (proj2 (reachable_table_shape "g" ONE_VS_ONE playing0 H)))).
Defined.

(** ** Identities, dealer and turn in [TrucoGame] *)

Lemma flagsAgree_sub gs gs' :
  (forall p', p' ∈ GameState.players gs' -> Player.isYourTurn p' = true ->
     exists p, p ∈ GameState.players gs /\ Player.id p = Player.id p' /\
               Player.isYourTurn p = true) ->
  GameState.currentPlayer gs' = GameState.currentPlayer gs ->
  flagsAgree gs -> flagsAgree gs'.
Proof.
  intros Hsub Hcur Hagree p' Hp' Hflag.
  destruct (Hsub p' Hp' Hflag) as (p & Hp & <- & Hf). rewrite Hcur. by apply Hagree.
Qed.

Lemma assignTeams_elem players mode p' :
  p' ∈ assignTeams players mode ->
  exists p t, p ∈ players /\ p' = p |> Player.with_team t.
Proof.
  intros (i & Hi)%list_elem_of_lookup. rewrite assignTeams_lookup in Hi.
  destruct (players !! i) as [p|] eqn:Hp; [|discriminate].
  simpl in Hi. injection Hi as <-. apply lookup_elem_of in Hp.
  destruct mode; [destruct i as [|[|i]]|]; eauto.
  exists p, (Player.team p). by rewrite with_team_same.
Qed.

Lemma existsb_seated players playerId :
  existsb (fun p => String.eqb (Player.id p) playerId) players = true <->
  seated players playerId.
Proof.
  unfold seated. rewrite existsb_exists. split.
  - intros (p & Hp & Heq%String.eqb_eq). subst.
    apply list_elem_of_fmap_2. by apply list_elem_of_In.
  - intros (p & -> & Hp)%list_elem_of_fmap. exists p.
    split; [by apply list_elem_of_In | apply String.eqb_refl].
Qed.

Lemma filter_elem {X} (f : X -> bool) (l : list X) (x : X) :
  x ∈ List.filter f l <-> x ∈ l /\ f x = true.
Proof. rewrite !list_elem_of_In. apply filter_In. Qed.

Lemma NoDup_map_filter {X Y} (g : X -> Y) (f : X -> bool) (l : list X) :
  NoDup (map g l) -> NoDup (map g (List.filter f l)).
Proof.
  induction l as [|x l IH]; simpl; [auto|].
  intros [Hx Hl]%NoDup_cons. destruct (f x); simpl; [|auto].
  apply NoDup_cons. split; [|auto].
  intros (y & Hy & Hin)%list_elem_of_fmap. apply filter_elem in Hin as [Hin _].
  apply Hx. rewrite Hy. by apply list_elem_of_fmap_2.
Qed.

Lemma engine_step_tableSound gs gs' :
  engine_step gs gs' -> tableSound gs -> tableSound gs'.
Proof.
  intros Hstep (Hnd & Hdealer & Hflags).
  pose proof (engine_step_seats _ _ Hstep) as (Hseats & _).
  apply seatIdentity_team in Hseats as (_ & Hids & _).
  split; [by rewrite Hids|]. split.
  - by apply (engine_step_pointers _ _ Hstep).
  - by eapply engine_step_flagsAgree.
Qed.

Lemma resetGame_tableSound g :
  tableSound (TrucoGame.gameState g) ->
  tableSound (TrucoGame.gameState (TrucoGame.resetGame g)).
Proof.
  intros (Hnd & _ & _). unfold tableSound, dealerSeated, seated. simpl.
  rewrite map_map. simpl. split; [exact Hnd|]. split.
  - destruct (GameState.players (TrucoGame.gameState g)) as [|p l]; [by intros []|].
    intros _. simpl. rewrite or_empty_Some. apply list_elem_of_here.
  - intros p (q & -> & _)%list_elem_of_fmap. discriminate.
Qed.

Lemma addPlayer_tableSound playerId username g :
  tableSound (TrucoGame.gameState g) ->
  tableSound (TrucoGame.gameState (snd (TrucoGame.addPlayer playerId username g))).
Proof.
  intros Hsound. pose proof Hsound as (Hnd & Hdealer & Hflags).
  unfold TrucoGame.addPlayer.
  case_bool_decide as Hfull; [exact Hsound|].
  destruct (existsb _ _) eqn:Hex; [exact Hsound|].
  assert (~ seated (GameState.players (TrucoGame.gameState g)) playerId) as Hfresh.
  { intros Hs%existsb_seated. congruence. }
  set (new := Player.mk playerId username [] _ A false false None).
  set (players' := assignTeams _ _).
  assert (map Player.id players'
          = map Player.id (GameState.players (TrucoGame.gameState g)) ++ [playerId]) as Hids.
  { unfold players'. rewrite assignTeams_map by reflexivity. by rewrite map_app. }
  assert (NoDup (map Player.id players')) as Hnd'.
  { rewrite Hids. apply NoDup_app. split; [exact Hnd|]. split.
    - intros x Hx ->%list_elem_of_singleton. by apply Hfresh.
    - apply NoDup_singleton. }
  assert (forall p', p' ∈ players' -> Player.isYourTurn p' = true ->
     exists p, p ∈ GameState.players (TrucoGame.gameState g) /\
               Player.id p = Player.id p' /\ Player.isYourTurn p = true) as Hsub.
  { intros p' (p & t & Hp & ->)%assignTeams_elem Hflag. simpl in Hflag.
    apply elem_of_app in Hp as [Hp| ->%list_elem_of_singleton]; [|discriminate].
    exists p. auto. }
  simpl. case_bool_decide as Hone; simpl.
  - split; [exact Hnd'|]. split.
    + intros _. unfold seated. simpl. rewrite Hids.
      apply elem_of_app. right. apply list_elem_of_here.
    + revert Hflags. by apply flagsAgree_sub.
  - split; [exact Hnd'|]. split.
    + intros _. unfold seated. simpl. rewrite Hids. apply elem_of_app. left.
      apply Hdealer. intros Hnil. apply Hone.
      unfold players'. rewrite assignTeams_length, length_app, Hnil. reflexivity.
    + revert Hflags. by apply flagsAgree_sub.
Qed.

Lemma removePlayer_tableSound playerId g :
  tableSound (TrucoGame.gameState g) ->
  tableSound (TrucoGame.gameState (TrucoGame.removePlayer playerId g)).
Proof.
  intros Hsound. pose proof Hsound as (Hnd & Hdealer & Hflags).
  unfold TrucoGame.removePlayer.
  destruct (_ =? -1) eqn:Hidx; [exact Hsound|].
  destruct (negb _); [by apply resetGame_tableSound|].
  set (filtered := List.filter _ _).
  assert (GameState.players (TrucoGame.gameState g) <> []) as Hne.
  { intros Hnil. rewrite Hnil in Hidx. discriminate. }
  unfold tableSound. simpl. rewrite assignTeams_map by reflexivity.
  split; [by apply NoDup_map_filter|]. split.
  - intros Hne'. unfold seated. simpl. rewrite assignTeams_map by reflexivity.
    destruct filtered as [|first rest] eqn:Hf.
    { exfalso. apply Hne'. simpl. unfold assignTeams.
      by destruct (GameState.mode (TrucoGame.gameState g)). }
    destruct (String.eqb (GameState.dealer (TrucoGame.gameState g)) playerId) eqn:Hd.
    + apply list_elem_of_here.
    + rewrite <- Hf. specialize (Hdealer Hne).
      apply list_elem_of_fmap in Hdealer as (p & Hp & Hin).
      rewrite Hp. apply list_elem_of_fmap_2. apply filter_elem.
      split; [exact Hin|]. rewrite <- Hp, Hd. reflexivity.
  - revert Hflags. apply flagsAgree_sub; [|reflexivity].
    intros p' Hp' Hflag. simpl in Hp'.
    apply assignTeams_elem in Hp' as (p & t & Hp & ->).
    apply filter_elem in Hp as [Hp _]. exists p. auto.
Qed.

Lemma tableSound_same_core gs gs' :
  map (fun p => (Player.id p, Player.isYourTurn p)) (GameState.players gs')
    = map (fun p => (Player.id p, Player.isYourTurn p)) (GameState.players gs) ->
  GameState.dealer gs' = GameState.dealer gs ->
  GameState.currentPlayer gs' = GameState.currentPlayer gs ->
  tableSound gs -> tableSound gs'.
Proof.
  intros Hcore Hd Hc (Hnd & Hdealer & Hflags).
  assert (map Player.id (GameState.players gs') = map Player.id (GameState.players gs))
    as Hids.
  { apply (f_equal (map fst)) in Hcore. by rewrite !map_map in Hcore. }
  split; [by rewrite Hids|]. split.
  - intros Hne. unfold seated. rewrite Hids, Hd. apply Hdealer.
    intros Hnil. apply Hne. apply (f_equal length) in Hids.
    rewrite !length_map, Hnil in Hids. by destruct (GameState.players gs').
  - revert Hflags. apply flagsAgree_sub; [|exact Hc].
    intros p' (i & Hi)%list_elem_of_lookup Hflag.
    assert ((map (fun p => (Player.id p, Player.isYourTurn p)) (GameState.players gs')) !! i
            = Some (Player.id p', Player.isYourTurn p')) as H.
    { change (((fun p => (Player.id p, Player.isYourTurn p)) <$> GameState.players gs') !! i
              = Some (Player.id p', Player.isYourTurn p')).
      by rewrite list_lookup_fmap, Hi. }
    rewrite Hcore in H.
    change (((fun p => (Player.id p, Player.isYourTurn p)) <$> GameState.players gs) !! i
              = Some (Player.id p', Player.isYourTurn p')) in H.
    rewrite list_lookup_fmap in H.
    destruct (GameState.players gs !! i) as [p|] eqn:Hp; [|discriminate].
    simpl in H. injection H as Hid Hfl. exists p.
    split; [by eapply lookup_elem_of|]. split; [exact Hid | congruence].
Qed.

Lemma setPlayerReady_tableSound shuffled playerId g :
  tableSound (TrucoGame.gameState g) ->
  tableSound (TrucoGame.gameState (TrucoGame.setPlayerReady shuffled playerId g)).
Proof.
  intros Hsound. unfold TrucoGame.setPlayerReady.
  destruct (_ =? -1); [exact Hsound|].
  set (updated := match at_index _ _ with Some p => _ | None => _ end).
  assert (map (fun p => (Player.id p, Player.isYourTurn p)) updated
          = map (fun p => (Player.id p, Player.isYourTurn p))
                (GameState.players (TrucoGame.gameState g))) as Hcore.
  { unfold updated. destruct (at_index _ _) as [p|] eqn:Hp; [|auto].
    unfold at_index in Hp. destruct (_ <? 0); [discriminate|].
    by apply (map_insert_same _ _ _ p). }
  assert (tableSound (TrucoGame.gameState g |> GameState.with_players updated)) as Hsound1.
  { revert Hsound. by apply tableSound_same_core. }
  destruct (_ && _); [|exact Hsound1].
  unfold TrucoGame.startGame. simpl. destruct (bool_decide _); [exact Hsound1|].
  simpl. eapply engine_step_tableSound; [apply step_deal | exact Hsound1].
Qed.

Lemma table_step_tableSound g g' :
  table_step g g' ->
  tableSound (TrucoGame.gameState g) -> tableSound (TrucoGame.gameState g').
Proof.
  intros Hstep Hsound.
  assert (TrucoGame.gameState g' = TrucoGame.gameState g \/
          engine_step (TrucoGame.gameState g) (TrucoGame.gameState g') ->
          tableSound (TrucoGame.gameState g')) as Hengine.
  { intros [->|He]; [assumption | by eapply engine_step_tableSound]. }
  destruct Hstep.
  - by apply addPlayer_tableSound.
  - by apply removePlayer_tableSound.
  - by apply setPlayerReady_tableSound.
  - apply Hengine, engine_methods. left. eauto.
  - apply Hengine, engine_methods. right; left. eauto.
  - apply Hengine, engine_methods. right; right; left. eauto.
  - apply Hengine, engine_methods. right; right; right; left. eauto.
  - apply Hengine, engine_methods. right; right; right; right; left. eauto.
  - apply Hengine, engine_methods. right; right; right; right; right. eauto.
  - by apply resetGame_tableSound.
  - match goal with |- context [TrucoGame.markPlayerDisconnected ?pid ?h] =>
      destruct (markPlayerDisconnected_cases pid h) as [[_ ->]|[_ (h1 & Hgs & ->)]]
    end.
    + revert Hsound. apply tableSound_same_core; simpl; [|auto..].
      rewrite map_map. apply map_ext. intros p. by destruct (String.eqb _ _).
    + apply removePlayer_tableSound. by rewrite Hgs.
Qed.

Lemma one_turn_flag (players : list Player) (c : string) :
  NoDup (map Player.id players) ->
  (forall p, p ∈ players -> Player.isYourTurn p = true -> Player.id p = c) ->
  (length (List.filter Player.isYourTurn players) <= 1)%nat.
Proof.
  induction players as [|a l IH]; simpl; [lia|].
  intros [Ha Hl]%NoDup_cons Hall.
  assert (forall p, p ∈ l -> Player.isYourTurn p = true -> Player.id p = c) as Hall'
    by (intros p Hp; apply Hall; by apply list_elem_of_further).
  destruct (Player.isYourTurn a) eqn:Hflag; [|by apply IH].
  assert (List.filter Player.isYourTurn l = []) as ->; [|simpl; lia].
  destruct (List.filter Player.isYourTurn l) as [|b r] eqn:Hf; [reflexivity|].
  exfalso. assert (b ∈ List.filter Player.isYourTurn l) as Hb
    by (rewrite Hf; apply list_elem_of_here).
  apply filter_elem in Hb as [Hb Hbf]. apply Ha.
  rewrite (Hall a (list_elem_of_here _ _) Hflag), <- (Hall' b Hb Hbf).
  by apply list_elem_of_fmap_2.
Qed.

(** X16. In every match that the methods of [TrucoGame] other than
    [reconnectPlayer] can produce from [new TrucoGame(id, mode)], no two
    seats carry the same identity, the dealer pointer names a seat as soon
    as the table is not empty, only a seat named by the current-turn
    pointer carries the turn flag, and so at most one seat holds the turn. *)
Theorem reachable_table_sound (id : string) (mode : GameMode) (g : TrucoGame) :
  rtc table_step (TrucoGame.new id mode) g ->
  NoDup (map Player.id (GameState.players (TrucoGame.gameState g))) /\
  (GameState.players (TrucoGame.gameState g) <> [] ->
   seated (GameState.players (TrucoGame.gameState g))
          (GameState.dealer (TrucoGame.gameState g))) /\
  (forall p, p ∈ GameState.players (TrucoGame.gameState g) ->
     Player.isYourTurn p = true ->
     Player.id p = GameState.currentPlayer (TrucoGame.gameState g)) /\
  (length (List.filter Player.isYourTurn (GameState.players (TrucoGame.gameState g)))
   <= 1)%nat.
Proof.
  intros Hreach.
  assert (tableSound (TrucoGame.gameState g)) as (Hnd & Hdealer & Hflags).
  { revert g Hreach. apply rtc_ind_r.
    - split; [apply NoDup_nil_2|]. split; [by intros []|].
      intros p Hp. simpl in Hp. by apply elem_of_nil in Hp.
    - intros g0 g1 _ Hstep IH. by eapply table_step_tableSound. }
  split; [exact Hnd|]. split; [exact Hdealer|]. split; [exact Hflags|].
  by eapply one_turn_flag.
Qed.

Lemma reachable_table_sound_witness :
  rtc table_step (TrucoGame.new "g" ONE_VS_ONE) playing0 /\
  NoDup (map Player.id (GameState.players (TrucoGame.gameState playing0))).
Proof.
  assert (rtc table_step (TrucoGame.new "g" ONE_VS_ONE) playing0) as H.
  { apply (rtc_l table_step lobby0 lobby1); [exact (t_addPlayer "s1" "ana" lobby0)|].
    apply (rtc_l table_step lobby1 lobby2); [exact (t_addPlayer "s2" "bob" lobby1)|].
    apply (rtc_l table_step lobby2 playing0); [exact (t_startGame deck0 lobby2)|].
    apply rtc_refl. }
  split; [exact H|].
  exact (proj1 (reachable_table_sound "g" ONE_VS_ONE playing0 H)).
Defined.

(** ** Reset, join and leave *)

(** X17. [resetGame] puts the match back into the state
    [initializeGameState] builds for the same identifier, mode and seats,
    the seats having lost their hand, ready flag and turn flag and only the
    seats of the first identity keeping the dealer flag; identities, names
    and teams are kept, the registries are untouched, one snapshot is
    published, and a second reset changes the state no further. *)
Theorem resetGame_is_fresh_state (g : TrucoGame) :
  let gs := TrucoGame.gameState g in
  let firstId := Player.id <$> GameState.players gs !! 0%nat in
  let gs' := TrucoGame.gameState (TrucoGame.resetGame g) in
  gs' = initializeGameState (GameState.id gs) (GameState.mode gs)
          (map (resetSeat firstId) (GameState.players gs)) /\
  map seatIdentity (GameState.players gs')
    = map (fun p => (Player.id p, Player.username p, Player.team p, false,
                     Player.isDisconnected p)) (GameState.players gs) /\
  TrucoGame.playerNames (TrucoGame.resetGame g) = TrucoGame.playerNames g /\
  TrucoGame.disconnectedPlayers (TrucoGame.resetGame g) = TrucoGame.disconnectedPlayers g /\
  TrucoGame.emitted (TrucoGame.resetGame g) = TrucoGame.emitted g ++ [gs'] /\
  TrucoGame.gameState (TrucoGame.resetGame (TrucoGame.resetGame g)) = gs'.
Proof.
  intros gs firstId gs'.
  assert (forall l : list Player,
            Player.id <$> (map (resetSeat (Player.id <$> l !! 0%nat)) l) !! 0%nat
            = Player.id <$> l !! 0%nat) as Hfirst by (by intros [|p l]).
  assert (TrucoGame.gameState (TrucoGame.resetGame g)
          = initializeGameState (GameState.id gs) (GameState.mode gs)
              (map (resetSeat firstId) (GameState.players gs))) as Hinit.
  { unfold initializeGameState, firstId. rewrite Hfirst. reflexivity. }
  split; [exact Hinit|]. split.
  { unfold gs'. simpl. rewrite map_map. reflexivity. }
  split; [reflexivity|]. split; [reflexivity|]. split; [reflexivity|].
  unfold gs'. rewrite Hinit.
  assert (forall h, TrucoGame.gameState (TrucoGame.resetGame h)
            = initializeGameState (GameState.id (TrucoGame.gameState h))
                (GameState.mode (TrucoGame.gameState h))
                (map (resetSeat (Player.id <$> GameState.players (TrucoGame.gameState h) !! 0%nat))
                     (GameState.players (TrucoGame.gameState h)))) as Hgen.
  { intros h. unfold initializeGameState. rewrite Hfirst. reflexivity. }
  rewrite Hgen, Hgen. unfold initializeGameState at 2 3 4. simpl.
  fold gs. rewrite Hfirst. fold firstId.
  rewrite map_map.
  assert (map (fun x => resetSeat firstId (resetSeat firstId x)) (GameState.players gs)
          = map (resetSeat firstId) (GameState.players gs)) as ->
    by (apply map_ext; by intros p).
  reflexivity.
Qed.

Lemma forallb_filter_id {X} (f : X -> bool) (l : list X) :
  (forall x, x ∈ l -> f x = true) -> List.filter f l = l.
Proof.
  induction l as [|a l IH]; intros H; simpl; [reflexivity|].
  rewrite (H a) by apply list_elem_of_here.
  f_equal. apply IH. intros x Hx. apply H. by apply list_elem_of_further.
Qed.

Lemma assignTeams_snoc players mode (x : Player) :
  exists x', assignTeams (players ++ [x]) mode = assignTeams players mode ++ [x'] /\
             exists t, x' = x |> Player.with_team t.
Proof.
  unfold assignTeams. destruct mode; rewrite imap_app; simpl.
  - eexists. split; [reflexivity|].
    destruct (length players + 0)%nat as [|[|n]]; eauto.
    exists (Player.team x). by rewrite with_team_same.
  - eexists. split; [reflexivity|]. eauto.
Qed.

(** What a successful join does to the table. *)
Lemma addPlayer_seats playerId username g :
  (length (GameState.players (TrucoGame.gameState g)) < TrucoGame.maxPlayers g)%nat ->
  ~ seated (GameState.players (TrucoGame.gameState g)) playerId ->
  exists x',
    GameState.players (TrucoGame.gameState (snd (TrucoGame.addPlayer playerId username g)))
      = assignTeams (GameState.players (TrucoGame.gameState g))
                    (GameState.mode (TrucoGame.gameState g)) ++ [x'] /\
    Player.id x' = playerId /\ Player.username x' = username /\
    Player.hand x' = [] /\ Player.isReady x' = false /\ Player.isYourTurn x' = false /\
    GameState.dealer (TrucoGame.gameState (snd (TrucoGame.addPlayer playerId username g)))
      = (if bool_decide (GameState.players (TrucoGame.gameState g) = [])
         then playerId else GameState.dealer (TrucoGame.gameState g)) /\
    TrucoGame.gameState (snd (TrucoGame.addPlayer playerId username g))
      = TrucoGame.gameState g
          |> GameState.with_players
               (assignTeams (GameState.players (TrucoGame.gameState g))
                            (GameState.mode (TrucoGame.gameState g)) ++ [x'])
          |> GameState.with_dealer
               (if bool_decide (GameState.players (TrucoGame.gameState g) = [])
                then playerId else GameState.dealer (TrucoGame.gameState g)).
Proof.
  intros Hroom Hfresh. unfold TrucoGame.addPlayer.
  rewrite bool_decide_eq_false_2 by lia.
  destruct (existsb _ _) eqn:Hex; [by apply existsb_seated in Hex|].
  simpl.
  match goal with |- context [assignTeams (?l ++ [?x]) ?m] =>
    destruct (assignTeams_snoc l m x) as (x' & Heq & t & ->) end.
  rewrite Heq.
  assert (length (assignTeams (GameState.players (TrucoGame.gameState g))
                    (GameState.mode (TrucoGame.gameState g))
                  ++ [Player.with_team t
                        (Player.mk playerId username []
                           (bool_decide (length (GameState.players
                              (TrucoGame.gameState g)) = 0%nat))
                           A false false None)]) = 1%nat
          <-> GameState.players (TrucoGame.gameState g) = []) as Hone.
  { rewrite length_app, assignTeams_length. simpl.
    destruct (GameState.players (TrucoGame.gameState g)); simpl; split;
      first [reflexivity | discriminate | lia]. }
  destruct (decide (GameState.players (TrucoGame.gameState g) = [])) as [Hnil|Hne].
  - rewrite (bool_decide_eq_true_2 _ (proj2 Hone Hnil)).
    rewrite (bool_decide_eq_true_2 _ Hnil). simpl.
    eexists. split; [reflexivity|]. repeat split.
  - rewrite (bool_decide_eq_false_2 _ (fun H => Hne (proj1 Hone H))).
    rewrite (bool_decide_eq_false_2 _ Hne). simpl.
    eexists. split; [reflexivity|]. repeat split.
Qed.

(** X18. A join message that arrives twice only counts once: after
    [addPlayer] has handled an identity, handling the same identity again,
    under any name, leaves the whole match object as it is. And no join
    ever adds more than one seat. *)
Theorem addPlayer_twice_is_once (playerId username username' : string) (g : TrucoGame) :
  let g1 := snd (TrucoGame.addPlayer playerId username g) in
  snd (TrucoGame.addPlayer playerId username' g1) = g1 /\
  (TrucoGame.getPlayerCount g <= TrucoGame.getPlayerCount g1
     <= TrucoGame.getPlayerCount g + 1)%nat.
Proof.
  intros g1.
  destruct (decide (TrucoGame.maxPlayers g
                    <= length (GameState.players (TrucoGame.gameState g)))%nat) as [Hfull|Hroom].
  { assert (g1 = g) as ->.
    { unfold g1, TrucoGame.addPlayer. by rewrite bool_decide_eq_true_2. }
    split; [|lia]. unfold TrucoGame.addPlayer. by rewrite bool_decide_eq_true_2. }
  destruct (existsb (fun p => String.eqb (Player.id p) playerId)
              (GameState.players (TrucoGame.gameState g))) eqn:Hex.
  { assert (g1 = g) as ->.
    { unfold g1, TrucoGame.addPlayer. rewrite bool_decide_eq_false_2 by assumption.
      by rewrite Hex. }
    split; [|lia]. unfold TrucoGame.addPlayer.
    rewrite bool_decide_eq_false_2 by assumption. by rewrite Hex. }
  assert (~ seated (GameState.players (TrucoGame.gameState g)) playerId) as Hfresh.
  { intros Hs%existsb_seated. congruence. }
  destruct (addPlayer_seats playerId username g ltac:(lia) Hfresh)
    as (x' & Hplayers & Hid & _).
  fold g1 in Hplayers.
  assert (existsb (fun p => String.eqb (Player.id p) playerId)
            (GameState.players (TrucoGame.gameState g1)) = true) as Hex1.
  { apply existsb_seated. unfold seated. rewrite Hplayers, map_app. simpl.
    apply elem_of_app. right. rewrite Hid. apply list_elem_of_here. }
  split.
  - unfold TrucoGame.addPlayer at 1. case_bool_decide; [reflexivity|].
    by rewrite Hex1.
  - unfold TrucoGame.getPlayerCount. rewrite Hplayers, length_app, assignTeams_length.
    simpl. lia.
Qed.

(** X19. In the lobby a leave undoes a join. On a table with a free seat,
    whose teams alternate, a fresh identity joins and leaves again: the
    seats are exactly those from before, with their teams. The dealer
    pointer is the one from before too, but on a table that was empty it
    keeps pointing at the identity that joined and left. *)
Theorem removePlayer_undoes_addPlayer (playerId username : string) (g : TrucoGame) :
  GameState.roundState (TrucoGame.gameState g) = WAITING_FOR_PLAYERS ->
  (length (GameState.players (TrucoGame.gameState g)) < TrucoGame.maxPlayers g)%nat ->
  ~ seated (GameState.players (TrucoGame.gameState g)) playerId ->
  GameState.dealer (TrucoGame.gameState g) <> playerId ->
  teamsAlternate (GameState.players (TrucoGame.gameState g)) ->
  let g' := TrucoGame.removePlayer playerId (snd (TrucoGame.addPlayer playerId username g)) in
  TrucoGame.gameState g' =
    TrucoGame.gameState g
      |> GameState.with_dealer
           (if bool_decide (GameState.players (TrucoGame.gameState g) = [])
            then playerId else GameState.dealer (TrucoGame.gameState g)) /\
  GameState.players (TrucoGame.gameState g') = GameState.players (TrucoGame.gameState g).
Proof.
  intros Hwait Hroom Hfresh Hdealer Halt g'.
  destruct (addPlayer_seats playerId username g Hroom Hfresh)
    as (x' & Hplayers & Hid & _ & _ & _ & _ & Hd & Hgs).
  rewrite (assignTeams_fixed _ _ Halt) in Hplayers, Hgs.
  set (g1 := snd (TrucoGame.addPlayer playerId username g)) in *.
  assert (List.filter (fun p => negb (String.eqb (Player.id p) playerId))
            (GameState.players (TrucoGame.gameState g1))
          = GameState.players (TrucoGame.gameState g)) as Hfilter.
  { rewrite Hplayers, List.filter_app. simpl. rewrite Hid, String.eqb_refl. simpl.
    rewrite app_nil_r. apply forallb_filter_id. intros p Hp.
    destruct (String.eqb (Player.id p) playerId) eqn:E; [|reflexivity].
    apply String.eqb_eq in E. exfalso. apply Hfresh. unfold seated.
    rewrite <- E. by apply list_elem_of_fmap_2. }
  assert (TrucoGame.gameState g' =
    TrucoGame.gameState g
      |> GameState.with_dealer
           (if bool_decide (GameState.players (TrucoGame.gameState g) = [])
            then playerId else GameState.dealer (TrucoGame.gameState g))) as Hres.
  { unfold g', TrucoGame.removePlayer.
    destruct (findIndex _ (GameState.players (TrucoGame.gameState g1)) =? -1) eqn:Hidx.
    { apply Z.eqb_eq, findIndex_find_None in Hidx.
      assert (x' ∈ GameState.players (TrucoGame.gameState g1)) as Hin
        by (rewrite Hplayers; apply elem_of_app; right; apply list_elem_of_here).
      apply list_elem_of_In in Hin.
      pose proof (find_none _ _ Hidx _ Hin) as Hno. simpl in Hno.
      rewrite Hid, String.eqb_refl in Hno. discriminate. }
    assert (GameState.roundState (TrucoGame.gameState g1) = WAITING_FOR_PLAYERS) as ->
      by (by rewrite Hgs).
    rewrite bool_decide_eq_true_2 by reflexivity. simpl.
    rewrite Hfilter, Hd, Hgs, (assignTeams_fixed _ _ Halt). simpl.
    destruct (GameState.players (TrucoGame.gameState g)) as [|first rest] eqn:Hl.
    - rewrite bool_decide_eq_true_2 by reflexivity.
      unfold GameState.with_dealer, GameState.with_players. simpl. by rewrite Hl.
    - rewrite bool_decide_eq_false_2 by discriminate.
      apply String.eqb_neq in Hdealer. rewrite Hdealer.
      unfold GameState.with_dealer, GameState.with_players. simpl. by rewrite Hl. }
  split; [exact Hres|]. rewrite Hres. reflexivity.
Qed.

Lemma removePlayer_undoes_addPlayer_witness :
  GameState.roundState (TrucoGame.gameState lobby1) = WAITING_FOR_PLAYERS /\
  (length (GameState.players (TrucoGame.gameState lobby1)) < TrucoGame.maxPlayers lobby1)%nat /\
  GameState.players (TrucoGame.gameState
     (TrucoGame.removePlayer "s2" (snd (TrucoGame.addPlayer "s2" "bob" lobby1))))
  = GameState.players (TrucoGame.gameState lobby1).
Proof.
  assert (GameState.roundState (TrucoGame.gameState lobby1) = WAITING_FOR_PLAYERS) as H1
    by reflexivity.
  assert (length (GameState.players (TrucoGame.gameState lobby1))
          < TrucoGame.maxPlayers lobby1)%nat as H2 by (vm_compute; repeat constructor).
  assert (~ seated (GameState.players (TrucoGame.gameState lobby1)) "s2") as H3.
  { intros H%list_elem_of_In. vm_compute in H. destruct H as [H|[]]. discriminate. }
  assert (GameState.dealer (TrucoGame.gameState lobby1) <> "s2"%string) as H4
    by (vm_compute; discriminate).
  assert (teamsAlternate (GameState.players (TrucoGame.gameState lobby1))) as H5.
  { intros [|i] p Hp; vm_compute in Hp; [|discriminate].
    injection Hp as <-. reflexivity. }
  split; [exact H1 | split; [exact H2|]].
  exact (proj2 (removePlayer_undoes_addPlayer "s2" "bob" lobby1 H1 H2 H3 H4 H5)).
Defined.

(** ** Disconnect and reconnect *)


Lemma truthy_nonempty (s : string) : s <> ""%string -> truthy (Some s) = true.
Proof.
  intros Hs. simpl. destruct (String.eqb s "") eqn:E; [|reflexivity].
  apply String.eqb_eq in E. congruence.
Qed.



(** X21. [reconnectPlayer] goes by the display name alone. With no registry
    entry for the name (or one whose key is the empty string) it reports
    failure and changes nothing. With an entry it reports success and
    rebinds every seat carrying that name to the new identity, connected or
    not and however many there are, leaving every other seat as it was; the
    found entry leaves the registry and one snapshot is published. *)
Theorem reconnectPlayer_goes_by_display_name (g : TrucoGame) (socketId username : string) :
  let r := TrucoGame.reconnectPlayer socketId username g in
  let found := TrucoGame.findDisconnected username (TrucoGame.disconnectedPlayers g) in
  (found = None \/ found = Some ""%string -> r = (false, g)) /\
  (forall old, found = Some old -> old <> ""%string ->
     fst r = true /\
     length (GameState.players (TrucoGame.gameState (snd r)))
       = length (GameState.players (TrucoGame.gameState g)) /\
     (forall i q, GameState.players (TrucoGame.gameState g) !! i = Some q ->
        GameState.players (TrucoGame.gameState (snd r)) !! i =
          Some (if String.eqb (Player.username q) username
                then reboundSeat socketId q else q)) /\
     (forall q, q ∈ GameState.players (TrucoGame.gameState (snd r)) ->
        Player.username q = username ->
        Player.id q = socketId /\ Player.isDisconnected q = Some false) /\
     (forall e, e ∈ TrucoGame.disconnectedPlayers (snd r) -> fst e <> old) /\
     TrucoGame.emitted (snd r) = TrucoGame.emitted g ++ [TrucoGame.gameState (snd r)]).
Proof.
  intros r found. split.
  - intros Hnot. unfold r, TrucoGame.reconnectPlayer. fold found.
    by destruct Hnot as [-> | ->].
  - intros old Hfound Hold.
    unfold r, TrucoGame.reconnectPlayer. fold found.
    rewrite Hfound, (truthy_nonempty old Hold). simpl.
    split; [reflexivity|]. split; [by rewrite length_map|].
    split; [|split; [|split; [|reflexivity]]].
    + intros i q Hq. change (map ?f ?l) with (f <$> l).
      rewrite list_lookup_fmap, Hq. reflexivity.
    + intros q (q0 & -> & _)%list_elem_of_fmap.
      destruct (String.eqb (Player.username q0) username) eqn:E; simpl; [auto|].
      intros Heq. apply String.eqb_neq in E. contradiction.
    + intros e He. unfold map_delete in He.
      apply list_elem_of_In, filter_In in He as (_ & He).
      apply negb_true_iff, String.eqb_neq in He. exact He.
Qed.

Lemma reconnectPlayer_goes_by_display_name_witness :
  fst (TrucoGame.reconnectPlayer "s3" "bob" stalePlaying) = true.
Proof.
  pose proof (reconnectPlayer_goes_by_display_name stalePlaying "s3" "bob") as (_ & H).
  refine (proj1 (H "x"%string _ _)); [vm_compute; reflexivity | discriminate].
Defined.

(** X22. While a round is being played, a drop of a seated identity whose
    seats were all connected lowers the number of connected seats by the
    number of seats with that identity and leaves the number of seats as it
    is; a drop of an identity that has no seat changes neither count. *)
Theorem markPlayerDisconnected_connected_count (g : TrucoGame) (playerId : string) :
  GameState.roundState (TrucoGame.gameState g) = PLAYING ->
  (forall q, q ∈ GameState.players (TrucoGame.gameState g) ->
             Player.id q = playerId -> isConnected q = true) ->
  let g' := TrucoGame.markPlayerDisconnected playerId g in
  TrucoGame.getPlayerCount g' = TrucoGame.getPlayerCount g /\
  (TrucoGame.getConnectedPlayerCount g'
   + length (List.filter (fun q => String.eqb (Player.id q) playerId)
                         (GameState.players (TrucoGame.gameState g)))
   = TrucoGame.getConnectedPlayerCount g)%nat.
Proof.
  intros Hplaying Hconn g'.
  assert (GameState.players (TrucoGame.gameState g')
          = map (fun q => if String.eqb (Player.id q) playerId
                          then q |> Player.with_isDisconnected (Some true) else q)
                (GameState.players (TrucoGame.gameState g))) as Hpl.
  { unfold g', TrucoGame.markPlayerDisconnected.
    destruct (findPlayer _ _); simpl; by rewrite Hplaying. }
  unfold TrucoGame.getPlayerCount, TrucoGame.getConnectedPlayerCount. rewrite Hpl.
  split; [by rewrite length_map|].
  clear Hpl g' Hplaying.
  induction (GameState.players (TrucoGame.gameState g)) as [|q l IH]; [reflexivity|].
  assert (forall q0, q0 ∈ l -> Player.id q0 = playerId -> isConnected q0 = true) as Hl.
  { intros q0 Hq0. apply Hconn. by apply list_elem_of_further. }
  specialize (IH Hl). simpl.
  destruct (String.eqb (Player.id q) playerId) eqn:E; simpl.
  - apply String.eqb_eq in E.
    pose proof (Hconn q (list_elem_of_here _ _) E) as Hq.
    unfold isConnected in Hq. rewrite Hq. simpl. lia.
  - destruct (negb (default false (Player.isDisconnected q))); simpl; lia.
Qed.

Lemma markPlayerDisconnected_connected_count_witness :
  TrucoGame.getConnectedPlayerCount (TrucoGame.markPlayerDisconnected "s2" playing0) = 1%nat.
Proof.
  assert (GameState.roundState (TrucoGame.gameState playing0) = PLAYING) as H1
    by reflexivity.
  assert (forall q, q ∈ GameState.players (TrucoGame.gameState playing0) ->
            Player.id q = "s2"%string -> isConnected q = true) as H2.
  { intros q Hq%list_elem_of_In _. vm_compute in Hq.
    destruct Hq as [<-|[<-|[]]]; reflexivity. }
  pose proof (proj2 (markPlayerDisconnected_connected_count playing0 "s2" H1 H2)) as H.
  vm_compute in H. vm_compute. lia.
Defined.

(** ** The game manager *)

Section jsmap_facts.
Context {K V : Type} `{EqDecision K}.
Implicit Types (m : list (K * V)) (k : K) (v : V).

Lemma jsmap_set_keys k v m :
  jsmap_has k m = true -> map fst (jsmap_set k v m) = map fst m.
Proof.
  induction m as [|[k' v'] m IH]; simpl; [discriminate|].
  case_bool_decide as Hk; simpl; [by rewrite Hk|].
  intros Hm. by rewrite IH.
Qed.

Lemma jsmap_set_fresh k v m :
  jsmap_has k m = false -> jsmap_set k v m = m ++ [(k, v)].
Proof.
  induction m as [|[k' v'] m IH]; simpl; [reflexivity|].
  case_bool_decide as Hk; simpl; [discriminate|].
  intros Hm. by rewrite IH.
Qed.

Lemma jsmap_has_keys k m : jsmap_has k m = true <-> k ∈ map fst m.
Proof.
  unfold jsmap_has. rewrite existsb_exists. split.
  - intros ([k' v'] & Hin & Hk). apply bool_decide_eq_true in Hk. simpl in Hk.
    subst k'. apply list_elem_of_In. apply in_map_iff. by exists (k, v').
  - intros Hin%list_elem_of_In. apply in_map_iff in Hin as ([k' v'] & Hk & Hin).
    simpl in Hk. subst k'. exists (k, v'). split; [exact Hin|].
    by apply bool_decide_eq_true_2.
Qed.

Lemma jsmap_set_elem k v m e :
  e ∈ jsmap_set k v m -> e = (k, v) \/ e ∈ m.
Proof.
  induction m as [|[k' v'] m IH]; simpl.
  - intros ->%list_elem_of_singleton. by left.
  - case_bool_decide.
    + intros [->|He]%elem_of_cons; [by left|]. right. by apply list_elem_of_further.
    + intros [->|He]%elem_of_cons; [right; apply list_elem_of_here|].
      destruct (IH He) as [->|Hm]; [by left|]. right. by apply list_elem_of_further.
Qed.

Lemma jsmap_get_elem k v m : jsmap_get k m = Some v -> (k, v) ∈ m.
Proof.
  unfold jsmap_get. destruct (List.find _ m) as [[k' v']|] eqn:Hfind; [|discriminate].
  apply find_some in Hfind as (Hin & Hk). apply bool_decide_eq_true in Hk.
  simpl in *. intros [= <-]. subst k'. by apply list_elem_of_In.
Qed.

Lemma jsmap_elem_get k v m :
  NoDup (map fst m) -> (k, v) ∈ m -> jsmap_get k m = Some v.
Proof.
  unfold jsmap_get. induction m as [|[k' v'] m IH]; simpl.
  - intros _ Hin. by apply elem_of_nil in Hin.
  - intros [Hfresh Hnodup]%NoDup_cons [[= -> ->]|Hin]%elem_of_cons.
    + by rewrite bool_decide_eq_true_2.
    + case_bool_decide as Hk; [|by apply IH]. simpl in Hk. subst k'.
      exfalso. apply Hfresh. apply list_elem_of_In, in_map_iff.
      exists (k, v). split; [reflexivity | by apply list_elem_of_In].
Qed.
End jsmap_facts.

(** X23. The room listing has one room per stored table, in creation order,
    with the table's identifier, mode and seat identities and a capacity of
    2 or 4 by mode; and it reports every room as playing, also a table that
    is still waiting for players, because the round state is compared with
    a string that is not the value of any of its members. *)
Theorem getPublicRooms_never_waiting (clock : nat -> Z) (m : GameManager) :
  let rooms := GameManager.getPublicRooms clock m in
  length rooms = length (GameManager.games m) /\
  (forall i game, GameManager.getAllGames m !! i = Some game ->
     exists room, rooms !! i = Some room /\
       GameRoom.id room = GameState.id (TrucoGame.gameState game) /\
       GameRoom.mode room = GameState.mode (TrucoGame.gameState game) /\
       GameRoom.players room
         = map Player.id (GameState.players (TrucoGame.gameState game)) /\
       GameRoom.maxPlayers room = Z.of_nat (TrucoGame.maxPlayers game) /\
       GameRoom.createdAt room = clock i) /\
  (forall room, room ∈ rooms -> GameRoom.status room = playing).
Proof.
  intros rooms. unfold rooms, GameManager.getPublicRooms.
  split; [unfold GameManager.getAllGames; by rewrite length_imap, length_map|]. split.
  - intros i game Hgame. eexists. rewrite list_lookup_imap, Hgame. simpl.
    split; [reflexivity|]. repeat split.
    unfold TrucoGame.maxPlayers. by destruct (GameState.mode _).
  - intros room (i & Hroom)%list_elem_of_lookup.
    rewrite list_lookup_imap in Hroom.
    destruct (GameManager.getAllGames m !! i) as [game|]; [|discriminate].
    simpl in Hroom. injection Hroom as <-. simpl.
    by destruct (GameState.roundState (TrucoGame.gameState game)).
Qed.

Lemma manager_step_sound m m' :
  manager_step m m' -> managerSound m -> managerSound m'.
Proof.
  intros Hstep (Hnames & Hnodup & Hgames). destruct Hstep as [id mode name m|id m|id game game' m Hget Hstep].
  - split; [exact Hnames|]. simpl.
    destruct (jsmap_has id (GameManager.games m)) eqn:Hhas.
    + split; [by rewrite jsmap_set_keys|].
      intros e [->|He]%jsmap_set_elem; [|by apply Hgames].
      split; [reflexivity|]. split; [simpl; destruct mode; simpl; lia|].
      split; [|by left]. intros i p Hp. simpl in Hp. discriminate.
    + rewrite jsmap_set_fresh by exact Hhas. split.
      * change (map fst ?l) with (fst <$> l). rewrite fmap_app. simpl.
        apply NoDup_app. split; [exact Hnodup|]. split; [|apply NoDup_singleton].
        intros k Hk ->%list_elem_of_singleton.
        apply jsmap_has_keys in Hk. congruence.
      * intros e [He|He]%elem_of_app; [by apply Hgames|].
        apply list_elem_of_singleton in He as ->.
        split; [reflexivity|]. split; [simpl; destruct mode; simpl; lia|].
        split; [|by left]. intros i p Hp. simpl in Hp. discriminate.
  - split; [exact Hnames|]. simpl. unfold jsmap_delete. split.
    + by apply NoDup_map_filter.
    + intros e (He & _)%filter_elem. by apply Hgames.
  - split; [exact Hnames|]. simpl.
    pose proof (jsmap_get_elem _ _ _ Hget) as Hin.
    assert (jsmap_has id (GameManager.games m) = true) as Hhas.
    { apply jsmap_has_keys. apply list_elem_of_In, in_map_iff.
      exists (id, game). split; [reflexivity | by apply list_elem_of_In]. }
    split; [by rewrite jsmap_set_keys|].
    intros e [->|He]%jsmap_set_elem; [|by apply Hgames].
    destruct (Hgames _ Hin) as (Hid & Hshape). simpl in *.
    pose proof (game_step_mode _ _ Hstep) as (_ & Hi).
    split; [congruence|].
    destruct Hstep as [h0 h1 Hstep|sid name h0].
    + by eapply table_step_tableShape.
    + by apply reconnectPlayer_tableShape.
Qed.

Lemma manager_reachable_sound m :
  rtc manager_step GameManager.new m -> managerSound m.
Proof.
  revert m. apply rtc_ind_r.
  - split; [reflexivity|]. split; [apply NoDup_nil_2|].
    intros e He. by apply elem_of_nil in He.
  - intros m m' _ Hstep IH. by eapply manager_step_sound.
Qed.

(** X24. In every manager that the socket handlers can produce from an
    empty one (tables created and removed, methods called on stored
    tables), the rooms of a listing have pairwise different identifiers;
    each room is the table that [getGame] finds under the room's
    identifier, with as many seats as the room shows and never more than
    its capacity; and the room is shown as "Game " followed by the first
    five characters of its identifier, whatever name was given when it was
    created. *)
Theorem reachable_manager_listing (clock : nat -> Z) (m : GameManager) :
  rtc manager_step GameManager.new m ->
  let rooms := GameManager.getPublicRooms clock m in
  NoDup (map GameRoom.id rooms) /\
  forall room, room ∈ rooms ->
    GameRoom.name room = ("Game " ++ String.substring 0 5 (GameRoom.id room))%string /\
    (Z.of_nat (length (GameRoom.players room)) <= GameRoom.maxPlayers room) /\
    exists game, GameManager.getGame (GameRoom.id room) m = Some game /\
      GameState.id (TrucoGame.gameState game) = GameRoom.id room /\
      map Player.id (GameState.players (TrucoGame.gameState game)) = GameRoom.players room.
Proof.
  intros Hreach rooms.
  destruct (manager_reachable_sound m Hreach) as (Hnames & Hnodup & Hgames).
  assert (map GameRoom.id rooms = map fst (GameManager.games m)) as Hids.
  { unfold rooms, GameManager.getPublicRooms, GameManager.getAllGames.
    apply list_eq. intros i. change (map ?f ?l) with (f <$> l).
    rewrite !list_lookup_fmap, list_lookup_imap, list_lookup_fmap.
    destruct (GameManager.games m !! i) as [e|] eqn:He; [|reflexivity]. simpl.
    f_equal. apply Hgames. by eapply list_elem_of_lookup_2. }
  split; [by rewrite Hids|].
  intros room (i & Hroom)%list_elem_of_lookup.
  unfold rooms, GameManager.getPublicRooms, GameManager.getAllGames in Hroom.
  change (map ?f ?l) with (f <$> l) in Hroom.
  rewrite list_lookup_imap, list_lookup_fmap in Hroom.
  destruct (GameManager.games m !! i) as [[k game]|] eqn:He; [|discriminate].
  simpl in Hroom. injection Hroom as <-. simpl.
  apply list_elem_of_lookup_2 in He.
  destruct (Hgames _ He) as (Hid & Hcap & _). simpl in Hid, Hcap.
  split; [|split].
  - unfold GameManager.getRoomName. rewrite Hnames. reflexivity.
  - rewrite length_map. unfold capacityOf in Hcap.
    destruct (GameState.mode (TrucoGame.gameState game)); lia.
  - exists game. split; [|auto]. rewrite Hid. by apply jsmap_elem_get.
Qed.

Lemma reachable_manager_listing_witness :
  rtc manager_step GameManager.new manager0 /\
  NoDup (map GameRoom.id (GameManager.getPublicRooms (fun _ => 0) manager0)).
Proof.
  assert (rtc manager_step GameManager.new manager0) as H.
  { set (m1 := snd (GameManager.createGame "h" TWO_VS_TWO "mesa" GameManager.new)).
    set (m2 := snd (GameManager.createGame "g" ONE_VS_ONE "sala" m1)).
    set (m3 := GameManager.updateGame "g" lobby1 m2).
    set (m4 := GameManager.updateGame "g" lobby2 m3).
    replace manager0 with (GameManager.updateGame "g" playing0 m4)
      by (vm_compute; reflexivity).
    apply (rtc_l manager_step _ m1); [exact (m_createGame "h" TWO_VS_TWO "mesa" _)|].
    apply (rtc_l manager_step _ m2); [exact (m_createGame "g" ONE_VS_ONE "sala" m1)|].
    apply (rtc_l manager_step _ m3).
    { apply (m_method "g" lobby0 lobby1 m2); [vm_compute; reflexivity|].
      exact (g_table _ _ (t_addPlayer "s1" "ana" lobby0)). }
    apply (rtc_l manager_step _ m4).
    { apply (m_method "g" lobby1 lobby2 m3); [vm_compute; reflexivity|].
      exact (g_table _ _ (t_addPlayer "s2" "bob" lobby1)). }
    apply (rtc_l manager_step _ (GameManager.updateGame "g" playing0 m4)); [|apply rtc_refl].
    apply (m_method "g" lobby2 playing0 m4); [vm_compute; reflexivity|].
    exact (g_table _ _ (t_startGame deck0 lobby2)). }
  split; [exact H|].
  exact (proj1 (reachable_manager_listing (fun _ => 0) manager0 H)).
Defined.

(** ** Tricks *)

Lemma seated_find players pid :
  seated players pid -> is_Some (findPlayer players (Some pid)).
Proof.
  intros (p & -> & Hp)%list_elem_of_fmap. simpl.
  destruct (List.find _ players) as [q|] eqn:Hfind; [by eexists|].
  apply list_elem_of_In in Hp. pose proof (find_none _ _ Hfind _ Hp) as H.
  simpl in H. by rewrite String.eqb_refl in H.
Qed.

Lemma namedSeats_seated gs : namedSeats gs <-> ~ seated (GameState.players gs) "".
Proof.
  unfold namedSeats, seated. split.
  - intros H (p & Hid & Hp)%list_elem_of_fmap. by apply (H p Hp).
  - intros H p Hp Hid. apply H. rewrite <- Hid. by apply list_elem_of_fmap_2.
Qed.

Lemma namedSeats_seatIdentity gs gs' :
  map seatIdentity (GameState.players gs') = map seatIdentity (GameState.players gs) ->
  namedSeats gs -> namedSeats gs'.
Proof.
  intros Hseats. rewrite !namedSeats_seated.
  by rewrite (seated_seatIdentity _ _ _ Hseats).
Qed.

(** A trick that is complete is always settled: with cards of seated
    players on the table, [evaluateTrick] never takes one of its two
    defensive returns. *)
Lemma evaluateTrick_settles gs gs' :
  namedSeats gs ->
  GameState.currentTrick gs <> [] ->
  (forall e, e ∈ GameState.currentTrick gs ->
             seated (GameState.players gs) (PlayedCard.playerId e)) ->
  evaluateTrick gs = Some gs' ->
  (exists w,
     determineTrickWinner (GameState.currentTrick gs) (GameState.vira gs) = Some w /\
     seated (GameState.players gs) w /\
     (length (GameState.tricks gs) + 1 <> 3)%nat /\
     gs' = gs
       |> GameState.with_players
            (map (fun p => p |> Player.with_isYourTurn (String.eqb (Player.id p) w))
                 (GameState.players gs))
       |> GameState.with_currentPlayer w
       |> GameState.with_currentTrick []
       |> GameState.with_tricks (GameState.tricks gs ++ [GameState.currentTrick gs])) \/
  finishRound gs (GameState.tricks gs ++ [GameState.currentTrick gs]) = Some gs'.
Proof.
  intros Hnamed Hne Hseated. unfold evaluateTrick.
  destruct (determineTrickWinner_max (GameState.vira gs) _ Hne) as (e & He & -> & _).
  pose proof (Hseated e He) as Hw.
  destruct (seated_find _ _ Hw) as (seat & Hseat).
  assert (PlayedCard.playerId e <> ""%string) as Hid.
  { apply list_elem_of_fmap in Hw as (p & -> & Hp). by apply Hnamed. }
  rewrite (truthy_nonempty _ Hid), Hseat. simpl.
  destruct (Z.of_nat (length (GameState.tricks gs ++ [GameState.currentTrick gs])) =? 3)
    eqn:Hthree; simpl; [by right|].
  destruct (_ || _); [by right|].
  intros [= <-]. left. exists (PlayedCard.playerId e).
  split; [reflexivity|]. split; [exact Hw|]. split; [|reflexivity].
  apply Z.eqb_neq in Hthree. rewrite length_app in Hthree. simpl in Hthree. lia.
Qed.

Lemma tricksInOrder_closed gs gs' : roundClosed gs gs' -> tricksInOrder gs'.
Proof.
  intros (next & _ & _ & _ & Hct & Htr & _). unfold tricksInOrder.
  rewrite Hct, Htr. simpl.
  split; [intros e He; by apply elem_of_nil in He|]. split; [by left|].
  split; [lia|]. intros t Ht. by apply elem_of_nil in Ht.
Qed.

Lemma tricksInOrder_same gs gs' :
  map seatIdentity (GameState.players gs') = map seatIdentity (GameState.players gs) ->
  GameState.currentTrick gs' = GameState.currentTrick gs \/ GameState.currentTrick gs' = [] ->
  GameState.tricks gs' = GameState.tricks gs \/ GameState.tricks gs' = [] ->
  tricksInOrder gs -> tricksInOrder gs'.
Proof.
  intros Hseats Hct Htr (Hin & Hlen & Hhist & Hfull).
  assert (length (GameState.players gs') = length (GameState.players gs)) as Hn.
  { apply (f_equal length) in Hseats. by rewrite !length_map in Hseats. }
  unfold tricksInOrder. rewrite Hn.
  split; [|split; [|split]].
  - intros e He. apply (seated_seatIdentity _ _ _ Hseats).
    destruct Hct as [Hct|Hct]; rewrite Hct in He; [by apply Hin|].
    by apply elem_of_nil in He.
  - destruct Hct as [-> | ->]; [exact Hlen | by left].
  - destruct Htr as [-> | ->]; [exact Hhist | simpl; lia].
  - intros t Ht. destruct Htr as [Htr|Htr]; rewrite Htr in Ht; [by apply Hfull|].
    by apply elem_of_nil in Ht.
Qed.

Lemma engine_step_tricks (gs gs' : GameState) :
  engine_step gs gs' -> namedSeats gs -> tricksInOrder gs -> tricksInOrder gs'.
Proof.
  intros Hstep Hnamed Hord.
  pose proof (engine_step_seats _ _ Hstep) as (Hseats & _).
  destruct Hstep as [sh gs|now pid cid gs gs' H|sh gs|pid gs|gs|gs gs' H].
  - revert Hord. apply tricksInOrder_same; [exact Hseats | right | left];
      unfold dealCardsToPlayers; destruct (popCard sh); reflexivity.
  - destruct Hord as (Hin & Hlen & Hhist & Hfull).
    apply processPlayedCard_cases in H
      as [->|(i & j & player & card & Hi & Hpid & _ & _ & Hcases)];
      [by repeat split|].
    set (nextState := gs |> GameState.with_players _ |> GameState.with_currentTrick _)
      in Hcases.
    assert (map seatIdentity (GameState.players nextState)
            = map seatIdentity (GameState.players gs)) as Hnext
      by (by apply (map_insert_same seatIdentity _ _ player)).
    assert (length (GameState.players nextState) = length (GameState.players gs)) as Hn.
    { apply (f_equal length) in Hnext. by rewrite !length_map in Hnext. }
    assert (forall e, e ∈ GameState.currentTrick nextState ->
              seated (GameState.players nextState) (PlayedCard.playerId e)) as Hin'.
    { intros e He. apply (seated_seatIdentity _ _ _ Hnext).
      apply elem_of_app in He as [He|He]; [by apply Hin|].
      apply list_elem_of_singleton in He as ->.
      simpl. rewrite <- Hpid. apply list_elem_of_fmap_2. by eapply list_elem_of_lookup_2. }
    assert (namedSeats nextState) as Hnamed'
      by (by apply (namedSeats_seatIdentity gs)).
    destruct Hcases as [[Hfull' Hev]|[Hopen (nx & _ & ->)]].
    + apply evaluateTrick_settles in Hev
        as [(w & _ & _ & Hthree & ->)|Hfin]; [| |exact Hnamed'| |exact Hin'].
      * unfold tricksInOrder. simpl.
        rewrite length_map, length_insert.
        split; [intros e He; by apply elem_of_nil in He|]. split; [by left|].
        split; [rewrite length_app; simpl in *; lia|].
        intros t [Ht|Ht]%elem_of_app; [by apply Hfull|].
        apply list_elem_of_singleton in Ht as ->. exact Hfull'.
      * by apply finishRound_roundClosed, tricksInOrder_closed in Hfin.
      * simpl. by destruct (GameState.currentTrick gs).
    + unfold tricksInOrder. simpl. rewrite length_map, length_insert.
      split; [|split; [|split; [exact Hhist | exact Hfull]]].
      * intros e He. apply Hin' in He. unfold seated in *. simpl in He.
        rewrite map_map. simpl. exact He.
      * right. simpl in Hopen. rewrite length_app in *. simpl in *.
        destruct Hlen as [Hnil|Hlt]; [|lia].
        rewrite Hnil in *. simpl in *.
        apply lookup_lt_Some in Hi. lia.
  - unfold startNewRound in *. destruct (negb _); [exact Hord|].
    revert Hord. apply tricksInOrder_same; [exact Hseats | right | right];
      unfold dealCardsToPlayers; destruct (popCard sh); reflexivity.
  - revert Hord. apply tricksInOrder_same; [exact Hseats | left | left];
      unfold processTrucoRequest; destruct (GameState.trucoRequested gs);
      simpl; try reflexivity; by destruct (List.find _ _).
  - revert Hord. apply tricksInOrder_same; [exact Hseats | left | left];
      unfold acceptTrucoRequest; destruct (_ || _); try reflexivity;
      by destruct (findPlayer _ _).
  - apply declineTrucoRequest_roundClosed in H as [->|(_ & Hc & _)]; [exact Hord|].
    by eapply tricksInOrder_closed.
Qed.

(** X25. On a table on which no seat has the empty string as identity
    (which no transition changes), every transition of [gameUtils] keeps
    the tricks in order: the cards on the table come from seated players
    and are fewer than the seats (the card that completes a trick gets it
    settled in the same call), the history never holds more than two
    tricks, and every trick in it has as many cards as there are seats. *)
Theorem engine_step_keeps_tricks_in_order (gs gs' : GameState) :
  engine_step gs gs' -> namedSeats gs -> tricksInOrder gs ->
  namedSeats gs' /\ tricksInOrder gs'.
Proof.
  intros Hstep Hnamed Hord. split; [|by eapply engine_step_tricks].
  pose proof (engine_step_seats _ _ Hstep) as (Hseats & _).
  by apply (namedSeats_seatIdentity gs).
Qed.

Lemma engine_step_keeps_tricks_in_order_witness :
  let gs := TrucoGame.gameState playing0 in
  exists gs', processPlayedCard 1 gs "s2" "3" = Some gs' /\
              namedSeats gs /\ tricksInOrder gs /\ tricksInOrder gs'.
Proof.
  intros gs.
  destruct (processPlayedCard 1 gs "s2" "3") as [gs'|] eqn:H;
    [|vm_compute in H; discriminate].
  assert (namedSeats gs) as Hnamed.
  { intros p Hp%list_elem_of_In. vm_compute in Hp.
    destruct Hp as [<-|[<-|[]]]; discriminate. }
  assert (tricksInOrder gs) as Hord.
  { split; [intros e He; vm_compute in He; by apply elem_of_nil in He|].
    split; [by left|]. split; [vm_compute; lia|].
    intros t Ht. vm_compute in Ht. by apply elem_of_nil in Ht. }
  exists gs'. split; [reflexivity|]. split; [exact Hnamed|]. split; [exact Hord|].
  exact (proj2 (engine_step_keeps_tricks_in_order gs gs'
                  (step_play 1 "s2" "3" gs gs' H) Hnamed Hord)).
Defined.

(** ** Raising the stake, and dealing in the middle of a round *)

(** X26. Asking and accepting compose to one rung of the ladder. On a state
    with no request pending, a request by a seated player (whose identity
    is not the empty string) followed by an accept gives the state back
    with the stake replaced by [getNextRoundValue] of it and nothing else
    changed. While the request is pending, further requests are ignored,
    whoever sends them; and a second accept changes nothing. *)
Theorem request_then_accept_raises_one_rung (gs : GameState) (playerId other : string) :
  GameState.trucoRequested gs = false ->
  GameState.trucoRequestedBy gs = None ->
  seated (GameState.players gs) playerId ->
  playerId <> ""%string ->
  let asked := processTrucoRequest gs playerId in
  GameState.trucoRequested asked = true /\
  GameState.trucoRequestedBy asked = Some playerId /\
  processTrucoRequest asked other = asked /\
  acceptTrucoRequest asked
    = gs |> GameState.with_roundValue (getNextRoundValue (GameState.roundValue gs)) /\
  acceptTrucoRequest (acceptTrucoRequest asked) = acceptTrucoRequest asked.
Proof.
  intros Hreq Hby Hseated Hid asked.
  destruct (seated_find _ _ Hseated) as (seat & Hseat).
  assert (asked = gs |> GameState.with_trucoRequested true
                     |> GameState.with_trucoRequestedBy (Some playerId)) as Hasked.
  { unfold asked, processTrucoRequest. by rewrite Hreq, Hseat. }
  assert (acceptTrucoRequest asked
          = gs |> GameState.with_roundValue (getNextRoundValue (GameState.roundValue gs)))
    as Haccept.
  { rewrite Hasked. unfold acceptTrucoRequest. simpl GameState.trucoRequested.
    simpl GameState.trucoRequestedBy. rewrite (truthy_nonempty _ Hid).
    simpl GameState.players. rewrite Hseat. simpl.
    destruct gs; simpl in *. by rewrite Hreq, Hby. }
  split; [by rewrite Hasked|]. split; [by rewrite Hasked|]. split; [|split].
  - rewrite Hasked. reflexivity.
  - exact Haccept.
  - rewrite Haccept. unfold acceptTrucoRequest. simpl. by rewrite Hreq.
Qed.

Lemma request_then_accept_raises_one_rung_witness :
  let gs := TrucoGame.gameState playing0 in
  GameState.roundValue (acceptTrucoRequest (processTrucoRequest gs "s1")) = 3.
Proof.
  intros gs.
  assert (GameState.trucoRequested gs = false) as H1 by reflexivity.
  assert (GameState.trucoRequestedBy gs = None) as H2 by reflexivity.
  assert (seated (GameState.players gs) "s1") as H3.
  { apply list_elem_of_In. vm_compute. auto. }
  assert ("s1"%string <> ""%string) as H4 by discriminate.
  destruct (request_then_accept_raises_one_rung gs "s1" "s2" H1 H2 H3 H4)
    as (_ & _ & _ & -> & _).
  reflexivity.
Defined.

Lemma with_isReady_ready (p : Player) :
  Player.isReady p = true -> p |> Player.with_isReady true = p.
Proof. destruct p. simpl. by intros ->. Qed.

(** X27. Neither [startGame] nor [setPlayerReady] looks at the round state.
    On a full table [startGame] deals, whatever the state, and when every
    seat is ready a ready message from any seated identity deals too, after
    publishing the state it found. Received in the middle of a round they
    therefore deal afresh: the round is [PLAYING], the trick on the table
    is cleared and the last card of the new deck is turned, while the
    scores, the stake, a pending escalation, the trick history, the dealer
    and the winner stay as they are. *)
Theorem startGame_and_ready_deal_in_any_state (shuffled : list Card)
    (playerId : string) (g : TrucoGame) :
  length (GameState.players (TrucoGame.gameState g)) = TrucoGame.maxPlayers g ->
  let gs := TrucoGame.gameState g in
  let dealt := dealCardsToPlayers shuffled gs in
  TrucoGame.gameState (TrucoGame.startGame shuffled g) = dealt /\
  (seated (GameState.players gs) playerId ->
   forallb Player.isReady (GameState.players gs) = true ->
   TrucoGame.gameState (TrucoGame.setPlayerReady shuffled playerId g) = dealt /\
   TrucoGame.emitted (TrucoGame.setPlayerReady shuffled playerId g)
     = TrucoGame.emitted g ++ [gs; dealt]) /\
  GameState.roundState dealt = PLAYING /\
  GameState.currentTrick dealt = [] /\
  GameState.vira dealt = last shuffled /\
  (GameState.teamAScore dealt, GameState.teamBScore dealt, GameState.roundValue dealt,
   GameState.trucoRequested dealt, GameState.trucoRequestedBy dealt,
   GameState.tricks dealt, GameState.dealer dealt, GameState.winner dealt)
  = (GameState.teamAScore gs, GameState.teamBScore gs, GameState.roundValue gs,
     GameState.trucoRequested gs, GameState.trucoRequestedBy gs,
     GameState.tricks gs, GameState.dealer gs, GameState.winner gs).
Proof.
  intros Hfull gs dealt.
  assert (TrucoGame.startGame shuffled g
          = TrucoGame.emitGameUpdate (g |> TrucoGame.with_gameState dealt)) as Hstart.
  { unfold TrucoGame.startGame. rewrite bool_decide_eq_false_2 by lia. reflexivity. }
  split; [by rewrite Hstart|]. split.
  - intros Hseated Hready.
    destruct (seated_find _ _ Hseated) as (seat & Hseat).
    apply findPlayer_Some in Hseat as (i & Hi & Hl & Hid).
    assert (Player.isReady seat = true) as Hseat_ready.
    { rewrite forallb_forall in Hready. apply Hready.
      apply list_elem_of_In. by eapply list_elem_of_lookup_2. }
    unfold TrucoGame.setPlayerReady. fold gs. rewrite Hi.
    destruct (Z.of_nat i =? -1) eqn:E; [apply Z.eqb_eq in E; lia|].
    rewrite at_index_of_nat, Hl, Nat2Z.id, (with_isReady_ready _ Hseat_ready).
    rewrite (list_insert_id _ _ _ Hl), Hready.
    assert (gs |> GameState.with_players (GameState.players gs) = gs) as ->
      by (by destruct gs).
    assert (TrucoGame.maxPlayers
              (TrucoGame.emitGameUpdate (g |> TrucoGame.with_gameState gs))
            = TrucoGame.maxPlayers g) as -> by reflexivity.
    fold gs in Hfull. rewrite (bool_decide_eq_true_2 _ Hfull). simpl andb. cbv iota.
    unfold TrucoGame.startGame.
    simpl TrucoGame.gameState.
    assert (TrucoGame.maxPlayers
              (TrucoGame.emitGameUpdate (g |> TrucoGame.with_gameState gs))
            = TrucoGame.maxPlayers g) as -> by reflexivity.
    rewrite bool_decide_eq_false_2 by lia.
    split; [reflexivity|]. simpl. by rewrite <- app_assoc.
  - unfold dealt, dealCardsToPlayers, popCard.
    destruct (last shuffled); simpl; auto.
Qed.

Lemma startGame_and_ready_deal_in_any_state_witness :
  TrucoGame.gameState (TrucoGame.startGame deck0 afterTrick1)
    = dealCardsToPlayers deck0 (TrucoGame.gameState afterTrick1) /\
  GameState.currentTrick (dealCardsToPlayers deck0 (TrucoGame.gameState afterTrick1)) = [].
Proof.
  assert (length (GameState.players (TrucoGame.gameState afterTrick1))
          = TrucoGame.maxPlayers afterTrick1) as H by (vm_compute; reflexivity).
  pose proof (startGame_and_ready_deal_in_any_state deck0 "s1" afterTrick1 H)
    as (H1 & _ & _ & H2 & _).
  split; [exact H1 | exact H2].
Defined.
